(** * The LOOKAWAY tank: lifecycle broadcaster, beam detector, audio cooldown
      and specimen registry

    A shallow embedding of the parts of the tank widget that carry logic:

    - [TankBeam]   : the collision poll of tank-beam.js
                     ([TankBeamModule.startCollisionDetection]);
    - [TankDecay]  : the lifecycle controller of tank-decay.js ([tankDecay]);
    - [TankAudio]  : the beam/text contact loop at the end of
                     [integrateTankAudio] (tank-audio.js);
    - [Specimens]  : the registry of tank-specimens.js ([SPECIMENS]);
    - [TankConfig] : the grid of [TANK_CONFIG] and [getGridColumns];
    - [BeamSync], [AudioSync] : the callbacks that beam and audio subscribe
                     to the lifecycle controller;
    - [AudioClass] : the class [TankAudio] and the volume button of
                     [integrateTankAudio] (tank-audio.js);
    - [Sweep]      : one title under the collision poll and the contact
                     loop at once.

    Conventions of the embedding.
    - [Date.now()] is an integer number of milliseconds, a [Z]; every read of
      the clock is an explicit argument of the function that performs it.
    - The collision poll computes with the boxes [getBoundingClientRect]
      returns and branches on the results at their boundaries; there the
      JavaScript numbers are what they are in the engine, binary64 floats
      ([PrimFloat], module [Double]): every sum, difference and quotient is
      rounded as the code's is.
    - Elsewhere (progress values, gains and frequencies, the boxes and the
      scan coordinate of the audio loop) numbers are modelled by rationals
      [Q]; what is stated there does not turn on the rounding of a result.
    - A string the code takes apart (the text of an element, in the key of
      the audio loop) is a sequence of UTF-16 code units ([JSString]).
    - [classList] is a finite set of class names, the [Map] of the audio loop
      is a finite map keyed by strings.
    - Calls that leave the component (listener invocations, console output,
      audio triggers) are recorded in an explicit trace. *)

From Stdlib Require Import ZArith QArith Qminmax Lqa Lia Bool Ascii Sorted.
From Stdlib Require Import PrimFloat.
From stdpp Require Import gmap strings list fin_maps pretty.

Close Scope Q_scope.
Open Scope Z_scope.

(** ** JavaScript numbers as rationals *)

Module JS.

(** [a < b] on numbers, as a boolean. *)
Definition ltb (a b : Q) : bool := negb (Qle_bool b a).

(** [a <= b] and [a >= b]. *)
Definition leb (a b : Q) : bool := Qle_bool a b.
Definition geb (a b : Q) : bool := Qle_bool b a.

(** [Math.max] and [Math.min]. *)
Definition max (a b : Q) : Q := Qmax a b.
Definition min (a b : Q) : Q := Qmin a b.

End JS.

(** ** JavaScript numbers as binary64 floats *)

Module Double.

(** The comparisons of IEEE 754, which are those of [<], [<=], [>=], [>]
    and [==] on numbers: none of them holds when an operand is [NaN]. *)
Definition lt (a b : float) : bool :=
  match PrimFloat.compare a b with FLt => true | _ => false end.

Definition le (a b : float) : bool :=
  match PrimFloat.compare a b with FLt | FEq => true | _ => false end.

Definition gt (a b : float) : bool := lt b a.

Definition ge (a b : float) : bool := le b a.

Definition eq (a b : float) : bool :=
  match PrimFloat.compare a b with FEq => true | _ => false end.

(** [Math.max] of two numbers: [NaN] if one of them is, and [+0] rather
    than [-0]. *)
Definition max (a b : float) : float :=
  if PrimFloat.is_nan a || PrimFloat.is_nan b then PrimFloat.nan
  else if lt a b then b
  else if lt b a then a
  else if PrimFloat.is_zero a then (a + b)%float
  else a.

(** [Math.abs] *)
Definition abs (a : float) : float := PrimFloat.abs a.

End Double.

(** ** tank-beam.js: the collision poll *)

Module TankBeam.

(** What [getBoundingClientRect] returns, restricted to the vertical axis:
    the [y] and the [height] the box is made of.  [top] is [y] for a box of
    non-negative height, as layout boxes are, and [bottom] is computed from
    the two when it is read: [max(y, y + height)]. *)
Record DOMRect := { top : float; height : float }.

Definition bottom (r : DOMRect) : float :=
  Double.max (top r) (top r + height r)%float.

(** A detectable element: its live box, its class list, and the inline
    opacity of its [.membrane-organism] child when it has one. *)
Record target := {
  rect : DOMRect;
  classList : gset string;
  organism : option string
}.

(** The beam module's own elements and flags. *)
Record beam := {
  isPaused : bool;
  body : option DOMRect;
  glow : gset string;
  hotspot : gset string
}.

(** The [window] values the poll reads. *)
Record window := { scrollY : float; innerHeight : float }.

Definition set_organism (o : option string) (v : string) : option string :=
  match o with
  | Some _ => Some v
  | None => None
  end.

(** Loop-carried values of [targets.forEach]: the two shared class lists
    and the [hitSomething] flag. *)
Record acc := { a_glow : gset string; a_hotspot : gset string; hit : bool }.

(** The coarse prune at the head of the loop body. *)
Definition pruned (w : window) (buffer : float) (t : target) : bool :=
  let viewportTop := (scrollY w - buffer)%float in
  let viewportBottom := (scrollY w + innerHeight w + buffer)%float in
  let elementTop := (top (rect t) + scrollY w)%float in
  Double.lt elementTop viewportTop || Double.gt elementTop viewportBottom.

Definition targetY (t : target) : float :=
  (top (rect t) + height (rect t) / 2)%float.

Definition distance (beamY : float) (t : target) : float :=
  Double.abs (beamY - targetY t)%float.

Definition isInBounds (beamY : float) (t : target) : bool :=
  let minHeight := 40%float in
  let effectiveHeight := Double.max (height (rect t)) minHeight in
  let padding := ((effectiveHeight - height (rect t)) / 2)%float in
  let topBound := (top (rect t) - padding)%float in
  let bottomBound := (bottom (rect t) + padding)%float in
  Double.ge beamY topBound && Double.le beamY bottomBound.

(** The body of [targets.forEach(target => ...)]. *)
Definition check_target (w : window) (buffer beamY : float) (a : acc)
    (t : target)
  : acc * target :=
  if pruned w buffer t then (a, t)
  else
    if isInBounds beamY t && Double.lt (distance beamY t) 60 then
      let a1 := {| a_glow := {["approaching"]} ∪ a_glow a;
                   a_hotspot := a_hotspot a; hit := hit a |} in
      let cl1 := {["beam-approaching"]} ∪ classList t in
      if Double.lt (distance beamY t)
           (Double.max 20 (height (rect t) / 2)) then
        ({| a_glow := a_glow a1;
            a_hotspot := {["active"]} ∪ a_hotspot a1; hit := true |},
         {| rect := rect t;
            classList := {["beam-contact"]} ∪ cl1;
            organism := set_organism (organism t) "1" |})
      else
        (a1,
         {| rect := rect t;
            classList := cl1 ∖ {["beam-contact"]};
            organism := set_organism (organism t) "0.3" |})
    else
      (a,
       {| rect := rect t;
          classList := classList t ∖ {["beam-contact"; "beam-approaching"]};
          organism := set_organism (organism t) "0" |}).

(** [targets.forEach], threading the loop-carried values. *)
Fixpoint forEach (w : window) (buffer beamY : float) (a : acc)
    (ts : list target)
  : acc * list target :=
  match ts with
  | [] => (a, [])
  | t :: ts' =>
      let '(a1, t1) := check_target w buffer beamY a t in
      let '(a2, ts2) := forEach w buffer beamY a1 ts' in
      (a2, t1 :: ts2)
  end.

(** The scan coordinate of a poll. *)
Definition scanY (beamRect : DOMRect) : float :=
  (top beamRect + height beamRect / 2)%float.

(** The widening of the viewport used by the prune. *)
Definition buffer (isMobile : bool) : float :=
  if isMobile then 100%float else 200%float.

(** One run of the interval callback.  [isMobile] is fixed when the
    interval is installed ([window.innerWidth < 768]). *)
Definition poll (isMobile : bool) (w : window) (b : beam) (ts : list target)
  : beam * list target :=
  if isPaused b then (b, ts)
  else
    match body b with
    | None => (b, ts)
    | Some beamRect =>
        let beamY := scanY beamRect in
        let '(a, ts') :=
          forEach w (buffer isMobile) beamY
            {| a_glow := glow b; a_hotspot := hotspot b; hit := false |} ts in
        if hit a then
          ({| isPaused := isPaused b; body := body b;
              glow := a_glow a; hotspot := a_hotspot a |}, ts')
        else
          ({| isPaused := isPaused b; body := body b;
              glow := a_glow a ∖ {["approaching"]};
              hotspot := a_hotspot a ∖ {["active"]} |}, ts')
    end.

(** How a region reads after a poll. *)
Inductive classification := Contact | Approaching | Idle.

Definition classify (t : target) : classification :=
  if decide ("beam-contact" ∈ classList t) then Contact
  else if decide ("beam-approaching" ∈ classList t) then Approaching
  else Idle.

Definition in_contact (t : target) : bool :=
  bool_decide ("beam-contact" ∈ classList t).

(** *** Inputs of the examples *)

(** A desktop window, a beam whose centre is at [y], and a region without
    classes: the inputs of the examples below. *)
Definition desktop : window := {| scrollY := 0; innerHeight := 800 |}.

Definition beam_rect (y : float) : DOMRect := {| top := y - 1; height := 2 |}.

Definition beam_at (y : float) : beam :=
  {| isPaused := false; body := Some (beam_rect y);
     glow := ∅; hotspot := ∅ |}.

Definition region (top height : float) : target :=
  {| rect := {| top := top; height := height |};
     classList := ∅; organism := None |}.

(** [startCollisionDetection] decides once, from [window.innerWidth], whether
    the window is a mobile one, and with it the polling period. *)
Definition mobile_width (innerWidth : Z) : bool := innerWidth <? 768.

Definition checkInterval (isMobile : bool) : Z := if isMobile then 50 else 25.

(** *** Vocabulary for the loop body *)

(** The outer test of the loop body, and the inner one under it. *)
Definition near (beamY : float) (t : target) : bool :=
  isInBounds beamY t && Double.lt (distance beamY t) 60.

Definition touching (beamY : float) (t : target) : bool :=
  near beamY t
  && Double.lt (distance beamY t) (Double.max 20 (height (rect t) / 2)).

(** The opacity the loop body gives the organism of an examined target. *)
Definition opacity (beamY : float) (t : target) : string :=
  if touching beamY t then "1" else if near beamY t then "0.3" else "0".

End TankBeam.

(** ** tank-decay.js: the lifecycle controller *)

Module TankDecay.

(** A JavaScript number as [progress] can hold it: a rational, or [NaN]
    (what [Date.now() - undefined] evaluates to). *)
Inductive number := Num (q : Q) | NaN.

(** [Math.min(x, 1.0)] and [x >= 1.0]; [NaN] propagates through the first
    and fails the second. *)
Definition min_one (x : number) : number :=
  match x with
  | Num q => Num (JS.min q 1)
  | NaN => NaN
  end.

Definition ge_one (x : number) : bool :=
  match x with
  | Num q => JS.geb q 1
  | NaN => false
  end.

(** [a / b] for an integer number of milliseconds [a]. *)
Definition ratio (a : Z) (b : Z) : Q := (inject_Z a / inject_Z b)%Q.

(** How a call to a listener completes. *)
Inductive outcome := Returns | Throws (error : string).

(** A subscriber: an opaque callback, identified by [l_id] in the trace.  It
    sees the stage and progress it is passed, and returns or throws; it does
    not call back into the controller. *)
Record listener := { l_id : nat; l_run : string -> number -> outcome }.

(** The values [subscribe] can receive. *)
Inductive value :=
| VUndefined
| VNull
| VBoolean (b : bool)
| VNumber (n : number)
| VString (s : string)
| VObject
| VFunction (f : listener).

Definition typeof (v : value) : string :=
  match v with
  | VUndefined => "undefined"
  | VNull => "object"
  | VBoolean _ => "boolean"
  | VNumber _ => "number"
  | VString _ => "string"
  | VObject => "object"
  | VFunction _ => "function"
  end.

(** The static table of tank-config.js, as far as the controller reads it. *)
Record config := { timings_preservation : positive; timings_flicker : positive }.

Definition TANK_CONFIG : config :=
  {| timings_preservation := 300000; timings_flicker := 10000 |}.

(** The two callbacks the controller hands to [setInterval]. *)
Inductive task := UpdateTask | FlickerTask.

(** What leaves the controller. *)
Inductive event :=
| Called (id : nat) (stage : string) (progress : number)
| ConsoleError (message : string) (detail : option string)
| ConsoleLog (message : string).

(** The fields of the [tankDecay] object.  [flickerStartTime] does not exist
    before the first flicker. *)
Record tankDecay := {
  stage : string;
  progress : number;
  lastInteraction : option Z;
  timer : option positive;
  listeners : list listener;
  flickerTimer : option positive;
  isFlickering : bool;
  flickerStartTime : option Z
}.

(** The object literal as loaded. *)
Definition initial : tankDecay :=
  {| stage := "preservation"; progress := Num 0; lastInteraction := None;
     timer := None; listeners := []; flickerTimer := None;
     isFlickering := false; flickerStartTime := None |}.

(** The browser side: live intervals (handle to callback and period), the
    next handle [setInterval] will return, and the trace. *)
Record world := {
  intervals : gmap positive (task * Z);
  nextHandle : positive;
  trace : list event
}.

Definition fresh_world : world :=
  {| intervals := ∅; nextHandle := 1%positive; trace := [] |}.

Definition st : Type := tankDecay * world.

(** *** A state monad with exceptions *)

Inductive completion (A : Type) := Normal (a : A) | Throw (error : string).
Arguments Normal {A} a.
Arguments Throw {A} error.

Definition M (A : Type) : Type := st -> completion A * st.

Definition ret {A} (a : A) : M A := fun s => (Normal a, s).

Definition bind {A B} (m : M A) (k : A -> M B) : M B :=
  fun s =>
    match m s with
    | (Normal a, s1) => k a s1
    | (Throw e, s1) => (Throw e, s1)
    end.

Definition throw {A} (e : string) : M A := fun s => (Throw e, s).

Definition try_catch {A} (m : M A) (handler : string -> M A) : M A :=
  fun s =>
    match m s with
    | (Normal a, s1) => (Normal a, s1)
    | (Throw e, s1) => handler e s1
    end.

Definition this : M tankDecay := fun s => (Normal (fst s), s).

Definition assign (f : tankDecay -> tankDecay) : M unit :=
  fun s => (Normal tt, (f (fst s), snd s)).

Definition emit (e : event) : M unit :=
  fun s =>
    (Normal tt,
     (fst s,
      {| intervals := intervals (snd s); nextHandle := nextHandle (snd s);
         trace := trace (snd s) ++ [e] |})).

Definition setInterval (t : task) (period : Z) : M positive :=
  fun s =>
    let h := nextHandle (snd s) in
    (Normal h,
     (fst s,
      {| intervals := <[h := (t, period)]> (intervals (snd s));
         nextHandle := Pos.succ h;
         trace := trace (snd s) |})).

Definition clearInterval (h : positive) : M unit :=
  fun s =>
    (Normal tt,
     (fst s,
      {| intervals := delete h (intervals (snd s));
         nextHandle := nextHandle (snd s);
         trace := trace (snd s) |})).

Notation "x <- m ;; k" := (bind m (fun x => k))
  (at level 63, m at next level, right associativity).
Notation "m ;;; k" := (bind m (fun _ => k))
  (at level 63, right associativity).

(** [Array.prototype.forEach]: an exception from the callback ends the
    loop and propagates. *)
Fixpoint forEach {A} (f : A -> M unit) (l : list A) : M unit :=
  match l with
  | [] => ret tt
  | x :: l' => f x ;;; forEach f l'
  end.

(** Field updates. *)
Definition set_stage v (d : tankDecay) : tankDecay :=
  {| stage := v; progress := progress d; lastInteraction := lastInteraction d;
     timer := timer d; listeners := listeners d; flickerTimer := flickerTimer d;
     isFlickering := isFlickering d; flickerStartTime := flickerStartTime d |}.
Definition set_progress v (d : tankDecay) : tankDecay :=
  {| stage := stage d; progress := v; lastInteraction := lastInteraction d;
     timer := timer d; listeners := listeners d; flickerTimer := flickerTimer d;
     isFlickering := isFlickering d; flickerStartTime := flickerStartTime d |}.
Definition set_lastInteraction v (d : tankDecay) : tankDecay :=
  {| stage := stage d; progress := progress d; lastInteraction := v;
     timer := timer d; listeners := listeners d; flickerTimer := flickerTimer d;
     isFlickering := isFlickering d; flickerStartTime := flickerStartTime d |}.
Definition set_timer v (d : tankDecay) : tankDecay :=
  {| stage := stage d; progress := progress d; lastInteraction := lastInteraction d;
     timer := v; listeners := listeners d; flickerTimer := flickerTimer d;
     isFlickering := isFlickering d; flickerStartTime := flickerStartTime d |}.
Definition set_listeners v (d : tankDecay) : tankDecay :=
  {| stage := stage d; progress := progress d; lastInteraction := lastInteraction d;
     timer := timer d; listeners := v; flickerTimer := flickerTimer d;
     isFlickering := isFlickering d; flickerStartTime := flickerStartTime d |}.
Definition set_flickerTimer v (d : tankDecay) : tankDecay :=
  {| stage := stage d; progress := progress d; lastInteraction := lastInteraction d;
     timer := timer d; listeners := listeners d; flickerTimer := v;
     isFlickering := isFlickering d; flickerStartTime := flickerStartTime d |}.
Definition set_isFlickering v (d : tankDecay) : tankDecay :=
  {| stage := stage d; progress := progress d; lastInteraction := lastInteraction d;
     timer := timer d; listeners := listeners d; flickerTimer := flickerTimer d;
     isFlickering := v; flickerStartTime := flickerStartTime d |}.
Definition set_flickerStartTime v (d : tankDecay) : tankDecay :=
  {| stage := stage d; progress := progress d; lastInteraction := lastInteraction d;
     timer := timer d; listeners := listeners d; flickerTimer := flickerTimer d;
     isFlickering := isFlickering d; flickerStartTime := v |}.

(** *** The methods *)

(** [callback(this.stage, this.progress)]: the arguments are read from the
    object at the moment of the call. *)
Definition call (callback : listener) : M unit :=
  d <- this ;;
  emit (Called (l_id callback) (stage d) (progress d)) ;;;
  match l_run callback (stage d) (progress d) with
  | Returns => ret tt
  | Throws e => throw e
  end.

Definition notify : M unit :=
  d <- this ;;
  forEach
    (fun callback =>
       try_catch (call callback)
         (fun error => emit (ConsoleError "❌ Listener error:" (Some error))))
    (listeners d).

Definition subscribe (callback : value) : M unit :=
  match callback with
  | VFunction f =>
      d <- this ;;
      assign (set_listeners (listeners d ++ [f]))
  | _ => emit (ConsoleError "❌ Subscribe requires a function callback" None)
  end.

Definition triggerFlicker (now : Z) : M unit :=
  d <- this ;;
  if isFlickering d then ret tt
  else
    assign (set_isFlickering true) ;;;
    assign (set_flickerStartTime (Some now)) ;;;
    assign (set_stage "flicker") ;;;
    assign (set_progress (Num 0)) ;;;
    notify ;;;
    emit (ConsoleLog "⚡ Tank flicker event").

Definition startFlickerCycle (cfg : config) : M unit :=
  let flickerInterval := Z.pos (timings_flicker cfg) in
  h <- setInterval FlickerTask flickerInterval ;;
  assign (set_flickerTimer (Some h)).

Definition start (cfg : config) (now : Z) : M unit :=
  assign (set_stage "preservation") ;;;
  assign (set_lastInteraction (Some now)) ;;;
  assign (set_isFlickering false) ;;;
  h <- setInterval UpdateTask 100 ;;
  assign (set_timer (Some h)) ;;;
  startFlickerCycle cfg ;;;
  notify ;;;
  emit (ConsoleLog "🔋 Tank preservation system started").

Definition reset (now : Z) : M unit :=
  assign (set_lastInteraction (Some now)) ;;;
  d <- this ;;
  if isFlickering d then
    assign (set_isFlickering false) ;;;
    assign (set_stage "preservation") ;;;
    assign (set_progress (Num 0)) ;;;
    notify
  else ret tt.

(** [Date.now() - this.lastInteraction]; [null] counts as 0. *)
Definition since (now : Z) (t : option Z) : Z :=
  match t with
  | Some t0 => now - t0
  | None => now - 0
  end.

(** [update] reads the clock on entry ([now]) and once more on the branch
    it takes ([now']). *)
Definition update (cfg : config) (now now' : Z) : M unit :=
  d <- this ;;
  let elapsed := since now (lastInteraction d) in
  if isFlickering d then
    let flickerElapsed :=
      match flickerStartTime d with
      | Some t0 => Num (ratio (now' - t0) 1000)
      | None => NaN
      end in
    assign (set_progress (min_one flickerElapsed)) ;;;
    d1 <- this ;;
    (if ge_one (progress d1) then
       assign (set_isFlickering false) ;;;
       assign (set_stage "preservation") ;;;
       assign (set_progress (Num 0))
     else ret tt) ;;;
    notify
  else
    assign (set_stage "preservation") ;;;
    let preservationDuration := Z.pos (timings_preservation cfg) in
    assign (set_progress (min_one (Num (ratio elapsed preservationDuration)))) ;;;
    d1 <- this ;;
    (if ge_one (progress d1) then
       assign (set_lastInteraction (Some now')) ;;;
       assign (set_progress (Num 0))
     else ret tt) ;;;
    notify.

Definition setStage (s : string) (p : number) : M unit :=
  assign (set_stage s) ;;;
  assign (set_progress p) ;;;
  notify.

Definition forceFlicker (now : Z) : M unit := triggerFlicker now.

Definition pause : M unit :=
  d <- this ;;
  match timer d with
  | Some h => clearInterval h ;;; assign (set_timer None)
  | None => ret tt
  end ;;;
  d1 <- this ;;
  match flickerTimer d1 with
  | Some h => clearInterval h ;;; assign (set_flickerTimer None)
  | None => ret tt
  end ;;;
  emit (ConsoleLog "⏸️ Tank preservation paused").

Definition resume (cfg : config) : M unit :=
  d <- this ;;
  match timer d with
  | None => h <- setInterval UpdateTask 100 ;; assign (set_timer (Some h))
  | Some _ => ret tt
  end ;;;
  d1 <- this ;;
  match flickerTimer d1 with
  | None => startFlickerCycle cfg
  | Some _ => ret tt
  end ;;;
  emit (ConsoleLog "▶️ Tank preservation resumed").

Definition destroy : M unit :=
  d <- this ;;
  match timer d with
  | Some h => clearInterval h ;;; assign (set_timer None)
  | None => ret tt
  end ;;;
  d1 <- this ;;
  match flickerTimer d1 with
  | Some h => clearInterval h ;;; assign (set_flickerTimer None)
  | None => ret tt
  end ;;;
  assign (set_listeners []) ;;;
  assign (set_stage "preservation") ;;;
  assign (set_isFlickering false) ;;;
  emit (ConsoleLog "🔌 Tank preservation system shutdown").

(** *** Driving the controller *)

(** A call into the object, with the clock readings it makes. *)
Inductive op :=
| Start (now : Z)
| Reset (now : Z)
| Update (now now' : Z)
| TriggerFlicker (now : Z)
| ForceFlicker (now : Z)
| Subscribe (v : value)
| SetStage (s : string) (p : number)
| Pause
| Resume
| Destroy.

Definition exec (cfg : config) (o : op) : M unit :=
  match o with
  | Start now => start cfg now
  | Reset now => reset now
  | Update now now' => update cfg now now'
  | TriggerFlicker now => triggerFlicker now
  | ForceFlicker now => forceFlicker now
  | Subscribe v => subscribe v
  | SetStage s p => setStage s p
  | Pause => pause
  | Resume => resume cfg
  | Destroy => destroy
  end.

Definition run (cfg : config) (os : list op) : M unit := forEach (exec cfg) os.

(** The listener calls recorded in a trace, in order. *)
Definition notifications (tr : list event) : list (nat * string * number) :=
  omap (fun e => match e with
                 | Called i s p => Some (i, s, p)
                 | _ => None
                 end) tr.

(** *** Specification vocabulary and inputs of the examples *)

(** The world with [es] appended to its trace. *)
Definition logged (w : world) (es : list event) : world :=
  {| intervals := intervals w; nextHandle := nextHandle w;
     trace := trace w ++ es |}.

(** What one listener adds to the trace during a notification pass. *)
Definition delivery (d : tankDecay) (cb : listener) : list event :=
  Called (l_id cb) (stage d) (progress d)
  :: match l_run cb (stage d) (progress d) with
     | Returns => []
     | Throws e => [ConsoleError "❌ Listener error:" (Some e)]
     end.

(** A listener that returns, and one that throws. *)
Definition quiet (i : nat) : listener :=
  {| l_id := i; l_run := fun _ _ => Returns |}.

Definition faulty (i : nat) : listener :=
  {| l_id := i; l_run := fun _ _ => Throws "boom" |}.

(** The steady state with baseline [t0], and the flicker state entered at
    [t1], both with a faulty listener registered before a quiet one. *)
Definition steady_since (t0 : Z) : tankDecay :=
  {| stage := "preservation"; progress := Num 0; lastInteraction := Some t0;
     timer := Some 1%positive; listeners := [faulty 1; quiet 2];
     flickerTimer := Some 2%positive;
     isFlickering := false; flickerStartTime := None |}.

Definition flickering_since (t0 t1 : Z) : tankDecay :=
  {| stage := "flicker"; progress := Num 0; lastInteraction := Some t0;
     timer := Some 1%positive; listeners := [faulty 1; quiet 2];
     flickerTimer := Some 2%positive;
     isFlickering := true; flickerStartTime := Some t1 |}.

(** The browser side once [start] has installed the two intervals. *)
Definition running_world : world :=
  {| intervals := {[ 1%positive := (UpdateTask, 100);
                     2%positive := (FlickerTask, 10000) ]};
     nextHandle := 3%positive; trace := [] |}.

(** The ten heartbeats that follow a flicker forced 50 ms after start. *)
Definition beats : list op :=
  map (fun k => let t := 100 * Z.of_nat k in Update t t) (seq 1 10).

(** Apart from the debugging override [setStage], the calls keep the flag
    [isFlickering] and the stage in step, and a flicker has its entry time. *)
Definition coherent (d : tankDecay) : Prop :=
  (isFlickering d = true ->
   stage d = "flicker" /\ is_Some (flickerStartTime d))
  /\ (isFlickering d = false -> stage d = "preservation").

Definition plain (o : op) : Prop :=
  match o with
  | SetStage _ _ => False
  | _ => True
  end.

(** The functions among the values handed to [subscribe], in order. *)
Definition functions (vs : list value) : list listener :=
  omap (fun v => match v with VFunction f => Some f | _ => None end) vs.

(** The errors in a trace. *)
Definition errors (tr : list event) : list string :=
  omap (fun e => match e with ConsoleError m _ => Some m | _ => None end) tr.

(** A call that registers a listener. *)
Definition registers (o : op) : Prop :=
  match o with
  | Subscribe (VFunction _) => True
  | _ => False
  end.

End TankDecay.

(** ** JavaScript strings *)

Module JSString.

(** A string is a sequence of UTF-16 code units: [length], indices and
    [substring] count code units, not characters and not bytes. *)
Definition t : Type := list N.

#[global] Instance t_eq_dec : EqDecision t.
Proof. unfold t. apply _. Defined.

#[global] Instance t_countable : Countable t.
Proof. unfold t. apply _. Defined.

(** The string written with the ASCII characters of [s]; each of them is one
    code unit. *)
Definition of_ascii (s : string) : t :=
  map N_of_ascii (String.list_ascii_of_string s).

(** [s.substring(start, end)]: the code units from the smaller to the larger
    of the two indices, as far as the string goes. *)
Definition substring (indexStart indexEnd : nat) (s : t) : t :=
  let lo := Nat.min indexStart indexEnd in
  let hi := Nat.max indexStart indexEnd in
  take (hi - lo) (drop lo s).

End JSString.

(** ** tank-audio.js: beam contact sounds with a per-label cooldown *)

Module TankAudio.

(** The vertical extent [getBoundingClientRect] reports. *)
Record DOMRect := { top : Q; bottom : Q }.

Record element := {
  className : JSString.t;
  textContent : JSString.t;
  rect : DOMRect
}.

(** The de-duplication key: [el.className + el.textContent.substring(0, 10)]. *)
Definition elementId (el : element) : JSString.t :=
  className el ++ JSString.substring 0 10 (textContent el).

(** The calls made on the audio object.  [Impact] is [triggerUIContact()]
    from the title loop and [Fizz] is [triggerBeamFizz()] from the popup text
    loop; both carry, for the record, the key and the clock reading under
    which they fired. *)
Inductive sound :=
| BeamSweep (beamY : Q)
| ToggleContact
| Impact (id : JSString.t) (now : Z)
| Fizz (id : JSString.t) (now : Z).

(** The variables closed over by the interval callback, and the calls made
    so far. *)
Record state := {
  lastUIContact : option string;
  lastTextContact : gmap JSString.t Z;
  toggleClasses : gset string;
  played : list sound
}.

Definition init : state :=
  {| lastUIContact := None; lastTextContact := ∅;
     toggleClasses := ∅; played := [] |}.

(** What one run of the callback finds in the document.  Every listed
    element comes with the value [Date.now()] has when the loop reaches it. *)
Record snapshot := {
  beam : option (Q * Q);                (* top and height of [#beamBody] *)
  audioToggle : option DOMRect;
  impactElements : list (element * Z);
  fizzElements : list (element * Z)
}.

Definition inside (beamY : Q) (r : DOMRect) : bool :=
  JS.geb beamY (top r) && JS.leb beamY (bottom r).

(** [lastTextContact.get(elementId) || 0] *)
Definition lastTime (m : gmap JSString.t Z) (id : JSString.t) : Z :=
  match m !! id with
  | Some t => if Z.eqb t 0 then 0 else t
  | None => 0
  end.

(** The body shared by the two [forEach] loops; [mk] is the sound of the
    loop. *)
Definition contact (mk : JSString.t -> Z -> sound) (beamY : Q)
    (s : state) (visit : element * Z) : state :=
  let '(el, now) := visit in
  if inside beamY (rect el) then
    let id := elementId el in
    if 1000 <? now - lastTime (lastTextContact s) id then
      {| lastUIContact := lastUIContact s;
         lastTextContact := <[id := now]> (lastTextContact s);
         toggleClasses := toggleClasses s;
         played := played s ++ [mk id now] |}
    else s
  else s.

Definition toggle (beamY : Q) (s : state) (r : DOMRect) : state :=
  if inside beamY r then
    let cls := {["beam-contact"]} ∪ toggleClasses s in
    if decide (lastUIContact s = Some "audio-toggle") then
      {| lastUIContact := lastUIContact s;
         lastTextContact := lastTextContact s;
         toggleClasses := cls; played := played s |}
    else
      {| lastUIContact := Some "audio-toggle";
         lastTextContact := lastTextContact s;
         toggleClasses := cls; played := played s ++ [ToggleContact] |}
  else
    let cls := toggleClasses s ∖ {["beam-contact"]} in
    {| lastUIContact :=
         if decide (lastUIContact s = Some "audio-toggle") then None
         else lastUIContact s;
       lastTextContact := lastTextContact s;
       toggleClasses := cls; played := played s |}.

(** One run of the 25 ms interval callback. *)
Definition tick (s : state) (d : snapshot) : state :=
  match beam d with
  | None => s
  | Some (beamTop, beamHeight) =>
      let beamY := (beamTop + beamHeight / 2)%Q in
      let s1 := {| lastUIContact := lastUIContact s;
                   lastTextContact := lastTextContact s;
                   toggleClasses := toggleClasses s;
                   played := played s ++ [BeamSweep beamY] |} in
      let s2 := match audioToggle d with
                | Some r => toggle beamY s1 r
                | None => s1
                end in
      let s3 := fold_left (contact Impact beamY) (impactElements d) s2 in
      fold_left (contact Fizz beamY) (fizzElements d) s3
  end.

Definition run (ds : list snapshot) : state := fold_left tick ds init.

(** The discrete trigger events fired under key [id], as the clock readings
    at which they fired, in firing order. *)
Definition fired (id : JSString.t) (l : list sound) : list Z :=
  omap (fun e => match e with
                 | Impact i t | Fizz i t =>
                     if decide (i = id) then Some t else None
                 | _ => None
                 end) l.

(** The discrete trigger events of the two loops, under whatever key, as
    the clock readings at which they fired. *)
Definition triggers (l : list sound) : list Z :=
  omap (fun e => match e with
                 | Impact _ t | Fizz _ t => Some t
                 | _ => None
                 end) l.

(** Every trigger event in [l] was fired under key [id]. *)
Definition keyed (id : JSString.t) (l : list sound) : Prop :=
  Forall (fun e => match e with
                   | Impact i _ | Fizz i _ => i = id
                   | _ => True
                   end) l.

(** The cooldown window, in milliseconds. *)
Definition cooldown : Z := 1000.

(** A region held under the beam: [n] polls, 25 ms apart from [t0], each
    finding the same title element in contact. *)
Definition held (el : element) (t0 : Z) (n : nat) : list snapshot :=
  map (fun k =>
         {| beam := Some (inject_Z 0, inject_Z 0);
            audioToggle := None;
            impactElements := [(el, t0 + 25 * Z.of_nat k)];
            fizzElements := [] |})
      (seq 0 n).

(** *** Specification vocabulary and inputs of the examples *)

(** Firing times that respect the cooldown: each one is more than
    [cooldown] after every earlier one. *)
Definition apart (a b : Z) : Prop := a + cooldown < b.

(** The invariant of the loop: under every key, the firings so far are
    apart, and none is later than the time the map holds for the key. *)
Definition inv (s : state) : Prop :=
  forall id,
    StronglySorted apart (fired id (played s))
    /\ Forall (fun t => t <= lastTime (lastTextContact s) id)
         (fired id (played s)).

(** The title, held under the beam. *)
Definition title : element :=
  {| className := JSString.of_ascii "archive-title";
     textContent := JSString.of_ascii "LOOKAWAY ARCHIVE";
     rect := {| top := -10; bottom := 10 |} |}.

(** How often the toggle sound was played. *)
Definition toggles (l : list sound) : nat :=
  length (omap (fun e => match e with ToggleContact => Some tt | _ => None end) l).

(** The clock readings of one run of the callback. *)
Definition readings (d : snapshot) : list Z :=
  map snd (impactElements d ++ fizzElements d).

(** The scan coordinate of a snapshot that has a beam. *)
Definition beamY (d : snapshot) : option Q :=
  match beam d with
  | Some (beamTop, beamHeight) => Some (beamTop + beamHeight / 2)%Q
  | None => None
  end.

(** The beam is on the audio toggle in this snapshot. *)
Definition on_toggle (d : snapshot) : bool :=
  match beamY d, audioToggle d with
  | Some y, Some r => inside y r
  | _, _ => false
  end.

(** A quiet second poll: the toggle where the title was. *)
Definition toggle_rect : DOMRect := {| top := -10; bottom := 10 |}.

Definition toggle_at (y : Q) : snapshot :=
  {| beam := Some (y, 0%Q); audioToggle := Some toggle_rect;
     impactElements := []; fizzElements := [] |}.

(** Two subtitles that differ after their tenth character. *)
Definition subtitle (text : string) : element :=
  {| className := JSString.of_ascii "archive-subtitle";
     textContent := JSString.of_ascii text;
     rect := {| top := -10; bottom := 10 |} |}.

Definition two_subtitles (now : Z) : snapshot :=
  {| beam := Some (0%Q, 0%Q); audioToggle := None;
     impactElements := [ (subtitle "Specimens of the north wing", now);
                         (subtitle "Specimens of the south wing", now + 1) ];
     fizzElements := [] |}.

(** The visits of a snapshot that can fire under key [id]: those whose
    element has the key and lies under the beam. *)
Definition visit_of (id : JSString.t) (d : snapshot) (t : Z) : Prop :=
  exists y el,
    beamY d = Some y
    /\ (el, t) ∈ impactElements d ++ fizzElements d
    /\ elementId el = id
    /\ inside y (rect el) = true.

(** The map never runs ahead of the sounds: the time it holds for a key is a
    firing under that key, if it holds one at all. *)
Definition inv_last (s : state) : Prop :=
  forall id,
    lastTime (lastTextContact s) id = 0
    \/ lastTime (lastTextContact s) id ∈ fired id (played s).

End TankAudio.

(** ** One element under both detectors *)

(** The collision poll of tank-beam.js and the contact loop of tank-audio.js
    look at the same titles and texts: the poll writes its classes into the
    [class] attribute the loop builds its key from. *)
Module Sweep.

(** The [class] attribute of an element written with the classes [base],
    whose beam classes come from the collision poll alone.  The poll adds
    [beam-approaching] before [beam-contact] and never removes the first
    without the second, so the two stand in this order behind [base]. *)
Definition className (base : string) (t : TankBeam.target) : JSString.t :=
  JSString.of_ascii
    (base
     +:+ (if decide ("beam-approaching" ∈ TankBeam.classList t)
          then " beam-approaching" else EmptyString)
     +:+ (if decide ("beam-contact" ∈ TankBeam.classList t)
          then " beam-contact" else EmptyString)).

(** The number [k] as a float; exact for the small numbers used here. *)
Fixpoint steps (k : nat) : float :=
  match k with
  | O => 0%float
  | S k' => (steps k' + 1)%float
  end.

(** The element as the poll keeps it, and the audio loop's variables. *)
Record both := { seen : TankBeam.target; heard : TankAudio.state }.

(** A title 120 px high with its top edge at 100 px, and the beam coming
    down over it, 1 px per poll, from the top edge (poll 0) to the bottom
    edge (poll 120); the polls are 25 ms apart from [t0]. *)
Definition title_box : TankAudio.DOMRect :=
  {| TankAudio.top := 100; TankAudio.bottom := 220 |}.

Definition start : both :=
  {| seen := TankBeam.region 100 120; heard := TankAudio.init |}.

(** Poll [k]: the collision poll runs, then the audio loop, which finds the
    title with the class attribute the poll has left. *)
Definition step (t0 : Z) (st : both) (k : nat) : both :=
  let seen' :=
    match (TankBeam.poll false TankBeam.desktop
             (TankBeam.beam_at (100 + steps k)) [seen st]).2 with
    | t' :: _ => t'
    | [] => seen st
    end in
  let el := {| TankAudio.className := className "archive-title" seen';
               TankAudio.textContent := JSString.of_ascii "LOOKAWAY ARCHIVE";
               TankAudio.rect := title_box |} in
  {| seen := seen';
     heard :=
       TankAudio.tick (heard st)
         {| TankAudio.beam := Some (inject_Z (99 + Z.of_nat k), 2%Q);
            TankAudio.audioToggle := None;
            TankAudio.impactElements := [(el, t0 + 25 * Z.of_nat k)];
            TankAudio.fizzElements := [] |} |}.

Definition sweep (t0 : Z) (n : nat) : both :=
  fold_left (step t0) (seq 0 n) start.

(** The beam is on the title, as the audio loop tests it, at poll [k]. *)
Definition on_title (k : nat) : bool :=
  TankAudio.inside (inject_Z (99 + Z.of_nat k) + 2 / 2)%Q title_box.

End Sweep.

(** ** tank-specimens.js: the specimen registry *)

Module Specimens.

Record rgb := { r : Z; g : Z; b : Z }.

Record behaviour := {
  idleAnimation : string;
  animationSpeed : Z;
  hoverEffect : string;
  hoverIntensity : Q;
  beamReaction : string
}.

Record preview_t := { shape : string; intensity : Q; pulse : bool }.

Record meta := {
  author : string;
  season : string;
  episode : string;
  version : string
}.

(** A registry entry.  [None] stands for [null], and for the [behaviors]
    field that vacant entries do not have. *)
Record specimen := {
  id : Z;
  code : string;
  status : string;
  deployed : option string;
  classification : option string;
  description : option string;
  warning : option string;
  password : option string;
  color : rgb;
  behaviors : option behaviour;
  url : option string;
  preview : option preview_t;
  metadata : option meta
}.

(** The entries produced by [Array(10).fill(null).map((_, i) => ...)]. *)
Definition vacant (i : nat) (first : Z) : specimen :=
  {| id := Z.of_nat i + first;
     code := "[EMPTY]";
     status := "vacant";
     deployed := None;
     classification := None;
     description := None;
     warning := None;
     password := None;
     color := {| r := 80; g := 80; b := 80 |};
     behaviors := None;
     url := None;
     preview := None;
     metadata := None |}.

Definition slot1 : specimen :=
  {| id := 1;
     code := "LEAK-WORM-847T";
     status := "contained";
     deployed := Some "October 2025";
     classification := Some "Interactive Narrative";
     description := Some "Explores quantum measurement paradox through Tl√∂nian archaeological documentation. The organism exhibits temporal decay behaviors and responds to active observation. Contains Fragment 847-T from the Third Bureau of Reality Cartography.";
     warning := Some "Specimen requires active observation to maintain stability. Neglect accelerates decay. Natural lifecycle: 32 seconds from birth to death without interaction. Ocean metamorphosis achievable through specific protocols.";
     password := Some "{üåä:üåä‚ààüåä}";
     color := {| r := 200; g := 165; b := 70 |};
     behaviors :=
       Some {| idleAnimation := "float"; animationSpeed := 4;
               hoverEffect := "glow"; hoverIntensity := 1.3;
               beamReaction := "illuminate" |};
     url := Some "/leak-worm-847t/";
     preview := Some {| shape := "organic"; intensity := 0.3; pulse := true |};
     metadata :=
       Some {| author := "C.S. & N.C."; season := "02"; episode := "01";
               version := "v1001" |} |}.

Definition slot2 : specimen :=
  {| id := 2;
     code := "LEAK-WORM-575E";
     status := "contained";
     deployed := Some "October 2025";
     classification := Some "Interactive Narrative";
     description := Some "Investigates Earth power dynamics through temporal surveillance documentation. Contains Fragment 575E recording temporal consultation between [REDACTED] and Elizabeth I of England (Richmond Palace, May 1575). Explores circular feedback systems in political authority.";
     warning := Some "Specimen contains classified temporal surveillance data. Subject exhibits pattern recognition behaviors across historical power structures. Natural lifecycle: 32 seconds from birth to death without interaction. Fragment includes unauthorized commentary from parasitic entities [CP: ...].";
     password := Some "{üåä:üåä‚ààüåä}";
     color := {| r := 200; g := 165; b := 70 |};
     behaviors :=
       Some {| idleAnimation := "float"; animationSpeed := 4;
               hoverEffect := "glow"; hoverIntensity := 1.3;
               beamReaction := "illuminate" |};
     url := Some "https://lookaway-archive.github.io/leak-worm-575E/";
     preview := Some {| shape := "organic"; intensity := 0.3; pulse := true |};
     metadata :=
       Some {| author := "C.S. & N.C."; season := "02"; episode := "02";
               version := "v1001" |} |}.

(** The [SPECIMENS] object: its one data field. *)
Record object := { registry : list specimen }.

(** The registry of release v3.1 (tank-specimens.js). *)
Definition SPECIMENS : object :=
  {| registry := slot1 :: slot2 :: map (fun i => vacant i 3) (seq 0 10) |}.

(** The registry of release v3.2, which adds LEAK-WORM-EROI in slot 3. *)
Definition slot1_v32 : specimen :=
  {| id := 1;
     code := "LEAK-WORM-847T";
     status := "contained";
     deployed := Some "October 2025";
     classification := Some "Interactive Narrative";
     description := Some "Explores quantum measurement paradox through Tlönian archaeological documentation. The organism exhibits temporal decay behaviors and responds to active observation. Contains Fragment 847-T from the Third Bureau of Reality Cartography.";
     warning := Some "Specimen requires active observation to maintain stability. Neglect accelerates decay. Natural lifecycle: 32 seconds from birth to death without interaction. Ocean metamorphosis achievable through specific protocols.";
     password := Some "{🌊:🌊∈🌊}";
     color := {| r := 200; g := 165; b := 70 |};
     behaviors :=
       Some {| idleAnimation := "float"; animationSpeed := 4;
               hoverEffect := "glow"; hoverIntensity := 1.3;
               beamReaction := "illuminate" |};
     url := Some "/leak-worm-847t/";
     preview := Some {| shape := "organic"; intensity := 0.3; pulse := true |};
     metadata :=
       Some {| author := "C.S. & N.C."; season := "02"; episode := "01";
               version := "v1001" |} |}.

Definition slot2_v32 : specimen :=
  {| id := 2;
     code := "LEAK-WORM-575E";
     status := "contained";
     deployed := Some "October 2025";
     classification := Some "Interactive Narrative";
     description := Some "Investigates Earth power dynamics through temporal surveillance documentation. Contains Fragment 575E recording temporal consultation between [REDACTED] and Elizabeth I of England (Richmond Palace, May 1575). Explores circular feedback systems in political authority.";
     warning := Some "Specimen contains classified temporal surveillance data. Subject exhibits pattern recognition behaviors across historical power structures. Natural lifecycle: 32 seconds from birth to death without interaction. Fragment includes unauthorized commentary from parasitic entities [CP: ...].";
     password := None;
     color := {| r := 200; g := 165; b := 70 |};
     behaviors :=
       Some {| idleAnimation := "float"; animationSpeed := 4;
               hoverEffect := "glow"; hoverIntensity := 1.3;
               beamReaction := "illuminate" |};
     url := Some "https://lookaway-archive.github.io/leak-worm-575E/";
     preview := Some {| shape := "organic"; intensity := 0.3; pulse := true |};
     metadata :=
       Some {| author := "C.S. & N.C."; season := "02"; episode := "02";
               version := "v1001" |} |}.

Definition slot3_v32 : specimen :=
  {| id := 3;
     code := "LEAK-WORM-EROI";
     status := "contained";
     deployed := Some "February 2026";
     classification := Some "Visual Philosophy Document";
     description := Some "The specimen presents EROI — Energy Returned on Investment — as both ratio and trapped collector. References TRF-VIS-0042 from Art Theory Division.";
     warning := Some "Specimen disguises philosophical argument as luxury advertisement. Natural lifecycle: 32 seconds from birth to death without interaction. No password required — entry is always available. Exit is the problem.";
     password := None;
     color := {| r := 200; g := 165; b := 70 |};
     behaviors :=
       Some {| idleAnimation := "float"; animationSpeed := 4;
               hoverEffect := "glow"; hoverIntensity := 1.3;
               beamReaction := "illuminate" |};
     url := Some "https://lookaway-archive.github.io/leak-worm-EROI/";
     preview := Some {| shape := "organic"; intensity := 0.3; pulse := true |};
     metadata :=
       Some {| author := "C.S. & N.C."; season := "02"; episode := "03";
               version := "v1001" |} |}.

Definition SPECIMENS_v32 : object :=
  {| registry :=
       slot1_v32 :: slot2_v32 :: slot3_v32
       :: map (fun i => vacant i 4) (seq 0 9) |}.

(** The arguments the lookups can receive.  The ids of the registry are
    integers, so a number that is not an integer compares like any other
    value that is not an id. *)
Inductive value :=
| VUndefined
| VNull
| VBoolean (b : bool)
| VNumber (n : Z)
| VString (s : string).

(** [specimen.id === id] *)
Definition id_is (v : value) (s : specimen) : bool :=
  match v with
  | VNumber n => id s =? n
  | _ => false
  end.

Definition getById (this : object) (v : value) : option specimen :=
  find (id_is v) (registry this).

Definition getActive (this : object) : list specimen :=
  filter (fun s => status s = "contained") (registry this).

Definition getEmpty (this : object) : list specimen :=
  filter (fun s => status s = "vacant") (registry this).

Definition countActive (this : object) : nat := length (getActive this).

Definition countEmpty (this : object) : nat := length (getEmpty this).

Definition getAllIds (this : object) : list Z := map id (registry this).

(** The per-entry checks of [validate] that an entry of this record type
    can fail: the id is the position, counted from 1, and the status is one
    of the two known ones. *)
Definition slot_ok (index : nat) (s : specimen) : bool :=
  (id s =? Z.of_nat index + 1)
  && bool_decide (status s ∈ ["contained"; "vacant"]).

Fixpoint slots_ok (index : nat) (l : list specimen) : bool :=
  match l with
  | [] => true
  | s :: l' => slot_ok index s && slots_ok (S index) l'
  end.

(** [validate] as release v3.1 has it: twelve slots, two of them active. *)
Definition validate (this : object) : bool :=
  slots_ok 0 (registry this)
  && (length (registry this) =? 12)%nat
  && (countActive this =? 2)%nat.

(** [String.prototype.toUpperCase] on the ASCII letters; the status strings
    are ASCII. *)
Definition upper (c : ascii) : ascii :=
  let n := nat_of_ascii c in
  if ((97 <=? n) && (n <=? 122))%nat then ascii_of_nat (n - 32) else c.

Fixpoint toUpperCase (s : string) : string :=
  match s with
  | EmptyString => EmptyString
  | String c s' => String (upper c) (toUpperCase s')
  end.

Record button := { text : string; action : string; primary : bool }.

Record popup := {
  p_title : string;
  p_code : string;
  p_status : string;
  p_classification : option string;
  p_deployed : option string;
  p_description : option string;
  p_warning : option string;
  p_password : option string;
  p_url : option string;
  p_buttons : list button
}.

(** [getPopupContent(id)], returning the popup (or [null]) together with
    the object as the call leaves it. *)
Definition getPopupContent (this : object) (v : value) : option popup * object :=
  match getById this v with
  | None => (None, this)
  | Some specimen =>
      if decide (status specimen = "vacant") then (None, this)
      else
        (Some
           {| p_title := "SPECIMEN CONTAINMENT PROTOCOL";
              p_code := code specimen;
              p_status := toUpperCase (status specimen);
              p_classification := classification specimen;
              p_deployed := deployed specimen;
              p_description := description specimen;
              p_warning := warning specimen;
              p_password := password specimen;
              p_url := url specimen;
              p_buttons :=
                [ {| text := "OBSERVE SPECIMEN"; action := "navigate";
                     primary := true |};
                  {| text := "CANCEL"; action := "close"; primary := false |} ]
           |},
         this)
  end.

(** [specimen.code === code] *)
Definition code_is (v : value) (s : specimen) : bool :=
  match v with
  | VString c => bool_decide (code s = c)
  | _ => false
  end.

Definition getByCode (this : object) (v : value) : option specimen :=
  find (code_is v) (registry this).

(** What [getMembraneData] returns. *)
Record membrane := {
  m_id : Z;
  m_code : string;
  m_status : string;
  m_color : rgb;
  m_preview : option preview_t;
  clickable : bool;
  isEmpty : bool
}.

Definition getMembraneData (this : object) (v : value) : option membrane :=
  match getById this v with
  | None => None
  | Some specimen =>
      Some {| m_id := id specimen;
              m_code := code specimen;
              m_status := toUpperCase (status specimen);
              m_color := color specimen;
              m_preview := preview specimen;
              clickable := bool_decide (status specimen = "contained");
              isEmpty := bool_decide (status specimen = "vacant") |}
  end.

(** A registry that [validate] rejects: its only entry has a third status. *)
Definition escaped_registry : object :=
  {| registry :=
       [ {| id := 1; code := "LEAK-WORM-000X"; status := "escaped";
            deployed := None; classification := None; description := None;
            warning := None; password := None;
            color := {| r := 80; g := 80; b := 80 |};
            behaviors := None; url := None; preview := None;
            metadata := None |} ] |}.

End Specimens.

(** ** tank-config.js: the grid *)

Module TankConfig.

Record columns := { desktop : Z; tablet : Z; mobile : Z }.

Record grid := { totalSlots : Z; grid_columns : columns }.

(** [TANK_CONFIG.grid] *)
Definition TANK_GRID : grid :=
  {| totalSlots := 12;
     grid_columns := {| desktop := 3; tablet := 2; mobile := 1 |} |}.

(** [getGridColumns], with [window.innerWidth] as argument. *)
Definition getGridColumns (g : grid) (innerWidth : Z) : Z :=
  if 1025 <=? innerWidth then desktop (grid_columns g)
  else if 769 <=? innerWidth then tablet (grid_columns g)
  else mobile (grid_columns g).

End TankConfig.

(** ** The subscribers of the lifecycle controller *)

(** Reading a property of an object literal. *)
Module JSObject.

(** The names every object inherits from [Object.prototype]; each of them
    reads as a value that counts as true. *)
Definition prototype_keys : list string :=
  [ "constructor"; "hasOwnProperty"; "isPrototypeOf"; "propertyIsEnumerable";
    "toLocaleString"; "toString"; "valueOf"; "__proto__";
    "__defineGetter__"; "__defineSetter__";
    "__lookupGetter__"; "__lookupSetter__" ].

Inductive looked (V : Type) := Own (v : V) | Inherited (name : string) | Missing.
Arguments Own {V} v.
Arguments Inherited {V} name.
Arguments Missing {V}.

Fixpoint own {V} (fields : list (string * V)) (key : string) : option V :=
  match fields with
  | [] => None
  | (k, v) :: rest => if decide (k = key) then Some v else own rest key
  end.

(** [object[key]] for a literal with the given fields. *)
Definition get {V} (fields : list (string * V)) (key : string) : looked V :=
  match own fields key with
  | Some v => Own v
  | None => if bool_decide (key ∈ prototype_keys) then Inherited key else Missing
  end.

End JSObject.

(** [TankBeamModule.syncToPreservation] (tank-beam.js). *)
Module BeamSync.

(** What [currentSpeed] can hold: a number of seconds, or a member of
    [Object.prototype] picked up by the lookup. *)
Inductive speed := Seconds (n : Z) | Builtin (name : string).

#[global] Instance speed_eq_dec : EqDecision speed.
Proof. solve_decision. Defined.

(** The module's [currentSpeed], and the value last written to the style
    property [--beam-speed], if any (the text written is the speed followed
    by ["s"]). *)
Record state := {
  currentSpeed : speed;
  beamSpeedVar : option speed
}.

(** As the constructor leaves it. *)
Definition initial : state :=
  {| currentSpeed := Seconds 12; beamSpeedVar := None |}.

(** The two stages the controller broadcasts of its own. *)
Definition lifecycle_stage (stage : string) : Prop :=
  stage = "preservation" \/ stage = "flicker".

(** The notifications made to the listener with identifier [i]. *)
Definition heard (i : nat) (ns : list (nat * string * TankDecay.number))
  : list (nat * string * TankDecay.number) :=
  filter (fun n => n.1.1 = i) ns.

(** A property of the stage and progress of a notification. *)
Definition told (P : string -> TankDecay.number -> Prop)
    (n : nat * string * TankDecay.number) : Prop :=
  P n.1.2 n.2.

Definition speeds : list (string * Z) := [("preservation", 12); ("flicker", 10)].

(** [speeds[stage] || 12] *)
Definition newSpeed (stage : string) : speed :=
  match JSObject.get speeds stage with
  | JSObject.Own n => if n =? 0 then Seconds 12 else Seconds n
  | JSObject.Inherited k => Builtin k
  | JSObject.Missing => Seconds 12
  end.

Definition syncToPreservation (stage : string) (progress : TankDecay.number)
    (s : state) : state :=
  if decide (newSpeed stage = currentSpeed s) then s
  else {| currentSpeed := newSpeed stage;
          beamSpeedVar := Some (newSpeed stage) |}.

(** The module fed with a sequence of notifications. *)
Definition feed (ns : list (nat * string * TankDecay.number)) (s : state) : state :=
  fold_left (fun s n => syncToPreservation n.1.2 n.2 s) ns s.

End BeamSync.

(** The callback [integrateTankAudio] subscribes (tank-audio.js). *)
Module AudioSync.

(** The calls the callback makes on the audio object. *)
Inductive call :=
| SyncToDecayStage (stage : string) (progress : TankDecay.number)
| SyncDecayVisuals (stage : string) (progress : TankDecay.number)
| TriggerFlickerSurge.

(** [progress < 0.1] *)
Definition below_tenth (p : TankDecay.number) : bool :=
  match p with
  | TankDecay.Num q => JS.ltb q 0.1
  | TankDecay.NaN => false
  end.

Definition surge (stage : string) (progress : TankDecay.number) : bool :=
  bool_decide (stage = "flicker") && below_tenth progress.

Definition onDecay (stage : string) (progress : TankDecay.number) : list call :=
  [SyncToDecayStage stage progress; SyncDecayVisuals stage progress]
  ++ (if surge stage progress then [TriggerFlickerSurge] else []).

(** The surges a sequence of notifications leads to. *)
Definition surges (ns : list (nat * string * TankDecay.number)) : nat :=
  length (filter (fun n => surge n.1.2 n.2 = true) ns).

End AudioSync.

(** ** tank-audio.js: the class [TankAudio] and the volume button *)

Module AudioClass.

(** Calls on an [AudioParam]; the time of each is given as its offset from
    [context.currentTime], in seconds. *)
Inductive automation :=
| SetValueAtTime (v after : Q)
| LinearRampToValueAtTime (v after : Q)
| ExponentialRampToValueAtTime (v after : Q).

(** An [AudioParam]: the value assigned to [value], if one was, and the calls
    made on it, oldest first. *)
Record param := { value : option Q; scheduled : list automation }.

(** A started oscillator, with the offset at which [stop] was asked for. *)
Record oscillator := {
  type : string;
  frequency : param;
  stop : option Q
}.

(** The sounds that are set off and left to end by themselves: an oscillator
    or a noise burst behind a high-pass filter, each through a gain of its
    own into the master gain.  The samples of the burst are random and are
    not part of the model. *)
Inductive effect :=
| Tone (osc : oscillator) (gain : param)
| Burst (filter_frequency filter_Q : Q) (gain : param).

(** [this.nodes] *)
Record node_table := {
  masterGain : bool;
  hum : option oscillator;
  humGain : option param;
  harmonic2 : option oscillator;
  harmonic2Gain : option param;
  harmonic3 : option oscillator;
  harmonic3Gain : option param;
  beamOsc : option oscillator;
  beamGain : option param
}.

Record audio := {
  volumeLevel : Z;
  context : bool;
  nodes : node_table;
  ready : bool;
  currentStage : string;
  isFlickering : bool;
  sounded : list effect
}.

Definition baseVolume : Q := 0.04.
Definition baseBeamGain : Q := 0.015.

(** [new TankAudio()] *)
Definition constructor : audio :=
  {| volumeLevel := 1;
     context := false;
     nodes := {| masterGain := false;
                 hum := None; humGain := None;
                 harmonic2 := None; harmonic2Gain := None;
                 harmonic3 := None; harmonic3Gain := None;
                 beamOsc := None; beamGain := None |};
     ready := false;
     currentStage := "preservation";
     isFlickering := false;
     sounded := [] |}.

Definition set_nodes (n : node_table) (a : audio) : audio :=
  {| volumeLevel := volumeLevel a; context := context a; nodes := n;
     ready := ready a; currentStage := currentStage a;
     isFlickering := isFlickering a; sounded := sounded a |}.

Definition set_volumeLevel (level : Z) (a : audio) : audio :=
  {| volumeLevel := level; context := context a; nodes := nodes a;
     ready := ready a; currentStage := currentStage a;
     isFlickering := isFlickering a; sounded := sounded a |}.

Definition set_stage (stage : string) (a : audio) : audio :=
  {| volumeLevel := volumeLevel a; context := context a; nodes := nodes a;
     ready := ready a; currentStage := stage;
     isFlickering := bool_decide (stage = "flicker"); sounded := sounded a |}.

Definition sound (es : list effect) (a : audio) : audio :=
  {| volumeLevel := volumeLevel a; context := context a; nodes := nodes a;
     ready := ready a; currentStage := currentStage a;
     isFlickering := isFlickering a; sounded := sounded a ++ es |}.

(** The methods return [None] where the code is left by an error: a call on
    the missing context or on a missing node, a connection to the missing
    master gain, a number that is not finite handed to a parameter (each a
    [TypeError]), or an exponential ramp asked to end at 0 (a
    [RangeError]). *)
Definition require (b : bool) : option unit := if b then Some tt else None.

(** The check [exponentialRampToValueAtTime] makes on its target. *)
Definition nonzero (q : Q) : bool := negb (Qeq_bool q 0).

(** A parameter on which nothing but the given calls were made. *)
Definition calls (cs : list automation) : param :=
  {| value := None; scheduled := cs |}.

Definition assigned (v : Q) : param := {| value := Some v; scheduled := [] |}.

Definition call (c : automation) (p : param) : param :=
  {| value := value p; scheduled := scheduled p ++ [c] |}.

(** What a parameter is heading for: the value of the last call made on it,
    or else the value assigned. *)
Definition aim (c : automation) : Q :=
  match c with
  | SetValueAtTime v _ => v
  | LinearRampToValueAtTime v _ => v
  | ExponentialRampToValueAtTime v _ => v
  end.

Definition target (p : param) : option Q :=
  match last (scheduled p) with
  | Some c => Some (aim c)
  | None => value p
  end.

(** [volumeMultipliers[level]]; [None] is [undefined]. *)
Definition volumeMultipliers : list Q := [0%Q; 0.3%Q; 0.6%Q; 1%Q].

Definition multiplier (level : Z) : option Q :=
  if decide (0 <= level) then volumeMultipliers !! Z.to_nat level else None.

(** [init], with what becomes of the attempt to make a context. *)
Inductive attempt := Created | NoContext | NoGain.

Definition init (o : attempt) (a : audio) : bool * audio :=
  if context a then (true, a)
  else
    match o with
    | Created =>
        (true,
         {| volumeLevel := volumeLevel a; context := true;
            nodes := {| masterGain := true;
                        hum := hum (nodes a); humGain := humGain (nodes a);
                        harmonic2 := harmonic2 (nodes a);
                        harmonic2Gain := harmonic2Gain (nodes a);
                        harmonic3 := harmonic3 (nodes a);
                        harmonic3Gain := harmonic3Gain (nodes a);
                        beamOsc := beamOsc (nodes a);
                        beamGain := beamGain (nodes a) |};
            ready := true; currentStage := currentStage a;
            isFlickering := isFlickering a; sounded := sounded a |})
    | NoContext => (false, a)
    | NoGain =>
        (false,
         {| volumeLevel := volumeLevel a; context := true; nodes := nodes a;
            ready := ready a; currentStage := currentStage a;
            isFlickering := isFlickering a; sounded := sounded a |})
    end.

Definition cleanupCRTHum (a : audio) : audio :=
  set_nodes {| masterGain := masterGain (nodes a);
               hum := None; humGain := None;
               harmonic2 := None; harmonic2Gain := None;
               harmonic3 := None; harmonic3Gain := None;
               beamOsc := beamOsc (nodes a);
               beamGain := beamGain (nodes a) |} a.

Definition cleanupBeam (a : audio) : audio :=
  set_nodes {| masterGain := masterGain (nodes a);
               hum := hum (nodes a); humGain := humGain (nodes a);
               harmonic2 := harmonic2 (nodes a);
               harmonic2Gain := harmonic2Gain (nodes a);
               harmonic3 := harmonic3 (nodes a);
               harmonic3Gain := harmonic3Gain (nodes a);
               beamOsc := None; beamGain := None |} a.

(** [Math.max(0.001, v)] *)
Definition audible (v : option Q) : option Q :=
  q ← v; Some (JS.max 0.001 q).

(** [v * k] and [k * v] for a number [v] that may be [NaN]. *)
Definition scale (v : option Q) (k : Q) : option Q :=
  q ← v; Some (q * k)%Q.

Definition times (k : Q) (v : option Q) : option Q :=
  q ← v; Some (k * q)%Q.

Definition sine (f : Q) : oscillator :=
  {| type := "sine"; frequency := assigned f; stop := None |}.

Definition setupCRTHum (a : audio) : option audio :=
  let a := cleanupCRTHum a in
  _ ← require (context a);
  baseLevel ← times baseVolume (multiplier (volumeLevel a));
  _ ← require (masterGain (nodes a));
  Some (set_nodes
          {| masterGain := masterGain (nodes a);
             hum := Some (sine 60);
             humGain := Some (assigned baseLevel);
             harmonic2 := Some (sine 120);
             harmonic2Gain := Some (assigned (baseLevel * 0.3)%Q);
             harmonic3 := Some (sine 180);
             harmonic3Gain := Some (assigned (baseLevel * 0.15)%Q);
             beamOsc := beamOsc (nodes a);
             beamGain := beamGain (nodes a) |} a).

(** [if (node) node.gain.exponentialRampToValueAtTime(v, currentTime + after)]
    for a number [v] that may be [NaN] ([None]). *)
Definition ramp_gain (a : audio) (g : option param) (v : option Q) (after : Q)
  : option (option param) :=
  match g with
  | None => Some None
  | Some p =>
      _ ← require (context a);
      q ← v;
      _ ← require (nonzero q);
      Some (Some (call (ExponentialRampToValueAtTime q after) p))
  end.

(** The same on the frequency of an oscillator. *)
Definition ramp_frequency (a : audio) (o : option oscillator) (v : option Q)
    (after : Q) : option (option oscillator) :=
  match o with
  | None => Some None
  | Some osc =>
      _ ← require (context a);
      q ← v;
      _ ← require (nonzero q);
      Some (Some {| type := type osc;
                    frequency :=
                      call (ExponentialRampToValueAtTime q after) (frequency osc);
                    stop := stop osc |})
  end.

Definition updateHumVolumes (a : audio) : option audio :=
  let targetVolume := times baseVolume (multiplier (volumeLevel a)) in
  g1 ← ramp_gain a (humGain (nodes a)) (audible targetVolume) 0.1;
  g2 ← ramp_gain a (harmonic2Gain (nodes a))
         (audible (scale targetVolume 0.3)) 0.1;
  g3 ← ramp_gain a (harmonic3Gain (nodes a))
         (audible (scale targetVolume 0.15)) 0.1;
  Some (set_nodes
          {| masterGain := masterGain (nodes a);
             hum := hum (nodes a); humGain := g1;
             harmonic2 := harmonic2 (nodes a); harmonic2Gain := g2;
             harmonic3 := harmonic3 (nodes a); harmonic3Gain := g3;
             beamOsc := beamOsc (nodes a);
             beamGain := beamGain (nodes a) |} a).

Definition setVolumeLevel (level : Z) (a : audio) : option audio :=
  let a := set_volumeLevel level a in
  if volumeLevel a =? 0 then Some (cleanupBeam (cleanupCRTHum a))
  else
    match hum (nodes a) with
    | None => setupCRTHum a
    | Some _ => updateHumVolumes a
    end.

(** [stageMap], as pairs of [freq] and [volume]. *)
Definition stageMap : list (string * (Q * Q)) :=
  [("preservation", (60%Q, 1%Q)); ("flicker", (57%Q, 0.75%Q))].

(** [stageMap[stage] || stageMap.preservation]: the fields [freq] and
    [volume] of what is found; an inherited member has neither. *)
Definition stage_config (stage : string) : option Q * option Q :=
  match JSObject.get stageMap stage with
  | JSObject.Own c => (Some c.1, Some c.2)
  | JSObject.Inherited _ => (None, None)
  | JSObject.Missing => (Some 60%Q, Some 1%Q)
  end.

Definition muted (a : audio) : bool :=
  negb (ready a) || (volumeLevel a =? 0).

Definition syncToDecayStage (stage : string) (progress : TankDecay.number)
    (a : audio) : option audio :=
  let a := set_stage stage a in
  if muted a then Some a
  else
    let config := stage_config stage in
    o1 ← ramp_frequency a (hum (nodes a)) config.1 0.3;
    o2 ← ramp_frequency a (harmonic2 (nodes a)) (scale config.1 2) 0.3;
    o3 ← ramp_frequency a (harmonic3 (nodes a)) (scale config.1 3) 0.3;
    let baseLevel := times baseVolume (multiplier (volumeLevel a)) in
    let modulated :=
      b ← baseLevel; v ← config.2; Some (b * v)%Q in
    g1 ← ramp_gain a (humGain (nodes a)) (audible modulated) 0.3;
    g2 ← ramp_gain a (harmonic2Gain (nodes a))
           (audible (scale modulated 0.3)) 0.3;
    g3 ← ramp_gain a (harmonic3Gain (nodes a))
           (audible (scale modulated 0.15)) 0.3;
    Some (set_nodes
            {| masterGain := masterGain (nodes a);
               hum := o1; humGain := g1;
               harmonic2 := o2; harmonic2Gain := g2;
               harmonic3 := o3; harmonic3Gain := g3;
               beamOsc := beamOsc (nodes a);
               beamGain := beamGain (nodes a) |} a).

(** The common frame of the effects: nothing when muted; else the context,
    the volume [k * volumeMultipliers[level]] and the master gain are
    needed. *)
Definition one_shot (k : Q) (es : Q -> list effect) (a : audio) : option audio :=
  if muted a then Some a
  else
    _ ← require (context a);
    volume ← times k (multiplier (volumeLevel a));
    _ ← require (masterGain (nodes a));
    Some (sound (es volume) a).

Definition swept (cs : list automation) (until : Q) : oscillator :=
  {| type := "sine"; frequency := calls cs; stop := Some until |}.

(** A gain set to [volume] and let go down to 0.001 within [d] seconds. *)
Definition fading (volume d : Q) : param :=
  calls [SetValueAtTime volume 0; ExponentialRampToValueAtTime 0.001 d].

Definition triggerFlickerSurge : audio -> option audio :=
  one_shot 0.06 (fun volume =>
    [Tone (swept [SetValueAtTime 60 0;
                  ExponentialRampToValueAtTime 48 0.15;
                  ExponentialRampToValueAtTime 60 0.4] 0.5)
          (fading volume 0.5)]).

Definition frequencies : list (Q * Q) :=
  [(523.25%Q, 261.63%Q); (659.25%Q, 329.63%Q); (783.99%Q, 392%Q)].

Definition triggerWaterDrop : audio -> option audio :=
  one_shot 0.08 (fun volume =>
    imap (fun i freqPair =>
      Tone (swept [SetValueAtTime freqPair.1 0;
                   ExponentialRampToValueAtTime freqPair.2 0.3] 0.4)
           (calls [SetValueAtTime 0 0;
                   LinearRampToValueAtTime
                     (volume * (1 - inject_Z (Z.of_nat i) * 0.2))%Q 0.02;
                   ExponentialRampToValueAtTime 0.001 0.35]))
      frequencies).

(** [random] is the value of [Math.random()]. *)
Definition triggerMembraneClick (random : Q) : audio -> option audio :=
  one_shot 0.05 (fun volume =>
    [Tone {| type := "sine";
             frequency := assigned (800 + random * 200)%Q;
             stop := Some 0.1%Q |}
          (fading volume 0.08)]).

Definition triggerPopupOpen : audio -> option audio :=
  one_shot 0.04 (fun volume =>
    [Tone (swept [SetValueAtTime 200 0;
                  ExponentialRampToValueAtTime 400 0.15] 0.2)
          (fading volume 0.2)]).

Definition triggerPopupClose : audio -> option audio :=
  one_shot 0.03 (fun volume =>
    [Tone (swept [SetValueAtTime 400 0;
                  ExponentialRampToValueAtTime 200 0.12] 0.15)
          (fading volume 0.15)]).

Definition triggerBeamFizz : audio -> option audio :=
  one_shot 0.01 (fun volume => [Burst 3000 0.7 (fading volume 0.01)]).

(** [triggerBeamSweep(beamY)], with [window.innerHeight] as argument; a
    height of 0 makes the frequency infinite or [NaN]. *)
Definition sweep_frequency (beamY innerHeight : Q) : option Q :=
  if Qeq_bool innerHeight 0 then None
  else Some (67.83 + (beamY / innerHeight - 0.5) * 4)%Q.

Definition triggerBeamSweep (beamY innerHeight : Q) (a : audio) : option audio :=
  if muted a then Some a
  else
    match beamOsc (nodes a) with
    | None =>
        _ ← require (context a);
        f ← sweep_frequency beamY innerHeight;
        _ ← require (masterGain (nodes a));
        Some (set_nodes
                {| masterGain := masterGain (nodes a);
                   hum := hum (nodes a); humGain := humGain (nodes a);
                   harmonic2 := harmonic2 (nodes a);
                   harmonic2Gain := harmonic2Gain (nodes a);
                   harmonic3 := harmonic3 (nodes a);
                   harmonic3Gain := harmonic3Gain (nodes a);
                   beamOsc := Some (sine f);
                   beamGain := Some (assigned baseBeamGain) |} a)
    | Some _ =>
        o ← ramp_frequency a (beamOsc (nodes a))
              (sweep_frequency beamY innerHeight) 0.1;
        Some (set_nodes
                {| masterGain := masterGain (nodes a);
                   hum := hum (nodes a); humGain := humGain (nodes a);
                   harmonic2 := harmonic2 (nodes a);
                   harmonic2Gain := harmonic2Gain (nodes a);
                   harmonic3 := harmonic3 (nodes a);
                   harmonic3Gain := harmonic3Gain (nodes a);
                   beamOsc := o;
                   beamGain := beamGain (nodes a) |} a)
    end.

(** [triggerUIContact]; [currentFreq] is what reading
    [beamOsc.frequency.value] gives at the time of the call. *)
Definition triggerUIContact (currentFreq : Q) (a : audio) : option audio :=
  if muted a then Some a
  else
    match beamOsc (nodes a) with
    | None => Some a
    | Some osc =>
        _ ← require (context a);
        _ ← require (nonzero (currentFreq * 0.2)%Q && nonzero currentFreq);
        g ← beamGain (nodes a);
        Some (set_nodes
                {| masterGain := masterGain (nodes a);
                   hum := hum (nodes a); humGain := humGain (nodes a);
                   harmonic2 := harmonic2 (nodes a);
                   harmonic2Gain := harmonic2Gain (nodes a);
                   harmonic3 := harmonic3 (nodes a);
                   harmonic3Gain := harmonic3Gain (nodes a);
                   beamOsc :=
                     Some {| type := type osc;
                             frequency :=
                               {| value := value (frequency osc);
                                  scheduled :=
                                    scheduled (frequency osc)
                                    ++ [SetValueAtTime currentFreq 0;
                                        ExponentialRampToValueAtTime
                                          (currentFreq * 0.2)%Q 0.1;
                                        ExponentialRampToValueAtTime
                                          currentFreq 0.4] |};
                             stop := stop osc |};
                   beamGain :=
                     Some {| value := value g;
                             scheduled :=
                               scheduled g
                               ++ [SetValueAtTime baseBeamGain 0;
                                   LinearRampToValueAtTime
                                     (baseBeamGain * 3)%Q 0.1;
                                   ExponentialRampToValueAtTime
                                     (JS.max 0.001 baseBeamGain) 0.4] |} |} a)
    end.

(** *** The volume button of [integrateTankAudio] *)

(** The audio object and the [class] attribute of the button, as the list
    of its tokens. *)
Definition page : Type := audio * list string.

(** [classList.add(token)] and [classList.remove(token)] *)
Definition classList_add (token : string) (l : list string) : list string :=
  if bool_decide (token ∈ l) then l else l ++ [token].

Definition classList_remove (token : string) (l : list string) : list string :=
  filter (fun c => c <> token) l.

(** [volumeBtn.className = 'volume-1'] *)
Definition loaded : page := (constructor, ["volume-1"]).

(** The listener [autoInit] of the first interaction. *)
Definition autoInit (o : attempt) (p : page) : option page :=
  if ready p.1 then Some p
  else
    let (initialized, a) := init o p.1 in
    if initialized then a' ← setVolumeLevel 1 a; Some (a', p.2)
    else Some (a, p.2).

(** The confirmation tone of the button. *)
Definition beep (nextLevel : Z) : effect :=
  Tone {| type := "sine";
          frequency := assigned (800 + inject_Z nextLevel * 200)%Q;
          stop := Some 0.1%Q |}
       (calls [SetValueAtTime 0 0;
               LinearRampToValueAtTime (0.1 * (inject_Z nextLevel / 3))%Q 0.01;
               ExponentialRampToValueAtTime 0.001 0.1]).

(** [`volume-${level}`] *)
Definition volume_class (level : Z) : string := "volume-" +:+ pretty level.

(** [volumeBtn.onclick] *)
Definition onclick (o : attempt) (p : page) : option page :=
  if negb (ready p.1) then
    let (initialized, a) := init o p.1 in
    if negb initialized then Some (a, p.2)
    else a' ← setVolumeLevel 1 a; Some (a', ["volume-1"])
  else
    let nextLevel := volumeLevel p.1 + 1 in
    let nextLevel := if 3 <? nextLevel then 0 else nextLevel in
    a ← setVolumeLevel nextLevel p.1;
    let className := [volume_class nextLevel] in
    if 0 <? nextLevel then
      _ ← require (context a);
      _ ← require (masterGain (nodes a));
      Some (sound [beep nextLevel] a, className)
    else Some (a, className).

(** What happens on the page, as far as the audio object and the class of
    the button are concerned.  A notification of the controller runs the
    subscribed callback; the styles that [syncDecayVisuals] puts on the
    button are not part of the state kept here.  A run of the beam loop is
    a sequence of these events: the sweep, then, when the button is there,
    [ToggleClass] with what the test of the beam against the button gives,
    followed by a contact when the loop's [lastUIContact] asks for it, then
    the contacts and fizzes of the title and text loops.  The other events
    are the calls the popup hooks and the click handlers make. *)
Inductive event :=
| FirstInteraction (o : attempt)
| VolumeClick (o : attempt)
| Decay (stage : string) (progress : TankDecay.number)
| BeamSweep (beamY innerHeight : Q)
| ToggleClass (contact : bool)
| UIContact (currentFreq : Q)
| BeamFizz
| MembraneClick (random : Q)
| PopupOpen
| PopupClose
| WaterDrop.

Definition on_audio (f : audio -> option audio) (p : page) : option page :=
  a ← f p.1; Some (a, p.2).

Definition handle (e : event) (p : page) : option page :=
  match e with
  | FirstInteraction o => autoInit o p
  | VolumeClick o => onclick o p
  | Decay stage progress =>
      on_audio (fun a =>
        a ← syncToDecayStage stage progress a;
        if AudioSync.surge stage progress then triggerFlickerSurge a
        else Some a) p
  | BeamSweep beamY innerHeight => on_audio (triggerBeamSweep beamY innerHeight) p
  | ToggleClass contact =>
      Some (p.1, if contact then classList_add "beam-contact" p.2
                 else classList_remove "beam-contact" p.2)
  | UIContact currentFreq => on_audio (triggerUIContact currentFreq) p
  | BeamFizz => on_audio triggerBeamFizz p
  | MembraneClick random => on_audio (triggerMembraneClick random) p
  | PopupOpen => on_audio triggerPopupOpen p
  | PopupClose => on_audio triggerPopupClose p
  | WaterDrop => on_audio triggerWaterDrop p
  end.

Fixpoint play (es : list event) (p : page) : option page :=
  match es with
  | [] => Some p
  | e :: rest => p' ← handle e p; play rest p'
  end.

(** Events that do not make the code hand a number that is not finite, or
    a target of 0, to the audio interface, and attempts that do not fail
    half way. *)
Definition sane (e : event) : Prop :=
  match e with
  | FirstInteraction o | VolumeClick o => o <> NoGain
  | Decay stage _ => stage ∉ JSObject.prototype_keys
  | BeamSweep beamY innerHeight =>
      ~ (innerHeight == 0)%Q
      /\ ~ (67.83 + (beamY / innerHeight - 0.5) * 4 == 0)%Q
  | UIContact currentFreq => ~ (currentFreq == 0)%Q
  | _ => True
  end.

(** No hum and no beam drone. *)
Definition silent (n : node_table) : Prop :=
  hum n = None /\ humGain n = None
  /\ harmonic2 n = None /\ harmonic2Gain n = None
  /\ harmonic3 n = None /\ harmonic3Gain n = None
  /\ beamOsc n = None /\ beamGain n = None.

(** The three levels of the hum and its three frequencies, as they are
    headed for. *)
Definition hum_levels (n : node_table) : option (Q * Q * Q) :=
  g1 ← humGain n; g2 ← harmonic2Gain n; g3 ← harmonic3Gain n;
  v1 ← target g1; v2 ← target g2; v3 ← target g3;
  Some (v1, v2, v3).

Definition hum_frequencies (n : node_table) : option (Q * Q * Q) :=
  o1 ← hum n; o2 ← harmonic2 n; o3 ← harmonic3 n;
  f1 ← target (frequency o1); f2 ← target (frequency o2);
  f3 ← target (frequency o3);
  Some (f1, f2, f3).

(** The hum is there as a whole or not at all, and so is the beam drone. *)
Definition humming (n : node_table) : Prop :=
  is_Some (hum n) /\ is_Some (humGain n)
  /\ is_Some (harmonic2 n) /\ is_Some (harmonic2Gain n)
  /\ is_Some (harmonic3 n) /\ is_Some (harmonic3Gain n).

Definition hum_off (n : node_table) : Prop :=
  hum n = None /\ humGain n = None
  /\ harmonic2 n = None /\ harmonic2Gain n = None
  /\ harmonic3 n = None /\ harmonic3Gain n = None.

Definition paired (n : node_table) : Prop :=
  (hum_off n \/ humming n)
  /\ ((beamOsc n = None /\ beamGain n = None)
      \/ (is_Some (beamOsc n) /\ is_Some (beamGain n))).

(** The shape the page keeps the audio object in. *)
Definition wired (a : audio) : Prop :=
  0 <= volumeLevel a <= 3
  /\ paired (nodes a)
  /\ (volumeLevel a = 0 -> silent (nodes a))
  /\ (if ready a
      then context a = true /\ masterGain (nodes a) = true
      else context a = false /\ volumeLevel a = 1
           /\ silent (nodes a) /\ sounded a = []).

(** The events that go through the volume guard of a method. *)
Definition behind_guard (e : event) : Prop :=
  match e with
  | FirstInteraction _ | VolumeClick _ | ToggleClass _ => False
  | _ => True
  end.

(** What the button shows of a level: the class of the level, and behind it
    the contact class while the beam loop has it set. *)
Definition shows (level : Z) (classes : list string) : Prop :=
  classes = [volume_class level]
  \/ classes = [volume_class level; "beam-contact"].

End AudioClass.

(** * Properties *)

(** ** Facts on the number operations *)

Module JSFacts.

Lemma ltb_lt (a b : Q) : JS.ltb a b = true <-> (a < b)%Q.
Proof.
  unfold JS.ltb. rewrite negb_true_iff.
  split; intros H.
  - apply Qnot_le_lt. intros Hle. apply Qle_bool_iff in Hle. congruence.
  - destruct (Qle_bool b a) eqn:E; [|reflexivity].
    apply Qle_bool_iff in E. exfalso. apply (Qlt_not_le _ _ H E).
Qed.

End JSFacts.

(** ** The collision poll *)

Module TankBeamFacts.
Import TankBeam.
#[local] Set Warnings "-clear-no-such-hyp".

(** The element a target becomes does not depend on the loop-carried
    values. *)
Lemma check_target_snd w buffer beamY a a' t :
  (check_target w buffer beamY a t).2 = (check_target w buffer beamY a' t).2.
Proof.
  unfold check_target.
  destruct (pruned w buffer t); [reflexivity|].
  destruct (isInBounds beamY t && Double.lt (distance beamY t) 60);
    [|reflexivity].
  cbv zeta.
  destruct (Double.lt (distance beamY t)
              (Double.max 20 (height (rect t) / 2)));
    reflexivity.
Qed.

(** [forEach] rewrites the targets position by position. *)
Lemma forEach_lookup w buffer beamY a0 ts : forall a (i : nat),
  (forEach w buffer beamY a ts).2 !! i
  = (fun t => (check_target w buffer beamY a0 t).2) <$> (ts !! i).
Proof.
  induction ts as [|t ts IH]; intros a i; simpl.
  - reflexivity.
  - destruct (check_target w buffer beamY a t) as [a1 t1] eqn:E1.
    destruct (forEach w buffer beamY a1 ts) as [a2 ts2] eqn:E2.
    destruct i as [|i]; simpl.
    + f_equal. change t1 with (a1, t1).2. rewrite <- E1.
      apply check_target_snd.
    + specialize (IH a1 i). rewrite E2 in IH. exact IH.
Qed.

Lemma poll_lookup isMobile w b beamRect ts (i : nat) a0 :
  isPaused b = false ->
  body b = Some beamRect ->
  (poll isMobile w b ts).2 !! i
  = (fun t => (check_target w (buffer isMobile)
                 (scanY beamRect) a0 t).2) <$> (ts !! i).
Proof.
  intros Hp Hb. unfold poll. rewrite Hp, Hb.
  pose proof (forEach_lookup w (buffer isMobile)
                (scanY beamRect) a0 ts
                {| a_glow := glow b; a_hotspot := hotspot b; hit := false |} i)
    as H.
  destruct (forEach _ _ _ _ ts) as [a ts'].
  destruct (hit a); exact H.
Qed.

(** A distance equal to a bound is not below it. *)
Lemma eq_not_lt (a b : float) : Double.eq a b = true -> Double.lt a b = false.
Proof. unfold Double.eq, Double.lt. destruct (PrimFloat.compare a b); congruence. Qed.

(** What [check_target] leaves in the class list of an examined target. *)
Lemma check_target_contact w buffer beamY a t :
  pruned w buffer t = false ->
  in_contact (check_target w buffer beamY a t).2 = true
  <-> isInBounds beamY t = true
      /\ Double.lt (distance beamY t) 60 = true
      /\ Double.lt (distance beamY t)
           (Double.max 20 (height (rect t) / 2)) = true.
Proof.
  intros Hp. unfold check_target. rewrite Hp.
  destruct (isInBounds beamY t); cbn [andb].
  - destruct (Double.lt (distance beamY t) 60); cbv zeta.
    + destruct (Double.lt (distance beamY t)
                  (Double.max 20 (height (rect t) / 2)));
        unfold in_contact; cbn [snd classList]; rewrite bool_decide_eq_true.
      * split; [tauto|]. intros _. set_solver.
      * split; [|intros (_ & _ & H); discriminate].
        intros H. exfalso. set_solver.
    + unfold in_contact. cbn [snd classList]. rewrite bool_decide_eq_true.
      split; [|intros (_ & H & _); discriminate].
      intros H. exfalso. set_solver.
  - unfold in_contact. cbn [snd classList]. rewrite bool_decide_eq_true.
    split; [|intros (H & _); discriminate].
    intros H. exfalso. set_solver.
Qed.

Lemma classify_contact t : classify t = Contact <-> in_contact t = true.
Proof.
  unfold classify, in_contact. rewrite bool_decide_eq_true.
  destruct (decide ("beam-contact" ∈ classList t)) as [H|H].
  - tauto.
  - split; [|tauto]. destruct (decide ("beam-approaching" ∈ classList t));
      discriminate.
Qed.

(** The spec's end-to-end scenario: region 100..140, beam at 125. *)
Example scenario_contact :
  classify <$> (poll false desktop (beam_at 125) [region 100 40]).2 !! 0%nat
  = Some Contact.
Proof. vm_compute. reflexivity. Qed.

(** At distance exactly 20 from the centre of that region: no contact. *)
Example scenario_boundary :
  classify <$> (poll false desktop (beam_at 140) [region 100 40]).2 !! 0%nat
  = Some Approaching.
Proof. vm_compute. reflexivity. Qed.

(** The three tests are computed one by one, each with its own rounding,
    and none follows from the others.  With the beam's box at 99, 2 high,
    and a region at 100, 0x1.4022222222222p+5 (40.016666666666666) high, the
    distance comes out one step below the half height it equals on paper,
    and the region is in contact. *)
Example rounded_distance_contact :
  let t := region 100 0x1.4022222222222p+5 in
  let b := beam_rect 100 in
  distance (scanY b) t = 0x1.402222222222p+4%float
  /\ Double.max 20 (height (rect t) / 2) = 0x1.4022222222222p+4%float
  /\ classify <$> (poll false desktop (beam_at 100) [t]).2 !! 0%nat
     = Some Contact.
Proof. vm_compute. repeat split. Qed.

(** With the beam's box at 0x1.34ccc4b9ff633p+2 (4.824998075140274), 2 high,
    and a region at 0x1.74ccc4b9ff634p+2 (5.824998075140275),
    0x1.c844444444444p+5 (57.03333333333333) high, the scan line is on the
    region's top edge on paper; computed, it lies one step above the top
    bound while the distance is below the half height: no contact. *)
Example rounded_bounds_idle :
  let t := region 0x1.74ccc4b9ff634p+2 0x1.c844444444444p+5 in
  let b := {| top := 0x1.34ccc4b9ff633p+2; height := 2 |} in
  Double.lt (distance (scanY b) t) (Double.max 20 (height (rect t) / 2)) = true
  /\ Double.lt (distance (scanY b) t) 60 = true
  /\ isInBounds (scanY b) t = false
  /\ classify
       <$> (poll false desktop
              {| isPaused := false; body := Some b; glow := ∅; hotspot := ∅ |}
              [t]).2 !! 0%nat
     = Some Idle.
Proof. vm_compute. repeat split. Qed.

(** With the beam's box at 0x1.161999999999ap+7 (139.05), 2 high, and a
    region at 100, 0x1.4066666666666p+5 (40.05) high, the scan line is on
    the region's bottom edge: inside the bounds, and at a computed distance
    one step above the half height.  The region is approaching. *)
Example rounded_distance_approaching :
  let t := region 100 0x1.4066666666666p+5 in
  let b := {| top := 0x1.161999999999ap+7; height := 2 |} in
  isInBounds (scanY b) t = true
  /\ Double.lt (Double.max 20 (height (rect t) / 2)) (distance (scanY b) t)
     = true
  /\ classify
       <$> (poll false desktop
              {| isPaused := false; body := Some b; glow := ∅; hotspot := ∅ |}
              [t]).2 !! 0%nat
     = Some Approaching.
Proof. vm_compute. repeat split. Qed.

(** C1, as stated, fails: contact is not decided by
    [|scanY - center| < max(20, halfHeight)] alone.  A region 200 high with
    its centre at 100 and the beam at 30 is at distance 70, less than its
    half height 100, and the poll leaves it without the contact class. *)
Lemma contact_threshold_counterexample :
  Double.lt (distance (scanY (beam_rect 30)) (region 0 200))
    (Double.max 20 (height (rect (region 0 200)) / 2)) = true
  /\ distance (scanY (beam_rect 30)) (region 0 200) = 70%float
  /\ classify <$> (poll false desktop (beam_at 30) [region 0 200]).2 !! 0%nat
     = Some Idle.
Proof. vm_compute. repeat split. Qed.

(** C1, amended: on every poll that runs, a tracked region that the
    viewport prune does not skip is classified as contact exactly when the
    scan line lies within the region's padded bounds and its distance from
    the region's centre is below 60 and below [max(20, halfHeight)], each
    of these computed in binary64 as the code computes it; the comparisons
    of the distance are strict, so a distance equal to the threshold is not
    a contact. *)
Theorem poll_contact_iff isMobile w b beamRect ts (i : nat) t :
  isPaused b = false ->
  body b = Some beamRect ->
  ts !! i = Some t ->
  pruned w (buffer isMobile) t = false ->
  exists t',
    (poll isMobile w b ts).2 !! i = Some t'
    /\ rect t' = rect t
    /\ (classify t' = Contact
        <-> isInBounds (scanY beamRect) t = true
            /\ Double.lt (distance (scanY beamRect) t) 60 = true
            /\ Double.lt (distance (scanY beamRect) t)
                 (Double.max 20 (height (rect t) / 2)) = true)
    /\ (Double.eq (distance (scanY beamRect) t)
          (Double.max 20 (height (rect t) / 2)) = true ->
        classify t' <> Contact).
Proof.
  intros Hp Hb Ht Hpr.
  set (a0 := {| a_glow := ∅; a_hotspot := ∅; hit := false |}).
  exists (check_target w (buffer isMobile) (scanY beamRect) a0 t).2.
  split; [|split].
  { rewrite (poll_lookup isMobile w b beamRect ts i a0 Hp Hb), Ht.
    reflexivity. }
  { unfold check_target. rewrite Hpr.
    destruct (isInBounds (scanY beamRect) t
              && Double.lt (distance (scanY beamRect) t) 60);
      cbv zeta; [|reflexivity].
    destruct (Double.lt (distance (scanY beamRect) t)
                (Double.max 20 (height (rect t) / 2))); reflexivity. }
  pose proof (check_target_contact w (buffer isMobile) (scanY beamRect) a0 t
                Hpr) as Hc.
  split.
  - rewrite classify_contact. exact Hc.
  - intros Heq Hcl. apply classify_contact, Hc in Hcl.
    destruct Hcl as (_ & _ & Hlt). rewrite (eq_not_lt _ _ Heq) in Hlt.
    discriminate.
Qed.

Lemma poll_contact_iff_witness :
  exists t',
    (poll false desktop (beam_at 125) [region 100 40]).2 !! 0%nat = Some t'
    /\ rect t' = rect (region 100 40)
    /\ classify t' = Contact.
Proof.
  destruct (poll_contact_iff false desktop (beam_at 125) (beam_rect 125)
              [region 100 40] 0%nat (region 100 40))
    as (t' & E & Hr & Hc & _).
  - reflexivity.
  - reflexivity.
  - reflexivity.
  - vm_compute. reflexivity.
  - exists t'. split; [exact E|]. split; [exact Hr|].
    apply Hc. vm_compute. repeat split.
Defined.

End TankBeamFacts.

(** ** The lifecycle controller *)

Module TankDecayFacts.
Import TankDecay.

Lemma logged_nil w : logged w [] = w.
Proof. destruct w. unfold logged. simpl. rewrite app_nil_r. reflexivity. Qed.

Lemma logged_logged w es es' : logged (logged w es) es' = logged w (es ++ es').
Proof. unfold logged. simpl. rewrite app_assoc. reflexivity. Qed.

Lemma notify_loop d (l : list listener) : forall w,
  forEach
    (fun callback =>
       try_catch (call callback)
         (fun error => emit (ConsoleError "❌ Listener error:" (Some error))))
    l (d, w)
  = (Normal tt, (d, logged w (flat_map (delivery d) l))).
Proof.
  induction l as [|cb l IH]; intros w.
  - simpl. unfold ret. rewrite logged_nil. reflexivity.
  - cbn [forEach flat_map]. unfold bind at 1.
    assert (Hcb :
      try_catch (call cb)
        (fun error => emit (ConsoleError "❌ Listener error:" (Some error)))
        (d, w)
      = (Normal tt, (d, logged w (delivery d cb)))).
    { unfold try_catch, call, bind, this, emit, delivery, logged. simpl.
      destruct (l_run cb (stage d) (progress d)); simpl.
      - reflexivity.
      - rewrite <- app_assoc. reflexivity. }
    rewrite Hcb, IH, logged_logged. reflexivity.
Qed.

Lemma notify_eq d w :
  notify (d, w) = (Normal tt, (d, logged w (flat_map (delivery d) (listeners d)))).
Proof. unfold notify, bind, this. simpl. apply notify_loop. Qed.

Lemma notifications_app tr tr' :
  notifications (tr ++ tr') = notifications tr ++ notifications tr'.
Proof. unfold notifications. apply omap_app. Qed.

Lemma notifications_delivery d (l : list listener) :
  notifications (flat_map (delivery d) l)
  = map (fun cb => (l_id cb, stage d, progress d)) l.
Proof.
  induction l as [|cb l IH]; [reflexivity|].
  cbn [flat_map map]. rewrite notifications_app, IH.
  unfold delivery. destruct (l_run cb (stage d) (progress d)); reflexivity.
Qed.

(** A faulty listener registered first does not keep the second one from
    being called, and its error is logged in between. *)
Example notify_isolates_failure :
  trace (notify (steady_since 0, fresh_world)).2.2
  = [ Called 1 "preservation" (Num 0);
      ConsoleError "❌ Listener error:" (Some "boom");
      Called 2 "preservation" (Num 0) ]
  /\ listeners (notify (steady_since 0, fresh_world)).2.1
     = [faulty 1; quiet 2].
Proof. split; vm_compute; reflexivity. Qed.

(** C6: a notification pass completes normally whatever the listeners do;
    it calls every registered listener, in registration order, with the
    current stage and progress; a listener that throws has its error logged
    right after its call and the pass goes on with the next one; the list
    of listeners, like every other field, is left as it was. *)
Theorem notify_delivers d w :
  exists w',
    notify (d, w) = (Normal tt, (d, w'))
    /\ trace w' = trace w ++ flat_map (delivery d) (listeners d)
    /\ notifications (trace w')
       = notifications (trace w)
         ++ map (fun cb => (l_id cb, stage d, progress d)) (listeners d)
    /\ (forall cb e,
          cb ∈ listeners d ->
          l_run cb (stage d) (progress d) = Throws e ->
          ConsoleError "❌ Listener error:" (Some e) ∈ trace w')
    /\ intervals w' = intervals w.
Proof.
  exists (logged w (flat_map (delivery d) (listeners d))).
  split; [apply notify_eq|]. split; [reflexivity|]. split; [|split].
  - simpl. rewrite notifications_app, notifications_delivery. reflexivity.
  - intros cb e Hin Hrun. simpl. apply elem_of_app. right.
    apply list_elem_of_In, in_flat_map. exists cb. split.
    + apply list_elem_of_In. exact Hin.
    + unfold delivery. rewrite Hrun. right. left. reflexivity.
  - reflexivity.
Qed.

(** *** Elapsed time against a duration *)

Lemma ratio_lt_one (t : Z) (c : positive) :
  (ratio t (Z.pos c) < 1)%Q <-> t < Z.pos c.
Proof. unfold ratio, Qdiv, Qlt. simpl. lia. Qed.

Lemma ratio_ge_one (t : Z) (c : positive) :
  (1 <= ratio t (Z.pos c))%Q <-> Z.pos c <= t.
Proof. unfold ratio, Qdiv, Qle. simpl. lia. Qed.

Lemma min_one_lt (t : Z) (c : positive) :
  t < Z.pos c ->
  JS.min (ratio t (Z.pos c)) 1 = ratio t (Z.pos c)
  /\ ge_one (min_one (Num (ratio t (Z.pos c)))) = false.
Proof.
  intros H. apply ratio_lt_one in H.
  assert (E : JS.min (ratio t (Z.pos c)) 1 = ratio t (Z.pos c)).
  { unfold JS.min, Qmin, GenericMinMax.gmin.
    rewrite (proj1 (Qlt_alt _ _) H). reflexivity. }
  split; [exact E|].
  simpl. rewrite E. unfold JS.geb.
  destruct (Qle_bool 1 (ratio t (Z.pos c))) eqn:Eb; [|reflexivity].
  apply Qle_bool_iff in Eb. exfalso. exact (Qlt_not_le _ _ H Eb).
Qed.

Lemma min_one_ge (t : Z) (c : positive) :
  Z.pos c <= t ->
  (JS.min (ratio t (Z.pos c)) 1 == 1)%Q
  /\ ge_one (min_one (Num (ratio t (Z.pos c)))) = true.
Proof.
  intros H. apply ratio_ge_one in H.
  assert (E : (JS.min (ratio t (Z.pos c)) 1 == 1)%Q).
  { unfold JS.min. apply Q.min_r. exact H. }
  split; [exact E|].
  simpl. unfold JS.geb. apply Qle_bool_iff. rewrite E. apply Qle_refl.
Qed.

(** *** The heartbeat in the steady state *)

(** C3, as stated, fails at [t = C]: one full cycle after the baseline the
    heartbeat broadcasts progress 0, where [min(t/C, 1.0)] is 1. *)
Lemma steady_progress_counterexample :
  let d := set_lastInteraction (Some 0) initial in
  let t := since 300000 (lastInteraction d) in
  let C := Z.pos (timings_preservation TANK_CONFIG) in
  exists q,
    progress (update TANK_CONFIG 300000 300000 (d, fresh_world)).2.1 = Num q
    /\ ~ (q == JS.min (ratio t C) 1)%Q.
Proof.
  exists 0%Q. split; [vm_compute; reflexivity|].
  vm_compute. discriminate.
Qed.

(** C3, amended: in the steady state, a heartbeat at elapsed time [t] since
    the baseline keeps the stage and broadcasts progress [t/C] (which is
    [min(t/C, 1.0)]) as long as [t < C]; as soon as [t >= C], that is when
    the quotient reaches 1.0, it sets the baseline to the current clock
    reading and broadcasts progress 0.  Either way the controller stays in
    the steady state and every listener is notified. *)
Theorem update_steady cfg d w now now' :
  isFlickering d = false ->
  let t := since now (lastInteraction d) in
  let C := Z.pos (timings_preservation cfg) in
  exists d' w',
    update cfg now now' (d, w) = (Normal tt, (d', w'))
    /\ stage d' = "preservation"
    /\ isFlickering d' = false
    /\ listeners d' = listeners d
    /\ (t < C ->
        progress d' = Num (JS.min (ratio t C) 1)
        /\ JS.min (ratio t C) 1 = ratio t C
        /\ lastInteraction d' = lastInteraction d)
    /\ (C <= t ->
        progress d' = Num 0 /\ lastInteraction d' = Some now')
    /\ notifications (trace w')
       = notifications (trace w)
         ++ map (fun cb => (l_id cb, "preservation", progress d'))
              (listeners d).
Proof.
  intros Hf. destruct d as [stg prg li tm ls ft fl fs].
  simpl in Hf. subst fl. cbn [lastInteraction listeners].
  unfold update, bind, this, assign, ret. cbn [fst snd isFlickering].
  cbn [set_stage set_progress lastInteraction progress stage timer listeners
       flickerTimer isFlickering flickerStartTime].
  set (t := since now li). set (C := Z.pos (timings_preservation cfg)).
  destruct (Z_lt_le_dec t C) as [Hlt|Hge].
  - destruct (min_one_lt t _ Hlt) as [Emin Ege]. fold C in Emin, Ege.
    rewrite Ege, notify_eq.
    eexists _, _. split; [reflexivity|]. cbn.
    repeat split; try reflexivity; try lia; try assumption.
    rewrite notifications_app, notifications_delivery. reflexivity.
  - destruct (min_one_ge t _ Hge) as [Emin Ege]. fold C in Emin, Ege.
    rewrite Ege.
    cbn [set_lastInteraction set_progress lastInteraction progress stage
         timer listeners flickerTimer isFlickering flickerStartTime fst snd].
    rewrite notify_eq.
    eexists _, _. split; [reflexivity|]. cbn.
    repeat split; try reflexivity; try lia.
    rewrite notifications_app, notifications_delivery. reflexivity.
Qed.

(** The spec's end-to-end scenario: 150000 ms into a 300000 ms cycle the
    progress reads one half. *)
Lemma update_steady_witness :
  exists d' w',
    update TANK_CONFIG 150000 150000 (steady_since 0, running_world)
    = (Normal tt, (d', w'))
    /\ progress d' = Num (JS.min (ratio 150000 300000) 1)
    /\ (JS.min (ratio 150000 300000) 1 == 1 # 2)%Q
    /\ lastInteraction d' = Some 0.
Proof.
  destruct (update_steady TANK_CONFIG (steady_since 0) running_world
              150000 150000 eq_refl)
    as (d' & w' & Hu & _ & _ & _ & Hlt & _).
  exists d', w'. split; [exact Hu|].
  assert (Hc : since 150000 (lastInteraction (steady_since 0))
               < Z.pos (timings_preservation TANK_CONFIG))
    by reflexivity.
  destruct (Hlt Hc) as (Hp & _ & Hl).
  split; [exact Hp|]. split; [vm_compute; reflexivity|exact Hl].
Defined.

(** *** The heartbeat during a flicker *)

(** C4, as stated, fails: a flicker entered at 50 ms is still the active
    state after the heartbeat at 1000 ms and is ended by the heartbeat at
    1100 ms, 1050 ms after entry. *)
Lemma flicker_duration_counterexample :
  let s1 := (run TANK_CONFIG (Start 0 :: ForceFlicker 50 :: beats)
               (initial, fresh_world)).2 in
  let s2 := (update TANK_CONFIG 1100 1100 s1).2 in
  isFlickering s1.1 = true
  /\ stage s1.1 = "flicker"
  /\ flickerStartTime s1.1 = Some 50
  /\ isFlickering s2.1 = false
  /\ stage s2.1 = "preservation"
  /\ 1100 - 50 <> 1000.
Proof. vm_compute. repeat split; try reflexivity. discriminate. Qed.

(** C4, amended: a heartbeat that finds the flicker state, entered at [t0],
    keeps it (with progress [(now - t0)/1000]) when its clock reading is
    less than 1000 ms after [t0], and otherwise returns to the steady state
    with progress 0; the 1000 ms are a constant of the code.  So, unless an
    interaction or a teardown ends it earlier, the flicker lasts until the
    first heartbeat at or after 1000 ms from entry. *)
Theorem update_flicker cfg d w now now' t0 :
  isFlickering d = true ->
  flickerStartTime d = Some t0 ->
  exists d' w',
    update cfg now now' (d, w) = (Normal tt, (d', w'))
    /\ listeners d' = listeners d
    /\ (now' - t0 < 1000 ->
        isFlickering d' = true
        /\ stage d' = stage d
        /\ progress d' = Num (ratio (now' - t0) 1000))
    /\ (1000 <= now' - t0 ->
        isFlickering d' = false
        /\ stage d' = "preservation"
        /\ progress d' = Num 0)
    /\ notifications (trace w')
       = notifications (trace w)
         ++ map (fun cb => (l_id cb, stage d', progress d')) (listeners d).
Proof.
  intros Hf Hs. destruct d as [stg prg li tm ls ft fl fs].
  simpl in Hf, Hs. subst fl fs. cbn [listeners stage].
  unfold update, bind, this, assign, ret. cbn [fst snd isFlickering].
  cbn [set_stage set_progress lastInteraction progress stage timer listeners
       flickerTimer isFlickering flickerStartTime].
  change 1000 with (Z.pos 1000).
  destruct (Z_lt_le_dec (now' - t0) (Z.pos 1000)) as [Hlt|Hge].
  - destruct (min_one_lt _ _ Hlt) as [Emin Ege]. rewrite Ege, notify_eq.
    eexists _, _. split; [reflexivity|]. cbn.
    repeat split; try reflexivity; try lia.
    + f_equal. exact Emin.
    + rewrite notifications_app, notifications_delivery. reflexivity.
  - destruct (min_one_ge _ _ Hge) as [Emin Ege]. rewrite Ege.
    cbn [set_stage set_isFlickering set_progress lastInteraction progress
         stage timer listeners flickerTimer isFlickering flickerStartTime
         fst snd].
    rewrite notify_eq.
    eexists _, _. split; [reflexivity|]. cbn.
    repeat split; try reflexivity; try lia.
    rewrite notifications_app, notifications_delivery. reflexivity.
Qed.

(** A flicker entered at 50 ms is ended by a heartbeat 1000 ms later. *)
Lemma update_flicker_witness :
  exists d' w',
    update TANK_CONFIG 1050 1050 (flickering_since 0 50, running_world)
    = (Normal tt, (d', w'))
    /\ isFlickering d' = false
    /\ stage d' = "preservation"
    /\ progress d' = Num 0.
Proof.
  destruct (update_flicker TANK_CONFIG (flickering_since 0 50) running_world
              1050 1050 50 eq_refl eq_refl)
    as (d' & w' & Hu & _ & _ & Hge & _).
  exists d', w'. split; [exact Hu|]. apply Hge. discriminate.
Defined.

(** *** The flicker flag and the stage agree *)

Lemma coherent_initial : coherent initial.
Proof. split; [discriminate|reflexivity]. Qed.

Lemma exec_coherent cfg o d w :
  plain o -> coherent d ->
  exists d' w', exec cfg o (d, w) = (Normal tt, (d', w')) /\ coherent d'.
Proof.
  intros Hp [Ht Hf]. destruct d as [stg prg li tm ls ft fl fs].
  cbn [isFlickering stage flickerStartTime] in Ht, Hf.
  destruct o; simpl in Hp; try contradiction; clear Hp;
    unfold exec, start, reset, update, triggerFlicker, forceFlicker,
      triggerFlicker, subscribe, pause, resume, destroy, startFlickerCycle,
      bind, this, assign, ret, emit, setInterval, clearInterval;
    cbn -[notify min_one ge_one].
  - rewrite notify_eq. eexists _, _. split; [reflexivity|].
    split; [discriminate|reflexivity].
  - destruct fl; cbn -[notify].
    + rewrite notify_eq. eexists _, _. split; [reflexivity|].
      split; [discriminate|reflexivity].
    + eexists _, _. split; [reflexivity|]. split; assumption.
  - destruct fl; cbn -[notify min_one ge_one].
    + destruct (ge_one _); cbn -[notify min_one];
        rewrite notify_eq; eexists _, _; (split; [reflexivity|]).
      * split; [discriminate|reflexivity].
      * split; [exact Ht|discriminate].
    + destruct (ge_one _); cbn -[notify min_one];
        rewrite notify_eq; eexists _, _; (split; [reflexivity|]);
        (split; [discriminate|reflexivity]).
  - destruct fl; cbn -[notify].
    + eexists _, _. split; [reflexivity|]. split; [exact Ht|discriminate].
    + rewrite notify_eq. eexists _, _. split; [reflexivity|].
      split; [intros _; split; [reflexivity|eexists; reflexivity]|discriminate].
  - destruct fl; cbn -[notify].
    + eexists _, _. split; [reflexivity|]. split; [exact Ht|discriminate].
    + rewrite notify_eq. eexists _, _. split; [reflexivity|].
      split; [intros _; split; [reflexivity|eexists; reflexivity]|discriminate].
  - destruct v; cbn; eexists _, _; (split; [reflexivity|]); split; assumption.
  - destruct tm, ft; cbn; eexists _, _; (split; [reflexivity|]);
      split; assumption.
  - destruct tm, ft; cbn; eexists _, _; (split; [reflexivity|]);
      split; assumption.
  - destruct tm, ft; cbn; eexists _, _; (split; [reflexivity|]);
      (split; [discriminate|reflexivity]).
Qed.

Lemma run_coherent cfg (os : list op) : forall d w,
  Forall plain os -> coherent d ->
  exists d' w', run cfg os (d, w) = (Normal tt, (d', w')) /\ coherent d'.
Proof.
  induction os as [|o os IH]; intros d w Hp Hc.
  - exists d, w. split; [reflexivity|exact Hc].
  - inversion Hp as [|? ? Ho Hos]; subst.
    destruct (exec_coherent cfg o d w Ho Hc) as (d1 & w1 & E1 & Hc1).
    destruct (IH d1 w1 Hos Hc1) as (d2 & w2 & E2 & Hc2).
    exists d2, w2. split; [|exact Hc2].
    unfold run in *. cbn [forEach]. unfold bind at 1. rewrite E1. exact E2.
Qed.

(** *** Interaction *)

(** C5: an interaction signal received in the flicker state returns the
    controller to the steady state with progress 0, moves the baseline to
    the time of the signal, and at once notifies every listener, in order,
    with [("preservation", 0)]: these are the next notifications made. *)
Theorem reset_during_flicker d w now :
  isFlickering d = true ->
  exists d' w',
    reset now (d, w) = (Normal tt, (d', w'))
    /\ stage d' = "preservation"
    /\ progress d' = Num 0
    /\ isFlickering d' = false
    /\ lastInteraction d' = Some now
    /\ listeners d' = listeners d
    /\ notifications (trace w')
       = notifications (trace w)
         ++ map (fun cb => (l_id cb, "preservation", Num 0)) (listeners d).
Proof.
  intros Hf. destruct d as [stg prg li tm ls ft fl fs].
  simpl in Hf. subst fl. cbn [listeners].
  unfold reset, bind, this, assign, ret. cbn [fst snd].
  cbn [set_stage set_progress set_isFlickering set_lastInteraction
       lastInteraction progress stage timer listeners
       flickerTimer isFlickering flickerStartTime].
  rewrite notify_eq.
  eexists _, _. split; [reflexivity|]. cbn.
  repeat split.
  rewrite notifications_app, notifications_delivery. reflexivity.
Qed.

Lemma reset_during_flicker_witness :
  exists d' w',
    reset 400 (flickering_since 0 50, running_world) = (Normal tt, (d', w'))
    /\ stage d' = "preservation"
    /\ progress d' = Num 0
    /\ isFlickering d' = false
    /\ lastInteraction d' = Some 400
    /\ listeners d' = listeners (flickering_since 0 50)
    /\ notifications (trace w')
       = notifications (trace running_world)
         ++ map (fun cb => (l_id cb, "preservation", Num 0))
              (listeners (flickering_since 0 50)).
Proof.
  apply (reset_during_flicker (flickering_since 0 50) running_world 400).
  reflexivity.
Defined.

(** *** Teardown *)

(** C7, as stated, fails on the progress: half way through a cycle,
    [destroy] leaves the progress at one half. *)
Lemma destroy_progress_counterexample :
  let s := (run TANK_CONFIG [Start 0; Update 150000 150000; Destroy]
              (initial, fresh_world)).2 in
  stage s.1 = "preservation"
  /\ exists q, progress s.1 = Num q /\ (q == 1 # 2)%Q /\ ~ (q == 0)%Q.
Proof.
  split; [vm_compute; reflexivity|].
  eexists. split; [vm_compute; reflexivity|].
  split; [reflexivity|discriminate].
Qed.

(** C7, amended: [destroy] clears both intervals of the controller and
    forgets their handles, empties the list of listeners, and sets the stage
    to the steady one with the flicker flag off; it notifies nobody and
    leaves the progress value as it is. *)
Theorem destroy_spec d w :
  exists d' w',
    destroy (d, w) = (Normal tt, (d', w'))
    /\ timer d' = None
    /\ flickerTimer d' = None
    /\ (forall h, timer d = Some h \/ flickerTimer d = Some h ->
                  intervals w' !! h = None)
    /\ listeners d' = []
    /\ stage d' = "preservation"
    /\ isFlickering d' = false
    /\ progress d' = progress d
    /\ notifications (trace w') = notifications (trace w).
Proof.
  destruct d as [stg prg li tm ls ft fl fs]. destruct w as [iv nh tr].
  unfold destroy, bind, this, assign, ret, clearInterval, emit.
  destruct tm as [h1|], ft as [h2|]; cbn;
    (eexists _, _; split; [reflexivity|]; cbn;
     repeat split; try reflexivity;
     [ intros h [H|H]; try discriminate; inversion H; subst h
     | rewrite notifications_app; simpl; apply app_nil_r ]).
  - destruct (decide (h2 = h1)) as [->|Hn].
    + apply lookup_delete_eq.
    + rewrite lookup_delete_ne by exact Hn. apply lookup_delete_eq.
  - apply lookup_delete_eq.
  - apply lookup_delete_eq.
  - apply lookup_delete_eq.
Qed.

(** *** Pause and resume *)

(** C8: [pause] clears both intervals of the controller and touches nothing
    else: listeners, stage, progress, flicker flag and the two time stamps
    stay, and nobody is notified.  [resume] after it installs the heartbeat
    (every 100 ms) and the flicker cycle (every configured interval) again,
    and again changes no other field and notifies nobody: no transition is
    triggered, and progress moves only when the next heartbeat runs. *)
Theorem pause_resume cfg d w :
  exists d1 w1 d2 w2,
    pause (d, w) = (Normal tt, (d1, w1))
    /\ resume cfg (d1, w1) = (Normal tt, (d2, w2))
    /\ (timer d1 = None /\ flickerTimer d1 = None
        /\ (forall h, timer d = Some h \/ flickerTimer d = Some h ->
                      intervals w1 !! h = None)
        /\ listeners d1 = listeners d
        /\ stage d1 = stage d
        /\ progress d1 = progress d
        /\ isFlickering d1 = isFlickering d
        /\ lastInteraction d1 = lastInteraction d
        /\ flickerStartTime d1 = flickerStartTime d
        /\ notifications (trace w1) = notifications (trace w))
    /\ (exists h1 h2,
          timer d2 = Some h1 /\ flickerTimer d2 = Some h2
          /\ intervals w2 !! h1 = Some (UpdateTask, 100)
          /\ intervals w2 !! h2
             = Some (FlickerTask, Z.pos (timings_flicker cfg)))
    /\ (listeners d2 = listeners d
        /\ stage d2 = stage d
        /\ progress d2 = progress d
        /\ isFlickering d2 = isFlickering d
        /\ lastInteraction d2 = lastInteraction d
        /\ flickerStartTime d2 = flickerStartTime d
        /\ notifications (trace w2) = notifications (trace w)).
Proof.
  destruct d as [stg prg li tm ls ft fl fs]. destruct w as [iv nh tr].
  unfold pause, resume, startFlickerCycle, bind, this, assign, ret,
    clearInterval, setInterval, emit.
  destruct tm as [t1|], ft as [t2|]; cbn;
    (eexists _, _, _, _; split; [reflexivity|]; split; [reflexivity|]; cbn;
     split; [|split]).
  all: try (exists nh, (Pos.succ nh); repeat split;
            [ rewrite lookup_insert_ne by lia; apply lookup_insert_eq
            | apply lookup_insert_eq ]).
  all: try (repeat split; try reflexivity;
            rewrite !notifications_app; simpl; rewrite ?app_nil_r;
            reflexivity).
  all: repeat split; try reflexivity;
    try (rewrite !notifications_app; simpl; rewrite ?app_nil_r; reflexivity);
    intros h [H|H]; try discriminate; inversion H; subst h;
    try apply lookup_delete_eq.
  destruct (decide (t2 = t1)) as [->|Hn].
  - apply lookup_delete_eq.
  - rewrite lookup_delete_ne by exact Hn. apply lookup_delete_eq.
Qed.

(** *** Subscription *)

Lemma subscribe_function f d w :
  subscribe (VFunction f) (d, w)
  = (Normal tt, (set_listeners (listeners d ++ [f]) d, w)).
Proof. reflexivity. Qed.

(** C9: [subscribe] with anything that is not a function logs an error and
    leaves the controller, in particular its list of listeners, as it was;
    so every later notification pass calls the listeners registered before
    and nothing else. *)
Theorem subscribe_non_function v d w :
  typeof v <> "function" ->
  exists w',
    subscribe v (d, w) = (Normal tt, (d, w'))
    /\ trace w'
       = trace w ++ [ConsoleError "❌ Subscribe requires a function callback" None]
    /\ intervals w' = intervals w
    /\ notifications (trace w') = notifications (trace w)
    /\ forall w2,
         notifications (trace (notify (d, w2)).2.2)
         = notifications (trace w2)
           ++ map (fun cb => (l_id cb, stage d, progress d)) (listeners d).
Proof.
  intros Hv.
  assert (Hn : forall w2,
             notifications (trace (notify (d, w2)).2.2)
             = notifications (trace w2)
               ++ map (fun cb => (l_id cb, stage d, progress d)) (listeners d)).
  { intros w2. rewrite notify_eq. simpl.
    rewrite notifications_app, notifications_delivery. reflexivity. }
  destruct v; simpl in Hv; try congruence;
    (eexists; split; [reflexivity|]; simpl; repeat split; try exact Hn;
     rewrite notifications_app; simpl; apply app_nil_r).
Qed.

Lemma subscribe_non_function_witness :
  exists w',
    subscribe (VString "callback") (steady_since 0, running_world)
    = (Normal tt, (steady_since 0, w'))
    /\ trace w'
       = trace running_world
         ++ [ConsoleError "❌ Subscribe requires a function callback" None]
    /\ intervals w' = intervals running_world
    /\ notifications (trace w') = notifications (trace running_world)
    /\ forall w2,
         notifications (trace (notify (steady_since 0, w2)).2.2)
         = notifications (trace w2)
           ++ map (fun cb => (l_id cb, stage (steady_since 0),
                              progress (steady_since 0)))
                (listeners (steady_since 0)).
Proof.
  apply (subscribe_non_function (VString "callback") (steady_since 0)
           running_world).
  discriminate.
Defined.

End TankDecayFacts.

(** ** The contact sounds and their cooldown *)

Module TankAudioFacts.
Import TankAudio.

Lemma sorted_snoc (l : list Z) (x : Z) :
  StronglySorted apart l ->
  Forall (fun a => apart a x) l ->
  StronglySorted apart (l ++ [x]).
Proof.
  induction 1 as [|a l Hs IH Ha]; intros Hx; simpl.
  - constructor; constructor.
  - inversion Hx as [|? ? Hax Hlx]; subst. constructor.
    + apply IH. exact Hlx.
    + apply Forall_app. split; [exact Ha|]. constructor; [exact Hax|constructor].
Qed.

Lemma sorted_lookup (l : list Z) : forall (i j : nat) a b,
  StronglySorted apart l ->
  (i < j)%nat -> l !! i = Some a -> l !! j = Some b -> apart a b.
Proof.
  induction l as [|x l IH]; intros i j a b Hs Hij Hi Hj.
  - discriminate.
  - inversion Hs as [|? ? Hs' Hx]; subst.
    destruct j as [|j]; [lia|]. simpl in Hj.
    destruct i as [|i]; simpl in Hi.
    + injection Hi as ->. rewrite Forall_forall in Hx. apply Hx.
      apply list_elem_of_lookup. eauto.
    + apply (IH i j); [exact Hs'|lia|exact Hi|exact Hj].
Qed.

Lemma sorted_filter (P : Z -> Prop) `{forall x, Decision (P x)} (l : list Z) :
  StronglySorted apart l -> StronglySorted apart (filter P l).
Proof.
  induction 1 as [|a l Hs IH Ha]; [constructor|].
  rewrite filter_cons. destruct (decide (P a)); [|exact IH].
  constructor; [exact IH|].
  rewrite Forall_forall in *. intros x Hx. apply Ha.
  apply list_elem_of_filter in Hx. tauto.
Qed.

(** In a window of three cooldowns there is room for three firings. *)
Lemma sorted_window (T : Z) (l : list Z) :
  StronglySorted apart l ->
  Forall (fun t => T <= t <= T + 3 * cooldown) l ->
  (length l <= 3)%nat.
Proof.
  intros Hs Hw.
  destruct l as [|a [|b [|c [|e l]]]]; simpl; try lia.
  exfalso.
  inversion Hs as [|? ? Hs1 Ha]; subst.
  inversion Hs1 as [|? ? Hs2 Hb]; subst.
  inversion Hs2 as [|? ? Hs3 Hc]; subst.
  inversion Ha as [|? ? Hab _]; subst.
  inversion Hb as [|? ? Hbc _]; subst.
  inversion Hc as [|? ? Hce _]; subst.
  inversion Hw as [|? ? Hwa Hw1]; subst.
  inversion Hw1 as [|? ? _ Hw2]; subst.
  inversion Hw2 as [|? ? _ Hw3]; subst.
  inversion Hw3 as [|? ? Hwe _]; subst.
  unfold apart, cooldown in *. lia.
Qed.

(** *** The map remembers the latest firing *)

Lemma lastTime_insert_eq (m : gmap JSString.t Z) id now :
  lastTime (<[id := now]> m) id = now.
Proof.
  unfold lastTime. rewrite lookup_insert_eq.
  destruct (Z.eqb_spec now 0); congruence.
Qed.

Lemma lastTime_insert_ne (m : gmap JSString.t Z) id id' now :
  id <> id' -> lastTime (<[id := now]> m) id' = lastTime m id'.
Proof. intros Hn. unfold lastTime. rewrite lookup_insert_ne by exact Hn. reflexivity. Qed.

Lemma fired_app id (l l' : list sound) :
  fired id (l ++ l') = fired id l ++ fired id l'.
Proof. unfold fired. apply omap_app. Qed.

Lemma inv_init : inv init.
Proof. intros id. split; constructor. Qed.

(** A sound that is no trigger under any key changes nothing. *)
Lemma inv_silent (s : state) (e : sound) lu cls :
  (forall id, fired id [e] = []) ->
  inv s ->
  inv {| lastUIContact := lu; lastTextContact := lastTextContact s;
         toggleClasses := cls; played := played s ++ [e] |}.
Proof.
  intros He Hi id. simpl. rewrite fired_app, He, app_nil_r. apply Hi.
Qed.

Lemma inv_contact (mk : JSString.t -> Z -> sound) beamY s visit :
  (forall i t id, fired id [mk i t] = if decide (i = id) then [t] else []) ->
  inv s -> inv (contact mk beamY s visit).
Proof.
  intros Hmk Hi. destruct visit as [el now]. unfold contact.
  destruct (inside beamY (rect el)); [|exact Hi].
  destruct (Z.ltb_spec 1000 (now - lastTime (lastTextContact s) (elementId el)))
    as [Hlt|_]; [|exact Hi].
  intros id. simpl. rewrite fired_app, Hmk.
  destruct (Hi id) as [Hs Hl].
  destruct (decide (elementId el = id)) as [<-|Hne].
  - rewrite lastTime_insert_eq. split.
    + apply sorted_snoc; [exact Hs|].
      eapply Forall_impl; [exact Hl|]. intros t Ht.
      unfold apart, cooldown. simpl in Ht. lia.
    + apply Forall_app. split.
      * eapply Forall_impl; [exact Hl|]. intros t Ht. simpl in Ht. lia.
      * constructor; [lia|constructor].
  - rewrite app_nil_r, lastTime_insert_ne by exact Hne. split; assumption.
Qed.

Lemma inv_fold (mk : JSString.t -> Z -> sound) beamY (l : list (element * Z)) :
  (forall i t id, fired id [mk i t] = if decide (i = id) then [t] else []) ->
  forall s, inv s -> inv (fold_left (contact mk beamY) l s).
Proof.
  intros Hmk. induction l as [|v l IH]; intros s Hi; simpl; [exact Hi|].
  apply IH. apply inv_contact; assumption.
Qed.

Lemma inv_toggle beamY s r : inv s -> inv (toggle beamY s r).
Proof.
  intros Hi. unfold toggle.
  destruct (inside beamY r).
  - destruct (decide (lastUIContact s = Some "audio-toggle")).
    + exact Hi.
    + apply inv_silent; [reflexivity|exact Hi].
  - exact Hi.
Qed.

Lemma inv_tick s d : inv s -> inv (tick s d).
Proof.
  intros Hi. unfold tick. destruct (beam d) as [[bt bh]|]; [|exact Hi].
  apply inv_fold.
  { intros i t id. simpl. destruct (decide (i = id)); reflexivity. }
  apply inv_fold.
  { intros i t id. simpl. destruct (decide (i = id)); reflexivity. }
  destruct (audioToggle d) as [r|].
  - apply inv_toggle. apply inv_silent; [reflexivity|exact Hi].
  - apply inv_silent; [reflexivity|exact Hi].
Qed.

Lemma inv_run_from (ds : list snapshot) : forall s,
  inv s -> inv (fold_left tick ds s).
Proof.
  induction ds as [|d ds IH]; intros s Hi; simpl; [exact Hi|].
  apply IH, inv_tick, Hi.
Qed.

Lemma inv_run ds : inv (run ds).
Proof. apply inv_run_from, inv_init. Qed.

(** The spec's scenario: in contact for 3000 ms, polled every 25 ms (121
    polls, both ends included), the title fires 3 times, 1025 ms apart. *)
Example held_fires_three :
  fired (elementId title) (played (run (held title 1700000000000 121)))
  = [1700000000000; 1700000001025; 1700000002050].
Proof. vm_compute. reflexivity. Qed.

End TankAudioFacts.

(** ** The specimen registry *)

Module SpecimensFacts.
Import Specimens.

(** What the per-entry checks give for the entry at a position. *)
Lemma slots_ok_lookup (l : list specimen) : forall (n i : nat) s,
  slots_ok n l = true ->
  l !! i = Some s ->
  id s = Z.of_nat (n + i) + 1
  /\ (status s = "contained" \/ status s = "vacant").
Proof.
  induction l as [|x l IH]; intros n i s Hok Hi; [discriminate|].
  simpl in Hok. apply andb_true_iff in Hok as [Hx Hl].
  destruct i as [|i]; simpl in Hi.
  - injection Hi as ->. unfold slot_ok in Hx.
    apply andb_true_iff in Hx as [Hid Hst].
    apply Z.eqb_eq in Hid. apply bool_decide_eq_true in Hst.
    split; [rewrite Hid; f_equal; lia|].
    apply elem_of_cons in Hst as [Hst|Hst]; [left; exact Hst|].
    apply elem_of_cons in Hst as [Hst|Hst]; [right; exact Hst|].
    apply elem_of_nil in Hst. contradiction.
  - destruct (IH (S n) i s Hl Hi) as [Hid Hst].
    split; [rewrite Hid; f_equal; lia|exact Hst].
Qed.

(** Checked entries have pairwise different ids. *)
Lemma slots_ok_unique (l : list specimen) s s' :
  slots_ok 0 l = true ->
  s ∈ l -> s' ∈ l -> id s = id s' -> s = s'.
Proof.
  intros Hok Hs Hs' Hid.
  apply list_elem_of_lookup in Hs as [i Hi].
  apply list_elem_of_lookup in Hs' as [j Hj].
  destruct (slots_ok_lookup l 0 i s Hok Hi) as [Ei _].
  destruct (slots_ok_lookup l 0 j s' Hok Hj) as [Ej _].
  assert (i = j) by lia. subst j. congruence.
Qed.

Lemma slots_ok_status (l : list specimen) s :
  slots_ok 0 l = true -> s ∈ l ->
  status s = "contained" \/ status s = "vacant".
Proof.
  intros Hok Hs. apply list_elem_of_lookup in Hs as [i Hi].
  exact (proj2 (slots_ok_lookup l 0 i s Hok Hi)).
Qed.

Lemma id_is_same v s s' : id_is v s = true -> id_is v s' = true -> id s = id s'.
Proof.
  destruct v; simpl; try discriminate.
  intros H1 H2. apply Z.eqb_eq in H1, H2. congruence.
Qed.

(** In a checked registry, [getById] finds the entry that has the id. *)
Lemma getById_spec this v s :
  slots_ok 0 (registry this) = true ->
  getById this v = Some s <-> s ∈ registry this /\ id_is v s = true.
Proof.
  intros Hok. unfold getById. split.
  - intros H. apply find_some in H as [Hin Hid].
    split; [apply list_elem_of_In; exact Hin|exact Hid].
  - intros [Hin Hid].
    destruct (find (id_is v) (registry this)) as [s'|] eqn:E.
    + apply find_some in E as [Hin' Hid'].
      f_equal. apply (slots_ok_unique (registry this)); try assumption.
      * apply list_elem_of_In. exact Hin'.
      * apply (id_is_same v); assumption.
    + apply list_elem_of_In in Hin.
      pose proof (find_none _ _ E s Hin) as Hn. congruence.
Qed.

Lemma validate_slots_ok this : validate this = true -> slots_ok 0 (registry this) = true.
Proof.
  unfold validate. intros H.
  apply andb_true_iff in H as [H _]. apply andb_true_iff in H as [H _].
  exact H.
Qed.

Example registry_valid : validate SPECIMENS = true.
Proof. vm_compute. reflexivity. Qed.

Example registry_v32_slots_ok : slots_ok 0 (registry SPECIMENS_v32) = true.
Proof. vm_compute. reflexivity. Qed.

Example popup_of_slot2 :
  p_code <$> (getPopupContent SPECIMENS (VNumber 2)).1 = Some "LEAK-WORM-575E"
  /\ p_status <$> (getPopupContent SPECIMENS (VNumber 2)).1 = Some "CONTAINED".
Proof. split; vm_compute; reflexivity. Qed.

Example no_popup_for_text_id : (getPopupContent SPECIMENS (VString "2")).1 = None.
Proof. vm_compute. reflexivity. Qed.

(** [getById] compares with [===]: only the number that is the id matches. *)
Lemma id_is_number v s : id_is v s = true <-> v = VNumber (id s).
Proof.
  destruct v; cbn; try (split; [discriminate|intros [=]]).
  rewrite Z.eqb_eq. split; [intros ->; reflexivity|intros [= ->]; reflexivity].
Qed.

(** C10: on a registry whose entries pass the checks of [validate] (ids by
    position, status contained or vacant), [getPopupContent] returns a popup
    exactly when its argument is the number that is the id of an entry of
    the registry whose status is contained; for an argument that is the id
    of no entry (a number that no entry has, or a value that is not a
    number, such as the id written as a string) and for the id of a vacant
    entry it returns null; and the object is the same after the call. *)
Theorem getPopupContent_spec this v :
  slots_ok 0 (registry this) = true ->
  (getPopupContent this v).2 = this
  /\ ((getPopupContent this v).1 <> None
      <-> exists s, s ∈ registry this /\ v = VNumber (id s)
                    /\ status s = "contained")
  /\ ((forall s, s ∈ registry this -> v <> VNumber (id s)) ->
      (getPopupContent this v).1 = None)
  /\ (forall s, s ∈ registry this -> v = VNumber (id s) ->
                status s = "vacant" ->
                (getPopupContent this v).1 = None).
Proof.
  intros Hok. unfold getPopupContent.
  destruct (getById this v) as [sp|] eqn:E.
  - apply (getById_spec this v sp Hok) in E as [Hin Hid].
    destruct (decide (status sp = "vacant")) as [Hv|Hv]; simpl.
    + split; [reflexivity|]. split; [|split].
      * split; [congruence|]. intros (s & Hs & Hids & Hst).
        apply id_is_number in Hids.
        assert (s = sp).
        { apply (slots_ok_unique (registry this)); try assumption.
          apply (id_is_same v); assumption. }
        subst s. congruence.
      * reflexivity.
      * reflexivity.
    + split; [reflexivity|]. split; [|split].
      * split; [|discriminate]. intros _. exists sp.
        split; [exact Hin|]. split; [apply id_is_number; exact Hid|].
        destruct (slots_ok_status _ sp Hok Hin); [assumption|contradiction].
      * intros Hno. apply id_is_number in Hid.
        exfalso. exact (Hno sp Hin Hid).
      * intros s Hs Hids Hst. apply id_is_number in Hids.
        assert (s = sp).
        { apply (slots_ok_unique (registry this)); try assumption.
          apply (id_is_same v); assumption. }
        subst s. contradiction.
  - simpl. split; [reflexivity|]. split; [|split]; try reflexivity.
    split; [congruence|]. intros (s & Hs & Hids & _).
    apply id_is_number in Hids.
    assert (getById this v = Some s) as E'
      by (apply getById_spec; [exact Hok|split; assumption]).
    congruence.
Qed.

(** On the registry of the release: a popup for id 2, which is contained,
    none for id 5, which is vacant, none for id 13, which no entry has, and
    none for the text "2". *)
Lemma getPopupContent_spec_witness :
  (getPopupContent SPECIMENS (VNumber 2)).2 = SPECIMENS
  /\ (getPopupContent SPECIMENS (VNumber 2)).1 <> None
  /\ (getPopupContent SPECIMENS (VNumber 5)).1 = None
  /\ (getPopupContent SPECIMENS (VNumber 13)).1 = None
  /\ (getPopupContent SPECIMENS (VString "2")).1 = None.
Proof.
  assert (Hok : slots_ok 0 (registry SPECIMENS) = true)
    by (vm_compute; reflexivity).
  destruct (getPopupContent_spec SPECIMENS (VNumber 2) Hok)
    as (H1 & H2 & _ & _).
  destruct (getPopupContent_spec SPECIMENS (VNumber 5) Hok)
    as (_ & _ & _ & H5).
  destruct (getPopupContent_spec SPECIMENS (VNumber 13) Hok)
    as (_ & _ & H13 & _).
  destruct (getPopupContent_spec SPECIMENS (VString "2") Hok)
    as (_ & _ & Hs & _).
  split; [exact H1|]. split; [|split; [|split]].
  - apply H2. exists slot2. split; [right; left|]. split; reflexivity.
  - apply (H5 (vacant 2 3)).
    + do 4 right. left.
    + reflexivity.
    + reflexivity.
  - apply H13. intros s Hs' E. injection E as E.
    apply list_elem_of_lookup in Hs' as [i Hi].
    destruct (slots_ok_lookup _ 0 i s Hok Hi) as [Hid _].
    apply lookup_lt_Some in Hi. cbn in Hi. lia.
  - apply Hs. intros s _ E. discriminate.
Defined.

End SpecimensFacts.

(** ** More on the specimen registry *)

Module SpecimensMore.
Import Specimens SpecimensFacts.

(** In a checked registry the ids are the positions: [getById] is a lookup by
    index, and anything that is not a number from 1 to the number of slots
    finds nothing. *)
Theorem getById_position this v :
  slots_ok 0 (registry this) = true ->
  getById this v
  = match v with
    | VNumber n =>
        if decide (1 <= n) then registry this !! Z.to_nat (n - 1) else None
    | _ => None
    end.
Proof.
  intros Hok.
  destruct (getById this v) as [s|] eqn:E.
  - apply (getById_spec this v s Hok) in E as [Hin Hid].
    destruct v; simpl in Hid; try discriminate.
    apply Z.eqb_eq in Hid.
    apply list_elem_of_lookup in Hin as [i Hi].
    destruct (slots_ok_lookup _ 0 i s Hok Hi) as [Ei _].
    assert (n = Z.of_nat i + 1) as -> by (simpl in Ei; lia).
    destruct (decide (1 <= Z.of_nat i + 1)); [|lia].
    replace (Z.to_nat (Z.of_nat i + 1 - 1)) with i by lia.
    symmetry. exact Hi.
  - destruct v; try reflexivity.
    destruct (decide (1 <= n)); [|reflexivity].
    destruct (registry this !! Z.to_nat (n - 1)) as [s|] eqn:Hi; [|reflexivity].
    exfalso.
    destruct (slots_ok_lookup _ 0 _ s Hok Hi) as [Ei _].
    assert (getById this (VNumber n) = Some s) as E'.
    { apply getById_spec; [exact Hok|]. split.
      - apply list_elem_of_lookup. eauto.
      - simpl. apply Z.eqb_eq. simpl in Ei. lia. }
    congruence.
Qed.

Lemma getById_position_witness :
  getById SPECIMENS (VNumber 12)
  = if decide (1 <= 12) then registry SPECIMENS !! Z.to_nat (12 - 1) else None.
Proof.
  apply (getById_position SPECIMENS (VNumber 12)). vm_compute. reflexivity.
Defined.

Lemma slots_ok_partition (l : list specimen) : forall n,
  slots_ok n l = true ->
  (length (filter (fun s => status s = "contained") l)
   + length (filter (fun s => status s = "vacant") l) = length l)%nat.
Proof.
  induction l as [|x l IH]; intros n Hok; [reflexivity|].
  pose proof (slots_ok_lookup (x :: l) n 0 x Hok eq_refl) as [_ Hst].
  simpl in Hok. apply andb_true_iff in Hok as [_ Hl].
  specialize (IH _ Hl). rewrite !filter_cons.
  destruct Hst as [Hst|Hst]; rewrite Hst; simpl; lia.
Qed.

Lemma slots_ok_ids (l : list specimen) : forall n,
  slots_ok n l = true ->
  map id l = map (fun i => Z.of_nat i + 1) (seq n (length l)).
Proof.
  induction l as [|x l IH]; intros n Hok; [reflexivity|].
  pose proof (slots_ok_lookup (x :: l) n 0 x Hok eq_refl) as [Hid _].
  simpl in Hok. apply andb_true_iff in Hok as [_ Hl].
  simpl. rewrite (IH _ Hl). f_equal. rewrite Hid. f_equal. lia.
Qed.

(** A registry that passes [validate] has twelve slots with the ids 1 to 12,
    two of them active and the ten others empty. *)
Theorem validate_counts this :
  validate this = true ->
  getAllIds this = [1; 2; 3; 4; 5; 6; 7; 8; 9; 10; 11; 12]
  /\ countActive this = 2%nat
  /\ countEmpty this = 10%nat.
Proof.
  intros Hv. pose proof (validate_slots_ok this Hv) as Hok.
  unfold validate in Hv.
  apply andb_true_iff in Hv as [Hv Hact]. apply andb_true_iff in Hv as [_ Hlen].
  apply Nat.eqb_eq in Hact, Hlen.
  split; [|split].
  - unfold getAllIds. rewrite (slots_ok_ids _ 0 Hok), Hlen. reflexivity.
  - exact Hact.
  - pose proof (slots_ok_partition _ 0 Hok) as Hp.
    unfold countEmpty, getEmpty. unfold countActive, getActive in Hact. lia.
Qed.

Lemma validate_counts_witness :
  getAllIds SPECIMENS = [1; 2; 3; 4; 5; 6; 7; 8; 9; 10; 11; 12]
  /\ countActive SPECIMENS = 2%nat
  /\ countEmpty SPECIMENS = 10%nat.
Proof. apply (validate_counts SPECIMENS). vm_compute. reflexivity. Defined.

(** Outside the checked registries the two views can disagree: an entry with
    a third status has a popup, yet its membrane is neither clickable nor
    empty. *)
Example escaped_is_inconsistent :
  (getPopupContent escaped_registry (VNumber 1)).1 <> None
  /\ (clickable <$> getMembraneData escaped_registry (VNumber 1)) = Some false
  /\ (isEmpty <$> getMembraneData escaped_registry (VNumber 1)) = Some false.
Proof. vm_compute. repeat split; try discriminate. Qed.

(** In a checked registry the membrane view and the popup agree: a popup is
    offered exactly for the ids whose membrane is clickable, a membrane is
    either clickable or empty, and it is empty exactly when no popup is
    offered; an id without membrane data has no popup either. *)
Theorem membrane_popup_agree this v :
  slots_ok 0 (registry this) = true ->
  ((getPopupContent this v).1 <> None
   <-> exists m, getMembraneData this v = Some m /\ clickable m = true)
  /\ (forall m, getMembraneData this v = Some m ->
                clickable m = negb (isEmpty m)
                /\ (isEmpty m = true <-> (getPopupContent this v).1 = None))
  /\ (getMembraneData this v = None -> (getPopupContent this v).1 = None).
Proof.
  intros Hok. unfold getPopupContent, getMembraneData.
  destruct (getById this v) as [s|] eqn:E.
  - apply (getById_spec this v s Hok) in E as [Hin _].
    pose proof (slots_ok_status _ s Hok Hin) as Hst.
    destruct (decide (status s = "vacant")) as [Hv|Hv]; simpl.
    + split; [|split].
      * split; [congruence|]. intros (m & Hm & Hc). injection Hm as <-.
        simpl in Hc. apply bool_decide_eq_true in Hc. congruence.
      * intros m Hm. injection Hm as <-. simpl. rewrite Hv.
        split; [reflexivity|]. split; intros _; reflexivity.
      * discriminate.
    + assert (Hc : status s = "contained") by tauto.
      split; [|split].
      * split; [|discriminate]. intros _. eexists. split; [reflexivity|].
        simpl. apply bool_decide_eq_true. exact Hc.
      * intros m Hm. injection Hm as <-. simpl. rewrite Hc.
        split; [reflexivity|]. split; discriminate.
      * discriminate.
  - simpl. split; [|split].
    + split; [congruence|]. intros (m & Hm & _). discriminate.
    + discriminate.
    + reflexivity.
Qed.

Lemma membrane_popup_agree_witness :
  ((getPopupContent SPECIMENS (VNumber 3)).1 <> None
   <-> exists m, getMembraneData SPECIMENS (VNumber 3) = Some m
                 /\ clickable m = true)
  /\ (forall m, getMembraneData SPECIMENS (VNumber 3) = Some m ->
                clickable m = negb (isEmpty m)
                /\ (isEmpty m = true
                    <-> (getPopupContent SPECIMENS (VNumber 3)).1 = None))
  /\ (getMembraneData SPECIMENS (VNumber 3) = None ->
      (getPopupContent SPECIMENS (VNumber 3)).1 = None).
Proof.
  apply (membrane_popup_agree SPECIMENS (VNumber 3)). vm_compute. reflexivity.
Defined.

(** Every popup handed out from a checked registry is that of a contained
    specimen: it shows the status CONTAINED, repeats the code, address and
    password of the entry with the id, and offers the two buttons, the
    navigating one being the primary one. *)
Theorem popup_content this v p :
  slots_ok 0 (registry this) = true ->
  (getPopupContent this v).1 = Some p ->
  p_status p = "CONTAINED"
  /\ p_title p = "SPECIMEN CONTAINMENT PROTOCOL"
  /\ (exists s, getById this v = Some s
                /\ status s = "contained"
                /\ p_code p = code s
                /\ p_url p = url s
                /\ p_password p = password s
                /\ p_description p = description s
                /\ p_warning p = warning s)
  /\ map (fun b => (action b, primary b)) (p_buttons p)
     = [("navigate", true); ("close", false)].
Proof.
  intros Hok. unfold getPopupContent.
  destruct (getById this v) as [s|] eqn:E; [|discriminate].
  pose proof E as E0.
  apply (getById_spec this v s Hok) in E as [Hin _].
  pose proof (slots_ok_status _ s Hok Hin) as Hst.
  destruct (decide (status s = "vacant")) as [Hv|Hv]; [discriminate|].
  assert (Hc : status s = "contained") by tauto.
  simpl. intros Hp. injection Hp as <-. simpl. rewrite Hc.
  split; [reflexivity|]. split; [reflexivity|]. split; [|reflexivity].
  exists s. repeat split; try reflexivity. exact Hc.
Qed.

Lemma popup_content_witness :
  exists p,
    (getPopupContent SPECIMENS (VNumber 1)).1 = Some p
    /\ p_status p = "CONTAINED"
    /\ p_code p = "LEAK-WORM-847T".
Proof.
  destruct (getPopupContent SPECIMENS (VNumber 1)).1 as [p|] eqn:E;
    [|vm_compute in E; discriminate].
  exists p. split; [reflexivity|].
  assert (Hok : slots_ok 0 (registry SPECIMENS) = true)
    by (vm_compute; reflexivity).
  destruct (popup_content SPECIMENS (VNumber 1) p Hok E)
    as (Hs & _ & (s & Hg & _ & Hc & _) & _).
  split; [exact Hs|]. rewrite Hc.
  vm_compute in Hg. injection Hg as <-. reflexivity.
Defined.

Lemma find_first {A} (f : A -> bool) (l : list A) x :
  find f l = Some x ->
  exists i : nat,
    l !! i = Some x /\ f x = true
    /\ forall (j : nat) y, (j < i)%nat -> l !! j = Some y -> f y = false.
Proof.
  induction l as [|a l IH]; [discriminate|]. simpl.
  destruct (f a) eqn:Ea.
  - intros H. injection H as <-. exists 0%nat.
    split; [reflexivity|]. split; [exact Ea|]. intros j y Hj. lia.
  - intros H. destruct (IH H) as (i & Hi & Hx & Hmin).
    exists (S i). split; [exact Hi|]. split; [exact Hx|].
    intros [|j] y Hj Hy; simpl in Hy.
    + injection Hy as <-. exact Ea.
    + apply (Hmin j); [lia|exact Hy].
Qed.

(** In a checked registry [getByCode] returns the lowest-numbered slot that
    carries the code, and looking that slot up by its id gives the same
    entry back; so of several slots with one code, such as the empty ones,
    only the first can be reached by code. *)
Theorem getByCode_first this v s :
  slots_ok 0 (registry this) = true ->
  getByCode this v = Some s ->
  code_is v s = true
  /\ getById this (VNumber (id s)) = Some s
  /\ forall s', s' ∈ registry this -> code_is v s' = true -> id s <= id s'.
Proof.
  intros Hok Hc. unfold getByCode in Hc.
  apply find_first in Hc as (i & Hi & Hx & Hmin).
  destruct (slots_ok_lookup _ 0 i s Hok Hi) as [Ei _].
  split; [exact Hx|]. split.
  - apply getById_spec; [exact Hok|]. split.
    + apply list_elem_of_lookup. eauto.
    + simpl. apply Z.eqb_refl.
  - intros s' Hin Hs'. apply list_elem_of_lookup in Hin as [j Hj].
    destruct (slots_ok_lookup _ 0 j s' Hok Hj) as [Ej _].
    destruct (Nat.lt_ge_cases j i) as [Hlt|Hge].
    + rewrite (Hmin j s' Hlt Hj) in Hs'. discriminate.
    + simpl in Ei, Ej. lia.
Qed.

Lemma getByCode_first_witness :
  code_is (VString "[EMPTY]") (vacant 0 3) = true
  /\ getById SPECIMENS (VNumber (id (vacant 0 3))) = Some (vacant 0 3)
  /\ forall s', s' ∈ registry SPECIMENS ->
                code_is (VString "[EMPTY]") s' = true ->
                id (vacant 0 3) <= id s'.
Proof.
  apply (getByCode_first SPECIMENS (VString "[EMPTY]") (vacant 0 3));
    vm_compute; reflexivity.
Defined.

End SpecimensMore.

(** ** More on the lifecycle controller *)

Module TankDecayMore.
Import TankDecay TankDecayFacts.

(** Unfolding of the monadic plumbing, leaving [notify] alone. *)
Ltac step :=
  unfold exec, start, reset, update, triggerFlicker, forceFlicker, setStage,
    subscribe, pause, resume, destroy, startFlickerCycle,
    bind, this, assign, ret, emit, setInterval, clearInterval;
  cbn -[notify min_one ge_one].

Lemma run_cons cfg o os s s1 :
  exec cfg o s = (Normal tt, s1) -> run cfg (o :: os) s = run cfg os s1.
Proof. intros E. unfold run. cbn [forEach]. unfold bind at 1. rewrite E. reflexivity. Qed.

Lemma notifications_logged w es :
  notifications (trace (logged w es))
  = notifications (trace w) ++ notifications es.
Proof. apply notifications_app. Qed.

(** *** A flicker from entry to end *)

(** A flicker leaves the steady cycle as it found it.  From the steady state,
    a trigger at [t0], a second trigger while the first flicker lasts, and a
    heartbeat at least 1000 ms after [t0] end in the steady state with
    progress 0; the second trigger neither notifies nor restarts the
    flicker; the baseline of the steady cycle, the listeners and the timers
    are untouched; and the listeners have been told [("flicker", 0)] and then
    [("preservation", 0)], once each. *)
Theorem flicker_round_trip cfg d w t0 t1 now now' :
  isFlickering d = false ->
  1000 <= now' - t0 ->
  exists d' w',
    run cfg [TriggerFlicker t0; TriggerFlicker t1; Update now now'] (d, w)
    = (Normal tt, (d', w'))
    /\ stage d' = "preservation"
    /\ progress d' = Num 0
    /\ isFlickering d' = false
    /\ lastInteraction d' = lastInteraction d
    /\ listeners d' = listeners d
    /\ timer d' = timer d
    /\ flickerTimer d' = flickerTimer d
    /\ intervals w' = intervals w
    /\ notifications (trace w')
       = notifications (trace w)
         ++ map (fun cb => (l_id cb, "flicker", Num 0)) (listeners d)
         ++ map (fun cb => (l_id cb, "preservation", Num 0)) (listeners d).
Proof.
  intros Hf Hge. destruct d as [stg prg li tm ls ft fl fs].
  simpl in Hf. subst fl.
  unfold run. cbn [forEach]. step. rewrite notify_eq. step.
  change 1000 with (Z.pos 1000) in *.
  destruct (min_one_ge _ _ Hge) as [_ Ege]. rewrite Ege. step.
  rewrite notify_eq.
  eexists _, _. split; [reflexivity|]. cbn.
  repeat split.
  rewrite !notifications_app, !notifications_delivery. simpl.
  rewrite app_nil_r, <- app_assoc. reflexivity.
Qed.

Lemma flicker_round_trip_witness :
  exists d' w',
    run TANK_CONFIG [TriggerFlicker 10000; TriggerFlicker 10500;
                     Update 11000 11000] (steady_since 0, running_world)
    = (Normal tt, (d', w'))
    /\ stage d' = "preservation"
    /\ progress d' = Num 0
    /\ isFlickering d' = false
    /\ lastInteraction d' = lastInteraction (steady_since 0)
    /\ listeners d' = listeners (steady_since 0)
    /\ timer d' = timer (steady_since 0)
    /\ flickerTimer d' = flickerTimer (steady_since 0)
    /\ intervals w' = intervals running_world
    /\ notifications (trace w')
       = notifications (trace running_world)
         ++ map (fun cb => (l_id cb, "flicker", Num 0))
              (listeners (steady_since 0))
         ++ map (fun cb => (l_id cb, "preservation", Num 0))
              (listeners (steady_since 0)).
Proof.
  apply (flicker_round_trip TANK_CONFIG (steady_since 0) running_world
           10000 10500 11000 11000).
  - reflexivity.
  - discriminate.
Defined.

(** *** What every run keeps *)

(** Whatever sequence of calls is made on the loaded object, short of the
    debugging override [setStage], each call returns normally and the
    controller ends in one of two shapes: stage flicker with the flicker flag
    set and an entry time recorded, or stage preservation with the flag
    clear. *)
Theorem run_two_states cfg (os : list op) w :
  Forall plain os ->
  exists d' w',
    run cfg os (initial, w) = (Normal tt, (d', w'))
    /\ ((stage d' = "flicker" /\ isFlickering d' = true
         /\ is_Some (flickerStartTime d'))
        \/ (stage d' = "preservation" /\ isFlickering d' = false)).
Proof.
  intros Hp.
  destruct (run_coherent cfg os initial w Hp coherent_initial)
    as (d' & w' & E & Ht & Hf).
  exists d', w'. split; [exact E|].
  destruct (isFlickering d') eqn:Efl.
  - left. destruct (Ht eq_refl). tauto.
  - right. split; [apply Hf|]; reflexivity.
Qed.

Lemma run_two_states_witness :
  exists d' w',
    run TANK_CONFIG [Start 0; Subscribe (VFunction (quiet 1)); Update 100 100;
                     ForceFlicker 150; Reset 170; Pause; Resume; Destroy]
      (initial, fresh_world)
    = (Normal tt, (d', w'))
    /\ ((stage d' = "flicker" /\ isFlickering d' = true
         /\ is_Some (flickerStartTime d'))
        \/ (stage d' = "preservation" /\ isFlickering d' = false)).
Proof.
  apply (run_two_states TANK_CONFIG).
  repeat constructor.
Defined.

(** A heartbeat never broadcasts a full progress: from a state in which flag
    and stage agree, the progress after [update] is a number below 1, and
    it is not negative when the clock has not gone back behind the baseline
    (in the steady state) or the entry of the flicker. *)
Theorem update_progress_range cfg d w now now' :
  coherent d ->
  exists d' w' q,
    update cfg now now' (d, w) = (Normal tt, (d', w'))
    /\ progress d' = Num q
    /\ (q < 1)%Q
    /\ ((isFlickering d = false -> 0 <= since now (lastInteraction d)) ->
        (forall t0, isFlickering d = true -> flickerStartTime d = Some t0 ->
                    t0 <= now') ->
        (0 <= q)%Q).
Proof.
  intros [Ht Hf]. destruct d as [stg prg li tm ls ft fl fs].
  cbn [isFlickering stage flickerStartTime lastInteraction] in *.
  destruct fl.
  - destruct (Ht eq_refl) as [_ [t0 Hs]]. subst fs. step.
    change 1000 with (Z.pos 1000).
    destruct (Z_lt_le_dec (now' - t0) (Z.pos 1000)) as [Hlt|Hge].
    + destruct (min_one_lt _ _ Hlt) as [Emin Ege]. rewrite Ege, notify_eq.
      eexists _, _, _. split; [reflexivity|]. cbn -[JS.min ratio].
      split; [reflexivity|]. rewrite Emin. split.
      * apply ratio_lt_one. exact Hlt.
      * intros _ H0. specialize (H0 t0 eq_refl eq_refl).
        unfold ratio, Qdiv, Qle. simpl. lia.
    + destruct (min_one_ge _ _ Hge) as [_ Ege]. rewrite Ege. step.
      rewrite notify_eq.
      eexists _, _, _. split; [reflexivity|]. cbn.
      split; [reflexivity|]. split; [reflexivity|]. intros _ _. discriminate.
  - step.
    destruct (Z_lt_le_dec (since now li) (Z.pos (timings_preservation cfg)))
      as [Hlt|Hge].
    + destruct (min_one_lt _ _ Hlt) as [Emin Ege]. rewrite Ege, notify_eq.
      eexists _, _, _. split; [reflexivity|]. cbn -[JS.min ratio].
      split; [reflexivity|]. rewrite Emin. split.
      * apply ratio_lt_one. exact Hlt.
      * intros H0 _. specialize (H0 eq_refl).
        unfold ratio, Qdiv, Qle. simpl. lia.
    + destruct (min_one_ge _ _ Hge) as [_ Ege]. rewrite Ege. step.
      rewrite notify_eq.
      eexists _, _, _. split; [reflexivity|]. cbn.
      split; [reflexivity|]. split; [reflexivity|]. intros _ _. discriminate.
Qed.

Lemma update_progress_range_witness :
  exists d' w' q,
    update TANK_CONFIG 299999 299999 (steady_since 0, running_world)
    = (Normal tt, (d', w'))
    /\ progress d' = Num q
    /\ (q < 1)%Q.
Proof.
  assert (Hc : coherent (steady_since 0))
    by (split; [discriminate|reflexivity]).
  destruct (update_progress_range TANK_CONFIG (steady_since 0) running_world
              299999 299999 Hc) as (d' & w' & q & E & Hp & Hq & _).
  exists d', w', q. auto.
Defined.

(** *** Subscribing *)

Lemma errors_app tr tr' : errors (tr ++ tr') = errors tr ++ errors tr'.
Proof. apply omap_app. Qed.

Lemma functions_length vs : (length (functions vs) <= length vs)%nat.
Proof.
  unfold functions, omap. induction vs as [|v vs IH]; [reflexivity|].
  destruct v; simpl; lia.
Qed.

Lemma subscribe_other v d w :
  typeof v <> "function" ->
  subscribe v (d, w)
  = (Normal tt,
     (d, logged w [ConsoleError "❌ Subscribe requires a function callback" None]))
  /\ forall vs, functions (v :: vs) = functions vs.
Proof. destruct v; simpl; intros H; try congruence; split; reflexivity. Qed.

(** Handing a sequence of values to [subscribe] appends the functions among
    them to the listeners, in the order given and without removing repeats;
    every other value costs one logged error; nothing else changes and
    nobody is notified. *)
Theorem subscribe_all cfg (vs : list value) : forall d w,
  exists w',
    run cfg (map Subscribe vs) (d, w)
    = (Normal tt, (set_listeners (listeners d ++ functions vs) d, w'))
    /\ intervals w' = intervals w
    /\ nextHandle w' = nextHandle w
    /\ notifications (trace w') = notifications (trace w)
    /\ (length (errors (trace w'))
        = length (errors (trace w)) + (length vs - length (functions vs)))%nat.
Proof.
  induction vs as [|v vs IH]; intros d w.
  - exists w. cbn. rewrite app_nil_r. destruct d. repeat split. lia.
  - pose proof (functions_length vs) as Hlen.
    destruct (decide (typeof v = "function")) as [Hf|Hf].
    + destruct v; try discriminate. clear Hf.
      destruct (IH (set_listeners (listeners d ++ [f]) d) w)
        as (w' & E & Hi & Hn & Hno & He).
      exists w'. split.
      * cbn [map].
        rewrite (run_cons cfg (Subscribe (VFunction f)) _ (d, w) _
                   (subscribe_function f d w)).
        rewrite E. destruct d. cbn. rewrite <- app_assoc. reflexivity.
      * repeat split; assumption.
    + destruct (subscribe_other v d w Hf) as [Es Efun].
      destruct (IH d (logged w
         [ConsoleError "❌ Subscribe requires a function callback" None]))
        as (w' & E & Hi & Hn & Hno & He).
      exists w'. split.
      * cbn [map]. rewrite (run_cons cfg (Subscribe v) _ (d, w) _ Es).
        rewrite E, Efun. reflexivity.
      * split; [exact Hi|]. split; [exact Hn|]. split.
        -- rewrite Hno, notifications_logged. simpl. apply app_nil_r.
        -- rewrite He, Efun. unfold logged. simpl trace.
           rewrite errors_app, length_app. simpl. lia.
Qed.

(** *** Timers *)

(** [start] does not look at the timers already running: called on a
    controller whose intervals are live, it installs two more and forgets
    the old handles, so that neither [pause] nor [destroy] stops the old
    intervals any more. *)
Theorem start_leaks_intervals cfg d w now h x :
  timer d = Some h \/ flickerTimer d = Some h ->
  intervals w !! h = Some x ->
  (h < nextHandle w)%positive ->
  exists d1 w1 d2 w2 d3 w3,
    start cfg now (d, w) = (Normal tt, (d1, w1))
    /\ pause (d1, w1) = (Normal tt, (d2, w2))
    /\ destroy (d1, w1) = (Normal tt, (d3, w3))
    /\ timer d1 <> Some h /\ flickerTimer d1 <> Some h
    /\ intervals w1 !! h = Some x
    /\ intervals w2 !! h = Some x
    /\ intervals w3 !! h = Some x.
Proof.
  intros Hh Hx Hlt. destruct d as [stg prg li tm ls ft fl fs].
  destruct w as [iv nh tr]. cbn [timer flickerTimer intervals nextHandle] in *.
  step. rewrite notify_eq. step.
  eexists _, _, _, _, _, _.
  split; [reflexivity|]. split; [reflexivity|]. split; [reflexivity|].
  cbn.
  assert (Hlook : forall m : gmap positive (task * Z),
             m !! h = Some x ->
             delete (Pos.succ nh) (delete nh m) !! h = Some x).
  { intros m Hm. rewrite !lookup_delete_ne by lia. exact Hm. }
  assert (Hins : <[Pos.succ nh:=(FlickerTask, Z.pos (timings_flicker cfg))]>
                   (<[nh:=(UpdateTask, 100)]> iv) !! h = Some x).
  { rewrite !lookup_insert_ne by lia. exact Hx. }
  split; [intros E; injection E; lia|].
  split; [intros E; injection E; lia|].
  split; [exact Hins|]. split; apply Hlook, Hins.
Qed.

Lemma start_leaks_intervals_witness :
  exists d1 w1 d2 w2 d3 w3,
    start TANK_CONFIG 500 (steady_since 0, running_world) = (Normal tt, (d1, w1))
    /\ pause (d1, w1) = (Normal tt, (d2, w2))
    /\ destroy (d1, w1) = (Normal tt, (d3, w3))
    /\ timer d1 <> Some 1%positive /\ flickerTimer d1 <> Some 1%positive
    /\ intervals w1 !! 1%positive = Some (UpdateTask, 100)
    /\ intervals w2 !! 1%positive = Some (UpdateTask, 100)
    /\ intervals w3 !! 1%positive = Some (UpdateTask, 100).
Proof.
  apply (start_leaks_intervals TANK_CONFIG (steady_since 0) running_world 500
           1%positive (UpdateTask, 100)).
  - left. reflexivity.
  - vm_compute. reflexivity.
  - reflexivity.
Defined.

(** [pause] and [resume] can be repeated: a second [resume] installs no
    further interval and a second [pause] clears none; each leaves the object
    and the table of intervals as the first one left them. *)
Theorem pause_resume_idempotent cfg d w :
  exists d1 w1 w1' d2 w2 w2',
    resume cfg (d, w) = (Normal tt, (d1, w1))
    /\ resume cfg (d1, w1) = (Normal tt, (d1, w1'))
    /\ intervals w1' = intervals w1
    /\ nextHandle w1' = nextHandle w1
    /\ pause (d, w) = (Normal tt, (d2, w2))
    /\ pause (d2, w2) = (Normal tt, (d2, w2'))
    /\ intervals w2' = intervals w2
    /\ nextHandle w2' = nextHandle w2.
Proof.
  destruct d as [stg prg li tm ls ft fl fs]. destruct w as [iv nh tr].
  destruct tm, ft; step;
    eexists _, _, _, _, _, _; repeat split.
Qed.

(** *** Interaction, override, teardown *)

(** An interaction restarts the steady cycle whatever the state was: after
    [reset] at [t], also in the middle of a flicker, the next heartbeat finds
    the steady state and broadcasts the time elapsed since [t] over the
    cycle length (here for a heartbeat within one cycle of [t]). *)
Theorem reset_restarts_cycle cfg d w t now now' :
  now - t < Z.pos (timings_preservation cfg) ->
  exists d' w',
    run cfg [Reset t; Update now now'] (d, w) = (Normal tt, (d', w'))
    /\ stage d' = "preservation"
    /\ isFlickering d' = false
    /\ lastInteraction d' = Some t
    /\ progress d' = Num (ratio (now - t) (Z.pos (timings_preservation cfg)))
    /\ listeners d' = listeners d
    /\ (forall i s p,
          (i, s, p) ∈ notifications (trace w') ->
          (i, s, p) ∈ notifications (trace w) \/ s = "preservation").
Proof.
  intros Hlt. destruct d as [stg prg li tm ls ft fl fs].
  destruct (min_one_lt _ _ Hlt) as [Emin Ege].
  unfold run. cbn [forEach]. destruct fl; step.
  - rewrite notify_eq. step. rewrite Ege, notify_eq.
    eexists _, _. split; [reflexivity|]. cbn -[JS.min ratio].
    rewrite Emin. repeat split.
    intros i s p. rewrite !notifications_app, !notifications_delivery.
    cbn -[JS.min ratio]. rewrite !elem_of_app, !list_elem_of_fmap.
    intros [[H|(cb & E & _)]|(cb & E & _)]; [left; exact H| |];
      right; congruence.
  - rewrite Ege, notify_eq.
    eexists _, _. split; [reflexivity|]. cbn -[JS.min ratio].
    rewrite Emin. repeat split.
    intros i s p. rewrite !notifications_app, !notifications_delivery.
    cbn -[JS.min ratio]. rewrite !elem_of_app, !list_elem_of_fmap.
    intros [H|(cb & E & _)]; [left; exact H|]. right. congruence.
Qed.

Lemma reset_restarts_cycle_witness :
  exists d' w',
    run TANK_CONFIG [Reset 400; Update 1000 1000]
      (flickering_since 0 50, running_world)
    = (Normal tt, (d', w'))
    /\ stage d' = "preservation"
    /\ isFlickering d' = false
    /\ lastInteraction d' = Some 400
    /\ progress d' = Num (ratio (1000 - 400) 300000).
Proof.
  destruct (reset_restarts_cycle TANK_CONFIG (flickering_since 0 50)
              running_world 400 1000 1000)
    as (d' & w' & E & H1 & H2 & H3 & H4 & _); [reflexivity|].
  exists d', w'. auto.
Defined.

Lemma update_steady_shape cfg d w now now' :
  isFlickering d = false ->
  exists d' w',
    update cfg now now' (d, w) = (Normal tt, (d', w'))
    /\ stage d' = "preservation"
    /\ isFlickering d' = false
    /\ listeners d' = listeners d.
Proof.
  intros Hf. destruct d as [stg prg li tm ls ft fl fs].
  simpl in Hf. subst fl. step.
  match goal with |- context [ge_one ?x] => destruct (ge_one x) end;
    step; rewrite notify_eq; eexists _, _; (split; [reflexivity|]);
    cbn; repeat split.
Qed.

(** The override [setStage] is not a flicker: called in the steady state with
    any stage, also ["flicker"], it notifies the listeners with the given
    pair but leaves the flicker flag clear and records no entry time, and the
    next heartbeat puts the stage back to preservation. *)
Theorem setStage_is_undone cfg d w s p now now' :
  isFlickering d = false ->
  exists d1 w1 d2 w2,
    setStage s p (d, w) = (Normal tt, (d1, w1))
    /\ update cfg now now' (d1, w1) = (Normal tt, (d2, w2))
    /\ stage d1 = s /\ progress d1 = p
    /\ isFlickering d1 = false
    /\ flickerStartTime d1 = flickerStartTime d
    /\ notifications (trace w1)
       = notifications (trace w) ++ map (fun cb => (l_id cb, s, p)) (listeners d)
    /\ stage d2 = "preservation"
    /\ isFlickering d2 = false.
Proof.
  intros Hf.
  assert (E1 : setStage s p (d, w)
               = (Normal tt,
                  (set_progress p (set_stage s d),
                   logged w (flat_map (delivery (set_progress p (set_stage s d)))
                               (listeners d))))).
  { step. rewrite notify_eq. destruct d. reflexivity. }
  destruct (update_steady_shape cfg (set_progress p (set_stage s d))
              (logged w (flat_map (delivery (set_progress p (set_stage s d)))
                           (listeners d))) now now')
    as (d2 & w2 & E2 & Hs2 & Hf2 & _).
  { destruct d. exact Hf. }
  eexists _, _, d2, w2. split; [exact E1|]. split; [exact E2|].
  destruct d; cbn in *. repeat split; try assumption.
  rewrite notifications_app, notifications_delivery. reflexivity.
Qed.

Lemma setStage_is_undone_witness :
  exists d1 w1 d2 w2,
    setStage "flicker" (Num 0) (steady_since 0, running_world)
    = (Normal tt, (d1, w1))
    /\ update TANK_CONFIG 100 100 (d1, w1) = (Normal tt, (d2, w2))
    /\ stage d1 = "flicker"
    /\ isFlickering d1 = false
    /\ stage d2 = "preservation".
Proof.
  destruct (setStage_is_undone TANK_CONFIG (steady_since 0) running_world
              "flicker" (Num 0) 100 100 eq_refl)
    as (d1 & w1 & d2 & w2 & E1 & E2 & H1 & _ & H2 & _ & _ & H3 & _).
  exists d1, w1, d2, w2. auto.
Defined.

Lemma exec_silent cfg o d w :
  ~ registers o -> listeners d = [] ->
  exists d' w',
    exec cfg o (d, w) = (Normal tt, (d', w'))
    /\ listeners d' = []
    /\ notifications (trace w') = notifications (trace w).
Proof.
  intros Hr Hl. destruct d as [stg prg li tm ls ft fl fs].
  simpl in Hl. subst ls. destruct w as [iv nh tr].
  destruct o; step.
  - rewrite notify_eq. eexists _, _. split; [reflexivity|]. cbn.
    split; [reflexivity|]. rewrite !notifications_app. cbn.
    rewrite !app_nil_r. reflexivity.
  - destruct fl; step; [rewrite notify_eq|];
      eexists _, _; (split; [reflexivity|]); cbn; (split; [reflexivity|]);
      rewrite ?notifications_app; cbn; rewrite ?app_nil_r; reflexivity.
  - destruct fl; step;
      match goal with |- context [ge_one ?x] => destruct (ge_one x) end;
      step; rewrite notify_eq;
      eexists _, _; (split; [reflexivity|]); cbn; (split; [reflexivity|]);
      rewrite ?notifications_app; cbn; rewrite ?app_nil_r; reflexivity.
  - destruct fl; step; [|rewrite notify_eq];
      eexists _, _; (split; [reflexivity|]); cbn; (split; [reflexivity|]);
      rewrite ?notifications_app; cbn; rewrite ?app_nil_r; reflexivity.
  - destruct fl; step; [|rewrite notify_eq];
      eexists _, _; (split; [reflexivity|]); cbn; (split; [reflexivity|]);
      rewrite ?notifications_app; cbn; rewrite ?app_nil_r; reflexivity.
  - destruct v; try (exfalso; apply Hr; exact I); step;
      eexists _, _; (split; [reflexivity|]); cbn; (split; [reflexivity|]);
      rewrite ?notifications_app; cbn; rewrite ?app_nil_r; reflexivity.
  - rewrite notify_eq. eexists _, _. split; [reflexivity|]. cbn.
    split; [reflexivity|]. rewrite !notifications_app. cbn.
    rewrite !app_nil_r. reflexivity.
  - destruct tm, ft; step;
      eexists _, _; (split; [reflexivity|]); cbn; (split; [reflexivity|]);
      rewrite ?notifications_app; cbn; rewrite ?app_nil_r; reflexivity.
  - destruct tm, ft; step;
      eexists _, _; (split; [reflexivity|]); cbn; (split; [reflexivity|]);
      rewrite ?notifications_app; cbn; rewrite ?app_nil_r; reflexivity.
  - destruct tm, ft; step;
      eexists _, _; (split; [reflexivity|]); cbn; (split; [reflexivity|]);
      rewrite ?notifications_app; cbn; rewrite ?app_nil_r; reflexivity.
Qed.

Lemma run_silent cfg (os : list op) : forall d w,
  Forall (fun o => ~ registers o) os -> listeners d = [] ->
  exists d' w',
    run cfg os (d, w) = (Normal tt, (d', w'))
    /\ listeners d' = []
    /\ notifications (trace w') = notifications (trace w).
Proof.
  induction os as [|o os IH]; intros d w Hr Hl.
  - exists d, w. repeat split; [exact Hl].
  - inversion Hr as [|? ? Ho Hos]; subst.
    destruct (exec_silent cfg o d w Ho Hl) as (d1 & w1 & E1 & Hl1 & Hn1).
    destruct (IH d1 w1 Hos Hl1) as (d2 & w2 & E2 & Hl2 & Hn2).
    exists d2, w2. split; [rewrite (run_cons _ _ _ _ _ E1); exact E2|].
    split; [exact Hl2|]. congruence.
Qed.

(** [destroy] unsubscribes for good: whatever is called afterwards,
    heartbeats, flickers, a new [start] included, no listener registered
    before the teardown is called again, until functions are subscribed
    anew. *)
Theorem destroy_silences cfg (os : list op) d w :
  Forall (fun o => ~ registers o) os ->
  exists d' w',
    run cfg (Destroy :: os) (d, w) = (Normal tt, (d', w'))
    /\ listeners d' = []
    /\ notifications (trace w') = notifications (trace w).
Proof.
  intros Hr.
  assert (exists d1 w1, destroy (d, w) = (Normal tt, (d1, w1))
                        /\ listeners d1 = []
                        /\ notifications (trace w1) = notifications (trace w))
    as (d1 & w1 & E1 & Hl1 & Hn1).
  { destruct d as [stg prg li tm ls ft fl fs]. destruct w as [iv nh tr].
    destruct tm, ft; step;
      eexists _, _; (split; [reflexivity|]); cbn; (split; [reflexivity|]);
      rewrite notifications_app; cbn; apply app_nil_r. }
  destruct (run_silent cfg os d1 w1 Hr Hl1) as (d2 & w2 & E2 & Hl2 & Hn2).
  exists d2, w2. split.
  - rewrite (run_cons cfg Destroy os (d, w) (d1, w1) E1). exact E2.
  - split; [exact Hl2|]. congruence.
Qed.

Lemma destroy_silences_witness :
  exists d' w',
    run TANK_CONFIG [Destroy; Start 1000; Update 1100 1100; ForceFlicker 1150;
                     Subscribe VNull; Reset 1200]
      (steady_since 0, running_world)
    = (Normal tt, (d', w'))
    /\ listeners d' = []
    /\ notifications (trace w') = notifications (trace running_world).
Proof.
  apply (destroy_silences TANK_CONFIG).
  repeat (constructor; [intros H; exact H|]). constructor.
Defined.

End TankDecayMore.

(** ** More on the collision poll *)

Module TankBeamMore.
Import TankBeam TankBeamFacts.
#[local] Set Warnings "-clear-no-such-hyp".

(** The loop body, case by case. *)
Lemma check_target_cases w buf beamY a t :
  check_target w buf beamY a t
  = if pruned w buf t then (a, t)
    else if touching beamY t then
      ({| a_glow := {["approaching"]} ∪ a_glow a;
          a_hotspot := {["active"]} ∪ a_hotspot a; hit := true |},
       {| rect := rect t;
          classList := {["beam-contact"]} ∪ ({["beam-approaching"]} ∪ classList t);
          organism := set_organism (organism t) "1" |})
    else if near beamY t then
      ({| a_glow := {["approaching"]} ∪ a_glow a;
          a_hotspot := a_hotspot a; hit := hit a |},
       {| rect := rect t;
          classList := ({["beam-approaching"]} ∪ classList t) ∖ {["beam-contact"]};
          organism := set_organism (organism t) "0.3" |})
    else
      (a,
       {| rect := rect t;
          classList := classList t ∖ {["beam-contact"; "beam-approaching"]};
          organism := set_organism (organism t) "0" |}).
Proof.
  unfold check_target, touching, near.
  destruct (pruned w buf t); [reflexivity|].
  destruct (isInBounds beamY t && Double.lt (distance beamY t) 60);
    [|reflexivity].
  cbv zeta. cbn [andb].
  destruct (Double.lt (distance beamY t)
              (Double.max 20 (height (rect t) / 2)));
    reflexivity.
Qed.

Lemma poll_target isMobile w b beamRect ts (i : nat) t :
  isPaused b = false ->
  body b = Some beamRect ->
  ts !! i = Some t ->
  pruned w (buffer isMobile) t = false ->
  exists t',
    (poll isMobile w b ts).2 !! i = Some t'
    /\ rect t' = rect t
    /\ classify t'
       = (if touching (scanY beamRect) t then Contact
          else if near (scanY beamRect) t then Approaching else Idle)
    /\ organism t'
       = set_organism (organism t) (opacity (scanY beamRect) t)
    /\ (forall c, c <> "beam-contact" -> c <> "beam-approaching" ->
                  c ∈ classList t' <-> c ∈ classList t).
Proof.
  intros Hp Hb Ht Hpr.
  set (a0 := {| a_glow := ∅; a_hotspot := ∅; hit := false |}).
  exists (check_target w (buffer isMobile) (scanY beamRect) a0 t).2.
  split.
  { rewrite (poll_lookup isMobile w b beamRect ts i a0 Hp Hb), Ht.
    reflexivity. }
  rewrite check_target_cases, Hpr. unfold opacity, classify.
  destruct (touching (scanY beamRect) t); [|destruct (near (scanY beamRect) t)];
    cbn [snd rect classList organism];
    (split; [reflexivity|]); (split; [|split; [reflexivity|]]).
  - destruct (decide _) as [|Hn]; [reflexivity|]. exfalso. apply Hn. set_solver.
  - intros c H1 H2. set_solver.
  - destruct (decide _) as [Hy|_]; [exfalso; set_solver|].
    destruct (decide _) as [|Hn]; [reflexivity|]. exfalso. apply Hn. set_solver.
  - intros c H1 H2. set_solver.
  - destruct (decide _) as [Hy|_]; [exfalso; set_solver|].
    destruct (decide _) as [Hy|_]; [exfalso; set_solver|]. reflexivity.
  - intros c H1 H2. set_solver.
Qed.

(** Every examined target is classified afresh, whatever classes it carried:
    contact when the three tests of the loop body hold (the scan line
    within the padded bounds, its distance from the centre below 60 and
    below the contact threshold), approaching when the first two hold only,
    idle otherwise; the organism, if there is one, gets the opacity that
    goes with the class; the box and all other classes stay. *)
Theorem poll_classifies isMobile w b beamRect ts (i : nat) t :
  isPaused b = false ->
  body b = Some beamRect ->
  ts !! i = Some t ->
  pruned w (buffer isMobile) t = false ->
  exists t',
    (poll isMobile w b ts).2 !! i = Some t'
    /\ rect t' = rect t
    /\ classify t'
       = (if touching (scanY beamRect) t then Contact
          else if near (scanY beamRect) t then Approaching else Idle)
    /\ organism t'
       = set_organism (organism t) (opacity (scanY beamRect) t)
    /\ (forall c, c <> "beam-contact" -> c <> "beam-approaching" ->
                  c ∈ classList t' <-> c ∈ classList t).
Proof. apply poll_target. Qed.

Lemma poll_classifies_witness :
  exists t',
    (poll false desktop (beam_at 140) [region 100 40]).2 !! 0%nat = Some t'
    /\ rect t' = rect (region 100 40)
    /\ classify t' = Approaching.
Proof.
  destruct (poll_classifies false desktop (beam_at 140) (beam_rect 140)
              [region 100 40] 0%nat (region 100 40))
    as (t' & E & Hr & Hc & _); try reflexivity.
  exists t'. split; [exact E|]. split; [exact Hr|].
  rewrite Hc. vm_compute. reflexivity.
Defined.

(** *** What a poll leaves alone *)

(** A poll does nothing at all while the beam is paused or has no body: the
    targets keep whatever classes the last running poll gave them.  In a poll
    that runs, a target outside the widened viewport is skipped in the same
    way. *)
Theorem poll_skips isMobile w b ts :
  (isPaused b = true \/ body b = None -> poll isMobile w b ts = (b, ts))
  /\ (forall beamRect (i : nat) t,
        isPaused b = false -> body b = Some beamRect ->
        ts !! i = Some t -> pruned w (buffer isMobile) t = true ->
        (poll isMobile w b ts).2 !! i = Some t).
Proof.
  split.
  - intros [H|H]; unfold poll; [rewrite H; reflexivity|].
    destruct (isPaused b); [reflexivity|]. rewrite H. reflexivity.
  - intros beamRect i t Hp Hb Ht Hpr.
    rewrite (poll_lookup isMobile w b beamRect ts i
               {| a_glow := ∅; a_hotspot := ∅; hit := false |} Hp Hb), Ht.
    simpl. rewrite check_target_cases, Hpr. reflexivity.
Qed.

(** *** The two indicators *)

Lemma union_twice (x : string) (X : gset string) :
  {[x]} ∪ ({[x]} ∪ X) = {[x]} ∪ X.
Proof. set_solver. Qed.

(** What the loop leaves in the carried values. *)
Lemma forEach_acc w buf beamY (ts : list target) : forall a,
  let r := (forEach w buf beamY a ts).1 in
  let T := existsb (fun t => negb (pruned w buf t) && touching beamY t) ts in
  let N := existsb (fun t => negb (pruned w buf t) && near beamY t) ts in
  hit r = hit a || T
  /\ a_hotspot r = (if T then {["active"]} ∪ a_hotspot a else a_hotspot a)
  /\ a_glow r = (if N then {["approaching"]} ∪ a_glow a else a_glow a).
Proof.
  induction ts as [|t ts IH]; intros a; cbn [forEach existsb].
  - cbn [fst]. rewrite orb_false_r. repeat split.
  - destruct (check_target w buf beamY a t) as [a1 t1] eqn:E1.
    specialize (IH a1).
    destruct (forEach w buf beamY a1 ts) as [a2 ts2]. cbn [fst] in *.
    rewrite check_target_cases in E1.
    destruct IH as (Hh & Hs & Hg).
    assert (Htn : touching beamY t = true -> near beamY t = true).
    { unfold touching. intros H. apply andb_true_iff in H. tauto. }
    destruct (pruned w buf t); cbn [negb andb orb].
    + injection E1 as <- <-. repeat split; assumption.
    + destruct (touching beamY t) eqn:Et.
      * rewrite (Htn eq_refl). injection E1 as <- <-.
        rewrite Hh, Hs, Hg. cbn [hit a_hotspot a_glow orb].
        rewrite orb_true_r. split; [reflexivity|].
        split;
          repeat match goal with
                 | |- context [existsb ?f ts] => destruct (existsb f ts)
                 end;
          rewrite ?union_twice; reflexivity.
      * destruct (near beamY t); injection E1 as <- <-;
          rewrite Hh, Hs, Hg; cbn [hit a_hotspot a_glow orb];
          (split; [reflexivity|]); (split; [reflexivity|]);
          repeat match goal with
                 | |- context [existsb ?f ts] => destruct (existsb f ts)
                 end;
          rewrite ?union_twice; reflexivity.
Qed.

(** After a poll that runs, the hotspot is active exactly when some examined
    target is in contact, and so is the glow's approaching mark: a target
    that is merely approaching does not keep the glow lit.  The other classes
    of both elements stay. *)
Theorem poll_indicators isMobile w b beamRect ts :
  isPaused b = false ->
  body b = Some beamRect ->
  let b' := (poll isMobile w b ts).1 in
  let contact :=
    exists t, t ∈ ts /\ pruned w (buffer isMobile) t = false
              /\ touching (scanY beamRect) t = true in
  ("active" ∈ hotspot b' <-> contact)
  /\ ("approaching" ∈ glow b' <-> contact)
  /\ (forall c, c <> "active" -> c ∈ hotspot b' <-> c ∈ hotspot b)
  /\ (forall c, c <> "approaching" -> c ∈ glow b' <-> c ∈ glow b).
Proof.
  intros Hp Hb. unfold poll. rewrite Hp, Hb.
  pose proof (forEach_acc w (buffer isMobile) (scanY beamRect) ts
                {| a_glow := glow b; a_hotspot := hotspot b; hit := false |})
    as H.
  destruct (forEach _ _ _ _ ts) as [a ts']. cbn [fst] in *. cbv zeta in H.
  destruct H as (Hh & Hs & Hg). cbn [hit a_hotspot a_glow orb] in *.
  set (T := existsb _ ts) in Hh, Hs.
  set (N := existsb _ ts) in Hg.
  assert (HT : T = true <->
               exists t, t ∈ ts /\ pruned w (buffer isMobile) t = false
                         /\ touching (scanY beamRect) t = true).
  { unfold T. rewrite existsb_exists. split.
    - intros (t & Hin & Ht). exists t. apply andb_true_iff in Ht as [H1 H2].
      apply negb_true_iff in H1. rewrite list_elem_of_In. tauto.
    - intros (t & Hin & H1 & H2). exists t. rewrite <- list_elem_of_In.
      split; [exact Hin|]. rewrite H1, H2. reflexivity. }
  assert (HTN : T = true -> N = true).
  { unfold T, N. rewrite !existsb_exists. intros (t & Hin & Ht).
    exists t. split; [exact Hin|].
    apply andb_true_iff in Ht as [H1 H2]. rewrite H1. simpl.
    unfold touching in H2. apply andb_true_iff in H2. tauto. }
  rewrite Hh. destruct T eqn:ET; cbn [fst hotspot glow].
  - rewrite Hs, Hg, (HTN eq_refl). repeat split; set_solver.
  - rewrite Hs, Hg. destruct N; repeat split; set_solver.
Qed.

Lemma poll_indicators_witness :
  "active" ∈ hotspot (poll false desktop (beam_at 125) [region 100 40]).1
  <-> exists t, t ∈ [region 100 40]
                /\ pruned desktop (buffer false) t = false
                /\ touching (scanY (beam_rect 125)) t = true.
Proof.
  destruct (poll_indicators false desktop (beam_at 125) (beam_rect 125)
              [region 100 40] eq_refl eq_refl) as (H & _).
  exact H.
Defined.

(** *** Polling again *)

(** The tests of the loop body read the box only. *)
Lemma tests_by_rect w buf beamY t t' :
  rect t' = rect t ->
  pruned w buf t' = pruned w buf t
  /\ near beamY t' = near beamY t
  /\ touching beamY t' = touching beamY t.
Proof.
  intros E. unfold touching, near, pruned, isInBounds, distance, targetY, bottom.
  rewrite E. repeat split.
Qed.

Lemma check_target_rect w buf beamY a t :
  rect (check_target w buf beamY a t).2 = rect t.
Proof.
  rewrite check_target_cases.
  destruct (pruned w buf t); [reflexivity|].
  destruct (touching beamY t); [reflexivity|].
  destruct (near beamY t); reflexivity.
Qed.

Lemma set_organism_twice o v : set_organism (set_organism o v) v = set_organism o v.
Proof. destruct o; reflexivity. Qed.

Lemma check_target_again w buf beamY a a' t :
  (check_target w buf beamY a' (check_target w buf beamY a t).2).2
  = (check_target w buf beamY a t).2.
Proof.
  destruct (tests_by_rect w buf beamY t (check_target w buf beamY a t).2
              (check_target_rect w buf beamY a t)) as (Hp & Hn & Ht).
  rewrite (check_target_cases w buf beamY a'), Hp, Hn, Ht.
  rewrite (check_target_cases w buf beamY a).
  destruct (pruned w buf t); [reflexivity|].
  destruct (touching beamY t);
    [|destruct (near beamY t)]; cbn [snd rect classList organism];
    rewrite set_organism_twice; f_equal; set_solver.
Qed.

Lemma forEach_map w buf beamY a0 (ts : list target) : forall a,
  (forEach w buf beamY a ts).2
  = map (fun t => (check_target w buf beamY a0 t).2) ts.
Proof.
  induction ts as [|t ts IH]; intros a; cbn [forEach map]; [reflexivity|].
  destruct (check_target w buf beamY a t) as [a1 t1] eqn:E1.
  specialize (IH a1).
  destruct (forEach w buf beamY a1 ts) as [a2 ts2]. cbn [snd] in *.
  rewrite IH. f_equal. change t1 with (a1, t1).2. rewrite <- E1.
  apply check_target_snd.
Qed.

(** A running poll, in closed form. *)
Lemma poll_closed isMobile w b beamRect ts :
  isPaused b = false ->
  body b = Some beamRect ->
  let a0 := {| a_glow := ∅; a_hotspot := ∅; hit := false |} in
  let T := existsb (fun t => negb (pruned w (buffer isMobile) t)
                             && touching (scanY beamRect) t) ts in
  poll isMobile w b ts
  = ({| isPaused := false; body := Some beamRect;
        glow := if T then {["approaching"]} ∪ glow b
                else glow b ∖ {["approaching"]};
        hotspot := if T then {["active"]} ∪ hotspot b
                   else hotspot b ∖ {["active"]} |},
     map (fun t => (check_target w (buffer isMobile) (scanY beamRect) a0 t).2)
       ts).
Proof.
  intros Hp Hb a0 T. unfold poll. rewrite Hp, Hb.
  pose proof (forEach_acc w (buffer isMobile) (scanY beamRect) ts
                {| a_glow := glow b; a_hotspot := hotspot b; hit := false |})
    as H.
  pose proof (forEach_map w (buffer isMobile) (scanY beamRect) a0 ts
                {| a_glow := glow b; a_hotspot := hotspot b; hit := false |})
    as Hm.
  destruct (forEach _ _ _ _ ts) as [a ts']. cbn [fst snd] in *. cbv zeta in H.
  destruct H as (Hh & Hs & Hg). cbn [hit a_hotspot a_glow orb] in *.
  fold T in Hh, Hs. set (N := existsb _ ts) in Hg.
  assert (HTN : T = true -> N = true).
  { unfold T, N. rewrite !existsb_exists. intros (t & Hin & Ht).
    exists t. split; [exact Hin|].
    apply andb_true_iff in Ht as [H1 H2]. rewrite H1. simpl.
    unfold touching in H2. apply andb_true_iff in H2. tauto. }
  rewrite Hh, Hm, Hs, Hg. destruct T.
  - rewrite (HTN eq_refl). reflexivity.
  - f_equal. f_equal. destruct N; set_solver.
Qed.

(** Polling is level-triggered: with the geometry unchanged, a second poll
    changes nothing that the first one left, neither on the targets nor on
    the beam's own elements. *)
Theorem poll_idempotent isMobile w b ts :
  poll isMobile w (poll isMobile w b ts).1 (poll isMobile w b ts).2
  = poll isMobile w b ts.
Proof.
  destruct (isPaused b) eqn:Hp.
  { unfold poll. rewrite Hp. cbn [fst snd]. rewrite Hp. reflexivity. }
  destruct (body b) as [beamRect|] eqn:Hb.
  2: { unfold poll. rewrite Hp, Hb. cbn [fst snd]. rewrite Hp, Hb. reflexivity. }
  rewrite (poll_closed isMobile w b beamRect ts Hp Hb). cbv zeta. cbn [fst snd].
  rewrite (poll_closed isMobile w
             {| isPaused := false; body := Some beamRect;
                glow := _; hotspot := _ |} beamRect _ eq_refl eq_refl).
  cbv zeta.
  cbn [glow hotspot].
  set (a0 := {| a_glow := ∅; a_hotspot := ∅; hit := false |}).
  set (chk := fun t => (check_target w (buffer isMobile) (scanY beamRect) a0 t).2).
  assert (HT : existsb (fun t => negb (pruned w (buffer isMobile) t)
                                 && touching (scanY beamRect) t) (map chk ts)
               = existsb (fun t => negb (pruned w (buffer isMobile) t)
                                   && touching (scanY beamRect) t) ts).
  { clear. induction ts as [|t ts IH]; [reflexivity|]. cbn [map existsb].
    rewrite IH. f_equal.
    destruct (tests_by_rect w (buffer isMobile) (scanY beamRect) t (chk t)
                (check_target_rect _ _ _ _ _)) as (H1 & _ & H3).
    rewrite H1, H3. reflexivity. }
  rewrite HT. f_equal.
  - destruct (existsb _ ts); f_equal; set_solver.
  - rewrite map_map. apply map_ext. intros t. apply check_target_again.
Qed.

End TankBeamMore.

(** ** More on the contact sounds *)

Module TankAudioMore.
Import TankAudio TankAudioFacts.
#[local] Set Warnings "-clear-no-such-hyp".

Lemma run_snoc ds d : run (ds ++ [d]) = tick (run ds) d.
Proof. unfold run. rewrite fold_left_app. reflexivity. Qed.

Lemma toggles_app l l' : toggles (l ++ l') = (toggles l + toggles l')%nat.
Proof. unfold toggles. rewrite omap_app, length_app. reflexivity. Qed.

(** The two text loops leave the toggle's variables alone. *)
Lemma contact_frame mk y s v :
  (forall i t, toggles [mk i t] = 0%nat) ->
  lastUIContact (contact mk y s v) = lastUIContact s
  /\ toggleClasses (contact mk y s v) = toggleClasses s
  /\ toggles (played (contact mk y s v)) = toggles (played s).
Proof.
  intros Hmk. destruct v as [el now]. unfold contact.
  destruct (inside y (rect el)); [|repeat split].
  destruct (1000 <? now - lastTime (lastTextContact s) (elementId el));
    [|repeat split].
  cbn [lastUIContact toggleClasses played]. repeat split.
  rewrite toggles_app, Hmk. lia.
Qed.

Lemma fold_contact_frame mk y (l : list (element * Z)) :
  (forall i t, toggles [mk i t] = 0%nat) ->
  forall s,
    lastUIContact (fold_left (contact mk y) l s) = lastUIContact s
    /\ toggleClasses (fold_left (contact mk y) l s) = toggleClasses s
    /\ toggles (played (fold_left (contact mk y) l s)) = toggles (played s).
Proof.
  intros Hmk. induction l as [|v l IH]; intros s; [repeat split|].
  cbn [fold_left]. destruct (IH (contact mk y s v)) as (H1 & H2 & H3).
  destruct (contact_frame mk y s v Hmk) as (G1 & G2 & G3).
  repeat split; congruence.
Qed.

(** What one run of the callback does about the toggle. *)
Lemma tick_toggle s d y r :
  beamY d = Some y -> audioToggle d = Some r ->
  lastUIContact (tick s d)
  = (if inside y r then Some "audio-toggle"
     else if decide (lastUIContact s = Some "audio-toggle") then None
          else lastUIContact s)
  /\ ("beam-contact" ∈ toggleClasses (tick s d) <-> inside y r = true)
  /\ toggles (played (tick s d))
     = (toggles (played s)
        + (if inside y r
           then if decide (lastUIContact s = Some "audio-toggle") then 0 else 1
           else 0))%nat.
Proof.
  unfold beamY. intros Hy Hr. unfold tick.
  destruct (beam d) as [[bt bh]|]; [|discriminate]. injection Hy as <-.
  rewrite Hr.
  match goal with
  | |- context [fold_left (contact Fizz ?y) ?l ?s0] =>
      destruct (fold_contact_frame Fizz y l (fun _ _ => eq_refl) s0)
        as (F1 & F2 & F3)
  end.
  match goal with
  | H : context [fold_left (contact Impact ?y) ?l ?s0] |- _ =>
      destruct (fold_contact_frame Impact y l (fun _ _ => eq_refl) s0)
        as (I1 & I2 & I3)
  end.
  rewrite F1, F2, F3, I1, I2, I3. clear F1 F2 F3 I1 I2 I3.
  unfold toggle. cbn [lastUIContact toggleClasses played].
  destruct (inside _ r).
  - destruct (decide (lastUIContact s = Some "audio-toggle")) as [E|E];
      cbn [lastUIContact toggleClasses played].
    + split; [exact E|]. split; [set_solver|].
      rewrite toggles_app. cbn [toggles omap list_omap length]. lia.
    + split; [reflexivity|]. split; [set_solver|].
      rewrite !toggles_app. cbn [toggles omap list_omap length]. lia.
  - cbn [lastUIContact toggleClasses played].
    split; [reflexivity|]. split; [set_solver|].
    rewrite toggles_app. cbn [toggles omap list_omap length]. lia.
Qed.

(** The toggle sound is edge-triggered and knows no cooldown: of two
    consecutive runs of the callback that both find beam and toggle, the
    second plays the toggle sound exactly when the beam is on the toggle now
    and was not at the run before, however short the time between them; and
    the toggle carries the contact class exactly while the beam is on it. *)
Theorem toggle_on_entry s d1 d2 y1 r1 y2 r2 :
  beamY d1 = Some y1 -> audioToggle d1 = Some r1 ->
  beamY d2 = Some y2 -> audioToggle d2 = Some r2 ->
  toggles (played (tick (tick s d1) d2))
  = (toggles (played (tick s d1))
     + (if inside y2 r2 && negb (inside y1 r1) then 1 else 0))%nat
  /\ ("beam-contact" ∈ toggleClasses (tick (tick s d1) d2)
      <-> inside y2 r2 = true).
Proof.
  intros Hy1 Hr1 Hy2 Hr2.
  destruct (tick_toggle s d1 y1 r1 Hy1 Hr1) as (L1 & _ & _).
  destruct (tick_toggle (tick s d1) d2 y2 r2 Hy2 Hr2) as (_ & C2 & T2).
  split; [|exact C2]. rewrite T2. f_equal.
  destruct (inside y2 r2); [|reflexivity].
  destruct (inside y1 r1); cbn [andb negb].
  - destruct (decide _) as [|Hn]; [reflexivity|]. contradiction.
  - destruct (decide (lastUIContact (tick s d1) = Some "audio-toggle"))
      as [E'|_]; [|reflexivity].
    exfalso. rewrite L1 in E'.
    destruct (decide (lastUIContact s = Some "audio-toggle"));
      [discriminate|contradiction].
Qed.

Lemma toggle_on_entry_witness :
  toggles (played (tick (tick init (toggle_at 0)) (toggle_at 5)))
  = (toggles (played (tick init (toggle_at 0)))
     + (if inside (5 + 0 / 2) toggle_rect && negb (inside (0 + 0 / 2) toggle_rect)
        then 1 else 0))%nat
  /\ ("beam-contact" ∈ toggleClasses (tick (tick init (toggle_at 0)) (toggle_at 5))
      <-> inside (5 + 0 / 2) toggle_rect = true).
Proof.
  apply (toggle_on_entry init (toggle_at 0) (toggle_at 5)
           (0 + 0 / 2)%Q toggle_rect (5 + 0 / 2)%Q toggle_rect);
    reflexivity.
Defined.

(** *** Where firings come from *)

Lemma fired_mk mk :
  mk = Impact \/ mk = Fizz ->
  forall i t id, fired id [mk i t] = if decide (i = id) then [t] else [].
Proof.
  intros [->| ->] i t id; simpl; destruct (decide (i = id)); reflexivity.
Qed.

Lemma contact_fired mk y s v id :
  mk = Impact \/ mk = Fizz ->
  exists new,
    fired id (played (contact mk y s v)) = fired id (played s) ++ new
    /\ Forall (fun t => t = v.2 /\ elementId v.1 = id
                        /\ inside y (rect v.1) = true
                        /\ 1000 < t - lastTime (lastTextContact s) id) new.
Proof.
  intros Hmk. destruct v as [el now]. unfold contact.
  destruct (inside y (rect el)) eqn:Ein;
    [|exists []; rewrite app_nil_r; split; [reflexivity|constructor]].
  destruct (Z.ltb_spec 1000 (now - lastTime (lastTextContact s) (elementId el)))
    as [Hlt|_];
    [|exists []; rewrite app_nil_r; split; [reflexivity|constructor]].
  cbn [played]. rewrite fired_app, (fired_mk mk Hmk).
  destruct (decide (elementId el = id)) as [<-|Hn].
  - exists [now]. split; [reflexivity|].
    constructor; [|constructor]. cbn. repeat split; assumption.
  - exists []. split; [reflexivity|constructor].
Qed.

Lemma fold_contact_fired mk y id (l : list (element * Z)) :
  mk = Impact \/ mk = Fizz ->
  forall s,
    exists new,
      fired id (played (fold_left (contact mk y) l s))
      = fired id (played s) ++ new
      /\ Forall (fun t => exists el, (el, t) ∈ l /\ elementId el = id
                                     /\ inside y (rect el) = true) new.
Proof.
  intros Hmk. induction l as [|v l IH]; intros s.
  - exists []. rewrite app_nil_r. split; [reflexivity|constructor].
  - cbn [fold_left].
    destruct (contact_fired mk y s v id Hmk) as (n1 & E1 & F1).
    destruct (IH (contact mk y s v)) as (n2 & E2 & F2).
    exists (n1 ++ n2). split; [rewrite E2, E1, app_assoc; reflexivity|].
    apply Forall_app. split.
    + eapply Forall_impl; [exact F1|]. intros t (Ht & Hid & Hin & _).
      exists v.1. split; [|tauto]. subst t. destruct v. left.
    + eapply Forall_impl; [exact F2|]. intros t (el & Hel & H).
      exists el. split; [right; exact Hel|exact H].
Qed.

Lemma toggle_fired y s r id : fired id (played (toggle y s r)) = fired id (played s).
Proof.
  unfold toggle. destruct (inside y r); [|reflexivity].
  destruct (decide _); [reflexivity|].
  cbn [played]. rewrite fired_app. apply app_nil_r.
Qed.

(** The firings one run of the callback adds under a key. *)
Lemma tick_fired s d id :
  exists new,
    fired id (played (tick s d)) = fired id (played s) ++ new
    /\ Forall (visit_of id d) new.
Proof.
  unfold tick, visit_of, beamY.
  destruct (beam d) as [[bt bh]|];
    [|exists []; rewrite app_nil_r; split; [reflexivity|constructor]].
  match goal with
  | |- context [fold_left (contact Fizz ?y) ?l ?s0] =>
      destruct (fold_contact_fired Fizz y id l (or_intror eq_refl) s0)
        as (n2 & E2 & F2)
  end.
  match goal with
  | H : context [fold_left (contact Impact ?y) ?l ?s0] |- _ =>
      destruct (fold_contact_fired Impact y id l (or_introl eq_refl) s0)
        as (n1 & E1 & F1)
  end.
  exists (n1 ++ n2). split.
  - rewrite E2, E1. rewrite <- app_assoc. f_equal.
    destruct (audioToggle d); rewrite ?toggle_fired; cbn [played];
      rewrite fired_app; apply app_nil_r.
  - apply Forall_app. split.
    + eapply Forall_impl; [exact F1|]. intros t (el & Hel & H).
      eexists _, el. split; [reflexivity|].
      split; [apply elem_of_app; left; exact Hel|exact H].
    + eapply Forall_impl; [exact F2|]. intros t (el & Hel & H).
      eexists _, el. split; [reflexivity|].
      split; [apply elem_of_app; right; exact Hel|exact H].
Qed.

(** No sound without contact: every firing under a key, at a time [t], goes
    back to a run of the callback that found the beam, and under it an
    element with that key, visited at clock reading [t]. *)
Theorem fired_from_contact (ds : list snapshot) id t :
  t ∈ fired id (played (run ds)) ->
  exists d, d ∈ ds /\ visit_of id d t.
Proof.
  induction ds as [|d ds IH] using rev_ind.
  - intros H. apply elem_of_nil in H. contradiction.
  - rewrite run_snoc.
    destruct (tick_fired (run ds) d id) as (new & E & F).
    rewrite E, elem_of_app. intros [H|H].
    + destruct (IH H) as (d0 & Hd0 & Hv). exists d0.
      split; [apply elem_of_app; left; exact Hd0|exact Hv].
    + exists d. split; [apply elem_of_app; right; left|].
      rewrite Forall_forall in F. apply F. exact H.
Qed.

Lemma fired_from_contact_witness :
  exists d, d ∈ held title 1700000000000 121
            /\ visit_of (elementId title) d 1700000001025.
Proof.
  apply (fired_from_contact (held title 1700000000000 121)).
  rewrite held_fires_three. right. left.
Defined.

(** *** One key, one poll *)

Lemma sorted_app_r (l1 l2 : list Z) :
  StronglySorted apart (l1 ++ l2) -> StronglySorted apart l2.
Proof.
  induction l1 as [|a l1 IH]; [tauto|].
  simpl. intros H. inversion H; subst. apply IH. assumption.
Qed.

Lemma visit_reading id d t : visit_of id d t -> t ∈ readings d.
Proof.
  intros (y & el & _ & Hin & _). unfold readings.
  apply list_elem_of_fmap. exists (el, t). split; [reflexivity|exact Hin].
Qed.

(** Elements that share a key share its cooldown: in one run of the callback
    whose clock readings lie within the cooldown of each other, at most one
    sound is fired per key, whether the key belongs to several elements with
    the same class name and the same first ten characters of text, or to an
    element that both loops select. *)
Theorem one_firing_per_poll (ds : list snapshot) d id :
  (forall t t', t ∈ readings d -> t' ∈ readings d -> t' - t <= cooldown) ->
  (length (fired id (played (run (ds ++ [d]))))
   <= S (length (fired id (played (run ds)))))%nat.
Proof.
  intros Hspan. destruct (inv_run (ds ++ [d]) id) as [Hs _].
  rewrite run_snoc in *.
  destruct (tick_fired (run ds) d id) as (new & E & F).
  rewrite E in *. rewrite length_app.
  apply sorted_app_r in Hs.
  destruct new as [|a [|b new]]; simpl; try lia.
  exfalso.
  inversion Hs as [|? ? _ Ha]; subst. inversion Ha as [|? ? Hab _]; subst.
  inversion F as [|? ? Fa F']; subst. inversion F' as [|? ? Fb _]; subst.
  pose proof (Hspan a b (visit_reading _ _ _ Fa) (visit_reading _ _ _ Fb)).
  unfold apart in Hab. lia.
Qed.

Lemma one_firing_per_poll_witness :
  (length (fired (JSString.of_ascii "archive-subtitleSpecimens ")
             (played (run ([] ++ [two_subtitles 1700000000000]))))
   <= S (length (fired (JSString.of_ascii "archive-subtitleSpecimens ") (played (run [])))))%nat.
Proof.
  apply (one_firing_per_poll [] (two_subtitles 1700000000000)).
  intros t t' Ht Ht'. unfold cooldown.
  cbn in Ht, Ht'.
  rewrite !elem_of_cons in Ht, Ht'.
  destruct Ht as [->|[->|Ht]]; [| |apply elem_of_nil in Ht; contradiction];
    (destruct Ht' as [->|[->|Ht']];
       [| |apply elem_of_nil in Ht'; contradiction]); lia.
Defined.

(** The second subtitle is indeed silenced by the first. *)
Example subtitles_collide :
  played (run [two_subtitles 1700000000000])
  = [BeamSweep (0 + 0 / 2); Impact (JSString.of_ascii "archive-subtitleSpecimens ") 1700000000000].
Proof. vm_compute. reflexivity. Qed.

(** *** The cooldown does not over-suppress *)

Lemma inv_last_init : inv_last init.
Proof. intros id. left. reflexivity. Qed.

Lemma inv_last_contact mk y s v :
  mk = Impact \/ mk = Fizz -> inv_last s -> inv_last (contact mk y s v).
Proof.
  intros Hmk Hi. destruct v as [el now]. unfold contact.
  destruct (inside y (rect el)); [|exact Hi].
  destruct (1000 <? now - lastTime (lastTextContact s) (elementId el));
    [|exact Hi].
  intros id. cbn [lastTextContact played]. rewrite fired_app, (fired_mk mk Hmk).
  destruct (decide (elementId el = id)) as [<-|Hn].
  - right. rewrite lastTime_insert_eq. apply elem_of_app. right. left.
  - rewrite lastTime_insert_ne by exact Hn. rewrite app_nil_r. apply Hi.
Qed.

Lemma inv_last_fold mk y (l : list (element * Z)) :
  mk = Impact \/ mk = Fizz ->
  forall s, inv_last s -> inv_last (fold_left (contact mk y) l s).
Proof.
  intros Hmk. induction l as [|v l IH]; intros s Hi; [exact Hi|].
  apply IH, inv_last_contact; assumption.
Qed.

Lemma inv_last_silent (s : state) (e : sound) lu cls :
  (forall id, fired id [e] = []) ->
  inv_last s ->
  inv_last {| lastUIContact := lu; lastTextContact := lastTextContact s;
              toggleClasses := cls; played := played s ++ [e] |}.
Proof.
  intros He Hi id. cbn [lastTextContact played].
  rewrite fired_app, He, app_nil_r. apply Hi.
Qed.

Lemma inv_last_tick s d : inv_last s -> inv_last (tick s d).
Proof.
  intros Hi. unfold tick. destruct (beam d) as [[bt bh]|]; [|exact Hi].
  apply inv_last_fold; [right; reflexivity|].
  apply inv_last_fold; [left; reflexivity|].
  destruct (audioToggle d) as [r|].
  - unfold toggle. cbn [lastUIContact lastTextContact toggleClasses played].
    destruct (inside _ r).
    + destruct (decide _).
      * apply (inv_last_silent s); [reflexivity|exact Hi].
      * apply (inv_last_silent
                 {| lastUIContact := lastUIContact s;
                    lastTextContact := lastTextContact s;
                    toggleClasses := toggleClasses s;
                    played := played s ++ [BeamSweep (bt + bh / 2)] |});
          [reflexivity|].
        apply (inv_last_silent s); [reflexivity|exact Hi].
    + apply (inv_last_silent s); [reflexivity|exact Hi].
  - apply (inv_last_silent s); [reflexivity|exact Hi].
Qed.

Lemma inv_last_run ds : inv_last (run ds).
Proof.
  induction ds as [|d ds IH] using rev_ind; [apply inv_last_init|].
  rewrite run_snoc. apply inv_last_tick, IH.
Qed.

(** The cooldown is tight: when a run of the callback finds a single title
    element under the beam, at a clock reading more than the cooldown after
    every earlier firing under its key (and after the epoch), the sound is
    fired at that reading. *)
Theorem fires_after_cooldown (ds : list snapshot) d y el now :
  beamY d = Some y ->
  impactElements d = [(el, now)] ->
  fizzElements d = [] ->
  inside y (rect el) = true ->
  cooldown < now ->
  (forall t, t ∈ fired (elementId el) (played (run ds)) -> cooldown < now - t) ->
  fired (elementId el) (played (run (ds ++ [d])))
  = fired (elementId el) (played (run ds)) ++ [now]
  /\ Impact (elementId el) now ∈ played (run (ds ++ [d])).
Proof.
  unfold beamY, cooldown. intros Hy Hi Hf Hin Hnow Hold.
  rewrite run_snoc. unfold tick.
  destruct (beam d) as [[bt bh]|]; [|discriminate]. injection Hy as <-.
  rewrite Hi, Hf. cbn [fold_left]. unfold contact. rewrite Hin.
  set (s2 := match audioToggle d with Some r => _ | None => _ end).
  assert (Hm : lastTextContact s2 = lastTextContact (run ds)).
  { unfold s2. destruct (audioToggle d) as [r|]; [|reflexivity].
    unfold toggle. destruct (inside _ r); [destruct (decide _)|]; reflexivity. }
  assert (Hp : fired (elementId el) (played s2)
               = fired (elementId el) (played (run ds))).
  { unfold s2. destruct (audioToggle d) as [r|]; rewrite ?toggle_fired;
      cbn [played]; rewrite fired_app; apply app_nil_r. }
  rewrite Hm.
  assert (Hlt : 1000 < now - lastTime (lastTextContact (run ds)) (elementId el)).
  { destruct (inv_last_run ds (elementId el)) as [E|E].
    - rewrite E. lia.
    - apply Hold. exact E. }
  apply Z.ltb_lt in Hlt. rewrite Hlt. cbn [played]. split.
  - rewrite fired_app, Hp. f_equal. simpl.
    destruct (decide _); [reflexivity|contradiction].
  - apply elem_of_app. right. left.
Qed.

Lemma fires_after_cooldown_witness :
  fired (elementId title)
    (played (run (held title 1700000000000 41
                  ++ [{| beam := Some (0%Q, 0%Q); audioToggle := None;
                         impactElements := [(title, 1700000001025)];
                         fizzElements := [] |}])))
  = fired (elementId title) (played (run (held title 1700000000000 41)))
    ++ [1700000001025]
  /\ Impact (elementId title) 1700000001025
     ∈ played (run (held title 1700000000000 41
                    ++ [{| beam := Some (0%Q, 0%Q); audioToggle := None;
                           impactElements := [(title, 1700000001025)];
                           fizzElements := [] |}])).
Proof.
  apply (fires_after_cooldown _ _ (0 + 0 / 2)%Q); try reflexivity.
  assert (E : fired (elementId title)
                (played (run (held title 1700000000000 41)))
              = [1700000000000]) by (vm_compute; reflexivity).
  rewrite E. intros t Ht. apply list_elem_of_singleton in Ht. subst t.
  reflexivity.
Defined.

End TankAudioMore.

(** ** The cooldown, per label and per region *)

Module TankAudioRegion.
Import TankAudio TankAudioFacts TankAudioMore.

Lemma triggers_app l l' : triggers (l ++ l') = triggers l ++ triggers l'.
Proof. unfold triggers. apply omap_app. Qed.

(** When every trigger event is under one key, the events under that key
    are all there is. *)
Lemma keyed_triggers id (l : list sound) :
  keyed id l -> triggers l = fired id l.
Proof.
  unfold keyed. induction 1 as [|e l He _ IH]; [reflexivity|].
  change (e :: l) with ([e] ++ l). rewrite triggers_app, fired_app, IH.
  f_equal. destruct e; cbn; try reflexivity;
    subst; destruct (decide (id = id)); congruence.
Qed.

Lemma keyed_contact mk y id s v :
  mk = Impact \/ mk = Fizz ->
  elementId v.1 = id ->
  keyed id (played s) -> keyed id (played (contact mk y s v)).
Proof.
  intros Hmk Hv Hk. destruct v as [el now]. unfold contact.
  destruct (inside y (rect el)); [|exact Hk].
  destruct (1000 <? now - lastTime (lastTextContact s) (elementId el));
    [|exact Hk].
  cbn [played]. apply Forall_app. split; [exact Hk|].
  constructor; [|constructor]. destruct Hmk as [-> | ->]; exact Hv.
Qed.

Lemma keyed_fold mk y id (l : list (element * Z)) :
  mk = Impact \/ mk = Fizz ->
  (forall v, v ∈ l -> elementId v.1 = id) ->
  forall s, keyed id (played s) ->
            keyed id (played (fold_left (contact mk y) l s)).
Proof.
  intros Hmk. induction l as [|v l IH]; intros Hl s Hk; [exact Hk|].
  cbn [fold_left]. apply IH.
  - intros v' Hv'. apply Hl. right. exact Hv'.
  - apply keyed_contact; [exact Hmk| |exact Hk]. apply Hl. left.
Qed.

Lemma keyed_toggle y id s r :
  keyed id (played s) -> keyed id (played (toggle y s r)).
Proof.
  intros Hk. unfold toggle. destruct (inside y r); [|exact Hk].
  destruct (decide _); [exact Hk|].
  cbn [played]. apply Forall_app. split; [exact Hk|].
  constructor; [exact I|constructor].
Qed.

Lemma keyed_tick id s d :
  (forall v, v ∈ impactElements d ++ fizzElements d -> elementId v.1 = id) ->
  keyed id (played s) -> keyed id (played (tick s d)).
Proof.
  intros Hd Hk. unfold tick. destruct (beam d) as [[bt bh]|]; [|exact Hk].
  apply keyed_fold; [right; reflexivity| |].
  { intros v Hv. apply Hd, elem_of_app. right. exact Hv. }
  apply keyed_fold; [left; reflexivity| |].
  { intros v Hv. apply Hd, elem_of_app. left. exact Hv. }
  assert (H1 : keyed id (played s ++ [BeamSweep (bt + bh / 2)])).
  { apply Forall_app. split; [exact Hk|]. constructor; [exact I|constructor]. }
  destruct (audioToggle d); [apply keyed_toggle|]; exact H1.
Qed.

Lemma keyed_run id (ds : list snapshot) :
  (forall d v, d ∈ ds -> v ∈ impactElements d ++ fizzElements d ->
               elementId v.1 = id) ->
  keyed id (played (run ds)).
Proof.
  induction ds as [|d ds IH] using rev_ind; intros H.
  - constructor.
  - rewrite run_snoc. apply keyed_tick.
    + intros v Hv. apply (H d); [apply elem_of_app; right; left|exact Hv].
    + apply IH. intros d' v Hd'. apply H. apply elem_of_app. left. exact Hd'.
Qed.

(** While the beam stays on the toggle, its sound is played once. *)
Lemma toggle_once (ds : list snapshot) :
  (forall d, d ∈ ds -> on_toggle d = true) ->
  (toggles (played (run ds)) <= 1)%nat
  /\ (ds = [] \/ lastUIContact (run ds) = Some "audio-toggle").
Proof.
  induction ds as [|d ds IH] using rev_ind; intros H.
  - split; [cbn; lia|left; reflexivity].
  - destruct IH as [IH1 IH2].
    { intros d' Hd'. apply H, elem_of_app. left. exact Hd'. }
    assert (Hd : on_toggle d = true) by (apply H, elem_of_app; right; left).
    unfold on_toggle in Hd.
    destruct (beamY d) as [y|] eqn:Ey; [|discriminate].
    destruct (audioToggle d) as [r|] eqn:Er; [|discriminate].
    rewrite run_snoc.
    destruct (tick_toggle (run ds) d y r Ey Er) as (L & _ & T).
    rewrite Hd in L, T. split; [|right; exact L].
    rewrite T. destruct IH2 as [-> | E].
    + change (toggles (played (run []))) with 0%nat.
      destruct (decide _); lia.
    + destruct (decide (lastUIContact (run ds) = Some "audio-toggle"));
        [lia|contradiction].
Qed.

(** C2, as stated, fails for a region: the label under which a region fires
    is its class attribute followed by the first ten characters of its
    text, and the collision poll rewrites the class attribute of the titles
    it tracks.  A title 120 px high stays under the beam, which comes down
    1 px per poll, for 121 polls 25 ms apart (3000 ms); it fires on entry
    under its own class name, 25 ms later under the class name with the
    contact classes, then every 1025 ms under that, and again under its own
    class name when the poll takes the contact classes away at the bottom
    edge: five trigger events, the first two 25 ms apart. *)
Lemma region_label_counterexample :
  forallb Sweep.on_title (seq 0 121) = true
  /\ triggers (played (Sweep.heard (Sweep.sweep 1700000000000 121)))
     = [1700000000000; 1700000000025; 1700000001050; 1700000002075;
        1700000003000]
  /\ ~ (length (triggers
                  (played (Sweep.heard (Sweep.sweep 1700000000000 121))))
        <= 3)%nat.
Proof.
  assert (E : triggers (played (Sweep.heard (Sweep.sweep 1700000000000 121)))
              = [1700000000000; 1700000000025; 1700000001050; 1700000002075;
                 1700000003000]) by (vm_compute; reflexivity).
  split; [vm_compute; reflexivity|]. split; [exact E|].
  rewrite E. cbn. lia.
Qed.

(** C2, amended: whatever the polls find, two trigger events of the title
    and text loops fired under the same label are more than the cooldown
    (1000 ms) apart, the later one after the earlier, so at most 3 of them
    fall into any window of 3000 ms; hence a region that carries one label
    throughout fires at most 3 such events in any window of 3000 ms, however
    often it is polled; and the toggle, which has no label and no cooldown,
    sounds once while the beam stays on it. *)
Theorem cooldown_spacing (ds : list snapshot) (id : JSString.t) :
  (forall (i j : nat) t1 t2,
      (i < j)%nat ->
      fired id (played (run ds)) !! i = Some t1 ->
      fired id (played (run ds)) !! j = Some t2 ->
      cooldown < t2 - t1)
  /\ (forall T : Z,
        (length (filter (fun t : Z => (T <= t <= T + 3000)%Z)
                   (fired id (played (run ds)))) <= 3)%nat)
  /\ ((forall d el t, d ∈ ds ->
         (el, t) ∈ impactElements d ++ fizzElements d -> elementId el = id) ->
      forall T : Z,
        (length (filter (fun t : Z => (T <= t <= T + 3000)%Z)
                   (triggers (played (run ds)))) <= 3)%nat)
  /\ ((forall d, d ∈ ds -> on_toggle d = true) ->
      (toggles (played (run ds)) <= 1)%nat).
Proof.
  destruct (inv_run ds id) as [Hs _].
  assert (Hw : forall T : Z,
             (length (filter (fun t : Z => (T <= t <= T + 3000)%Z)
                        (fired id (played (run ds)))) <= 3)%nat).
  { intros T. apply (sorted_window T).
    - apply sorted_filter. exact Hs.
    - apply Forall_forall. intros t Ht.
      apply list_elem_of_filter in Ht. unfold cooldown. lia. }
  split; [|split; [exact Hw|split]].
  - intros i j t1 t2 Hij Hi Hj.
    pose proof (sorted_lookup _ i j t1 t2 Hs Hij Hi Hj) as H.
    unfold apart in H. lia.
  - intros H T. rewrite (keyed_triggers id); [apply Hw|].
    apply keyed_run. intros d [el t] Hd Hv. exact (H d el t Hd Hv).
  - intros H. apply toggle_once. exact H.
Qed.

(** The spec's scenario, with the label kept: 121 polls, 25 ms apart, find
    the title with one class name; it fires 3 times. *)
Example held_keeps_label :
  triggers (played (run (held title 1700000000000 121)))
  = [1700000000000; 1700000001025; 1700000002050].
Proof. vm_compute. reflexivity. Qed.

End TankAudioRegion.

(** ** The grid *)

Module TankConfigFacts.
Import TankConfig.

(** At every window width the grid has one, two or three columns, more of
    them as the window gets wider, and always a number that divides the
    twelve slots, so that the last row is full; and a window that the beam
    treats as mobile has a single column. *)
Theorem grid_columns_fit (width width' : Z) :
  1 <= getGridColumns TANK_GRID width <= 3
  /\ totalSlots TANK_GRID mod getGridColumns TANK_GRID width = 0
  /\ (width <= width' ->
      getGridColumns TANK_GRID width <= getGridColumns TANK_GRID width')
  /\ (TankBeam.mobile_width width = true -> getGridColumns TANK_GRID width = 1)
  /\ (getGridColumns TANK_GRID width = 1 <-> width < 769).
Proof.
  unfold getGridColumns, TankBeam.mobile_width. cbn.
  destruct (Z.leb_spec 1025 width), (Z.leb_spec 769 width),
    (Z.leb_spec 1025 width'), (Z.leb_spec 769 width'),
    (Z.ltb_spec width 768);
    repeat split; intros; try reflexivity; try lia; try discriminate.
Qed.

End TankConfigFacts.

(** ** The subscribers *)

Module SubscribersFacts.
Import TankDecay TankDecayFacts.

Ltac step := TankDecayMore.step.


Lemma told_delivery (P : string -> number -> Prop) d (l : list listener) :
  P (stage d) (progress d) ->
  Forall (BeamSync.told P) (notifications (flat_map (delivery d) l)).
Proof.
  intros H. rewrite notifications_delivery. apply Forall_forall.
  intros n Hn. apply list_elem_of_fmap in Hn as (cb & -> & _). exact H.
Qed.

Lemma told_logged (P : string -> number -> Prop) w es :
  Forall (BeamSync.told P) (notifications (trace w)) ->
  Forall (BeamSync.told P) (notifications es) ->
  Forall (BeamSync.told P) (notifications (trace (logged w es))).
Proof.
  intros H1 H2. unfold logged. cbn [trace]. rewrite notifications_app.
  apply Forall_app. split; assumption.
Qed.

(** Every call notifies, if at all, with the stage and progress it leaves in
    the object. *)
Lemma exec_told cfg o d w (P : string -> number -> Prop) :
  Forall (BeamSync.told P) (notifications (trace w)) ->
  exists d' w',
    exec cfg o (d, w) = (Normal tt, (d', w'))
    /\ (P (stage d') (progress d') ->
        Forall (BeamSync.told P) (notifications (trace w'))).
Proof.
  intros Hw. destruct d as [stg prg li tm ls ft fl fs].
  destruct w as [iv nh tr]. cbn [trace] in Hw.
  assert (Hfin : forall D (tr' : list event),
             P (stage D) (progress D) ->
             (tr' = tr
              \/ (exists m, tr' = tr ++ [ConsoleLog m])
              \/ (exists m x, tr' = tr ++ [ConsoleError m x])
              \/ tr' = tr ++ flat_map (delivery D) ls
              \/ exists m, tr' = (tr ++ flat_map (delivery D) ls)
                                 ++ [ConsoleLog m]) ->
             Forall (BeamSync.told P) (notifications tr')).
  { intros D tr' HP [->|[(m & ->)|[(m & x & ->)|[->|(m & ->)]]]];
      rewrite ?notifications_app; repeat (apply Forall_app; split);
      try exact Hw; try (apply told_delivery; exact HP); constructor. }
  destruct o; step.
  - rewrite notify_eq. step. eexists _, _. split; [reflexivity|].
    intros HP. cbn [trace logged]. eapply Hfin; [exact HP|].
    do 4 right. eexists. reflexivity.
  - destruct fl; step.
    + rewrite notify_eq. eexists _, _. split; [reflexivity|].
      intros HP. cbn [trace logged]. eapply Hfin; [exact HP|].
      do 3 right. left. reflexivity.
    + eexists _, _. split; [reflexivity|]. intros HP.
      eapply Hfin; [exact HP|]. left. reflexivity.
  - destruct fl; step;
      match goal with |- context [ge_one ?x] => destruct (ge_one x) end;
      step; rewrite notify_eq; eexists _, _; (split; [reflexivity|]);
      intros HP; cbn [trace logged]; (eapply Hfin; [exact HP|]);
      do 3 right; left; reflexivity.
  - destruct fl; step.
    + eexists _, _. split; [reflexivity|]. intros HP.
      eapply Hfin; [exact HP|]. left. reflexivity.
    + rewrite notify_eq. step. eexists _, _. split; [reflexivity|].
      intros HP. cbn [trace logged]. eapply Hfin; [exact HP|].
      do 4 right. eexists. reflexivity.
  - destruct fl; step.
    + eexists _, _. split; [reflexivity|]. intros HP.
      eapply Hfin; [exact HP|]. left. reflexivity.
    + rewrite notify_eq. step. eexists _, _. split; [reflexivity|].
      intros HP. cbn [trace logged]. eapply Hfin; [exact HP|].
      do 4 right. eexists. reflexivity.
  - destruct v; step; eexists _, _; (split; [reflexivity|]); intros HP;
      cbn [trace]; (eapply Hfin; [exact HP|]);
      first [ left; reflexivity
            | do 2 right; left; eexists _, _; reflexivity ].
  - rewrite notify_eq. eexists _, _. split; [reflexivity|].
    intros HP. cbn [trace logged]. eapply Hfin; [exact HP|].
    do 3 right. left. reflexivity.
  - destruct tm, ft; step; eexists _, _; (split; [reflexivity|]); intros HP;
      cbn [trace]; (eapply Hfin; [exact HP|]); right; left; eexists;
      reflexivity.
  - destruct tm, ft; step; eexists _, _; (split; [reflexivity|]); intros HP;
      cbn [trace]; (eapply Hfin; [exact HP|]); right; left; eexists;
      reflexivity.
  - destruct tm, ft; step; eexists _, _; (split; [reflexivity|]); intros HP;
      cbn [trace]; (eapply Hfin; [exact HP|]); right; left; eexists;
      reflexivity.
Qed.

Lemma run_told cfg (os : list op) : forall d w,
  Forall plain os -> coherent d ->
  Forall (BeamSync.told (fun s _ => BeamSync.lifecycle_stage s)) (notifications (trace w)) ->
  exists d' w',
    run cfg os (d, w) = (Normal tt, (d', w'))
    /\ coherent d'
    /\ Forall (BeamSync.told (fun s _ => BeamSync.lifecycle_stage s))
         (notifications (trace w')).
Proof.
  induction os as [|o os IH]; intros d w Hp Hc Hw.
  - exists d, w. split; [reflexivity|split; assumption].
  - inversion Hp as [|? ? Ho Hos]; subst.
    destruct (exec_coherent cfg o d w Ho Hc) as (d1 & w1 & E1 & Hc1).
    destruct (exec_told cfg o d w _ Hw) as (d1' & w1' & E1' & Ht).
    rewrite E1 in E1'. injection E1' as <- <-.
    assert (Hs : BeamSync.lifecycle_stage (stage d1)).
    { destruct Hc1 as [Ht1 Hf1]. destruct (isFlickering d1).
      - right. apply Ht1. reflexivity.
      - left. apply Hf1. reflexivity. }
    destruct (IH d1 w1 Hos Hc1 (Ht Hs)) as (d2 & w2 & E2 & Hc2 & Hw2).
    exists d2, w2. split; [|split; assumption].
    rewrite (TankDecayMore.run_cons _ _ _ _ _ E1). exact E2.
Qed.

(** *** The beam's speed *)

Lemma sync_speed stage p s :
  BeamSync.currentSpeed (BeamSync.syncToPreservation stage p s)
  = BeamSync.newSpeed stage.
Proof.
  unfold BeamSync.syncToPreservation.
  destruct (decide _) as [E|_]; [symmetry; exact E|reflexivity].
Qed.

Lemma sync_var stage p s :
  (BeamSync.beamSpeedVar s = None /\ BeamSync.currentSpeed s = BeamSync.Seconds 12
   \/ BeamSync.beamSpeedVar s = Some (BeamSync.currentSpeed s)) ->
  let s' := BeamSync.syncToPreservation stage p s in
  BeamSync.beamSpeedVar s' = None /\ BeamSync.currentSpeed s' = BeamSync.Seconds 12
  \/ BeamSync.beamSpeedVar s' = Some (BeamSync.currentSpeed s').
Proof.
  intros H. unfold BeamSync.syncToPreservation.
  destruct (decide _); [exact H|]. right. reflexivity.
Qed.

Lemma feed_snoc ns n s :
  BeamSync.feed (ns ++ [n]) s
  = BeamSync.syncToPreservation n.1.2 n.2 (BeamSync.feed ns s).
Proof. unfold BeamSync.feed. rewrite fold_left_app. reflexivity. Qed.

(** An override with the name of an inherited property is taken for a
    speed. *)
Example sync_inherited :
  BeamSync.currentSpeed
    (BeamSync.syncToPreservation "toString" (Num 0) BeamSync.initial)
  = BeamSync.Builtin "toString".
Proof. vm_compute. reflexivity. Qed.

(** Driven by the controller, the beam has one of two speeds.  For every
    sequence of calls without the override [setStage], and every listener
    identifier, the beam module fed with the notifications made to that
    listener ends at 12 s or at 10 s: at 10 s exactly when the last thing it
    heard was a flicker; and the style property, once written, holds the
    current speed. *)
Theorem beam_speed_follows cfg (os : list op) (i : nat) :
  Forall plain os ->
  exists d' w',
    run cfg os (initial, fresh_world) = (Normal tt, (d', w'))
    /\ let ns := BeamSync.heard i (notifications (trace w')) in
       let b := BeamSync.feed ns BeamSync.initial in
       (BeamSync.currentSpeed b = BeamSync.Seconds 12
        \/ BeamSync.currentSpeed b = BeamSync.Seconds 10)
       /\ (BeamSync.currentSpeed b = BeamSync.Seconds 10
           <-> exists n, last ns = Some n /\ n.1.2 = "flicker")
       /\ (BeamSync.beamSpeedVar b = None
           \/ BeamSync.beamSpeedVar b = Some (BeamSync.currentSpeed b)).
Proof.
  intros Hp.
  destruct (run_told cfg os initial fresh_world Hp coherent_initial)
    as (d' & w' & E & _ & Hw); [constructor|].
  exists d', w'. split; [exact E|]. cbv zeta.
  assert (Hh : Forall (BeamSync.told (fun s _ => BeamSync.lifecycle_stage s))
                 (BeamSync.heard i (notifications (trace w')))).
  { unfold BeamSync.heard. rewrite Forall_forall in Hw. apply Forall_forall.
    intros n Hn. apply list_elem_of_filter in Hn as [_ Hn]. apply Hw, Hn. }
  clear Hw E.
  induction (BeamSync.heard i (notifications (trace w'))) as [|n ns IH]
    using rev_ind.
  - cbn. split; [left; reflexivity|]. split; [|left; reflexivity].
    split; [discriminate|]. intros (n & Hn & _). discriminate.
  - apply Forall_app in Hh as [Hns Hn].
    destruct (IH Hns) as (_ & _ & Hv). clear IH.
    rewrite feed_snoc, last_snoc.
    inversion Hn as [|? ? Hst _]; subst. unfold BeamSync.told in Hst.
    split; [|split].
    + rewrite sync_speed. destruct Hst as [-> | ->]; [left|right]; reflexivity.
    + rewrite sync_speed. split.
      * intros Hs. exists n. split; [reflexivity|].
        destruct Hst as [Hst|Hst]; [|exact Hst].
        rewrite Hst in Hs. discriminate.
      * intros (n' & Hn' & Hf). injection Hn' as <-. rewrite Hf. reflexivity.
    + destruct (sync_var n.1.2 n.2 (BeamSync.feed ns BeamSync.initial)) as [[H _]|H].
      * destruct Hv as [Hv|Hv]; [|right; exact Hv].
        left. split; [exact Hv|].
        clear -Hns Hv. revert Hv.
        induction ns as [|m ns IH] using rev_ind; [reflexivity|].
        rewrite feed_snoc. unfold BeamSync.syncToPreservation.
        destruct (decide _) as [Ed|_]; [|discriminate].
        intros Hv. apply IH; [|exact Hv].
        apply Forall_app in Hns. tauto.
      * left. exact H.
      * right. exact H.
Qed.

Lemma beam_speed_follows_witness :
  exists d' w',
    run TANK_CONFIG [Start 0; Subscribe (VFunction (quiet 7)); ForceFlicker 50;
                     Update 100 100]
      (initial, fresh_world)
    = (Normal tt, (d', w'))
    /\ let ns := BeamSync.heard 7 (notifications (trace w')) in
       let b := BeamSync.feed ns BeamSync.initial in
       (BeamSync.currentSpeed b = BeamSync.Seconds 12
        \/ BeamSync.currentSpeed b = BeamSync.Seconds 10)
       /\ (BeamSync.currentSpeed b = BeamSync.Seconds 10
           <-> exists n, last ns = Some n /\ n.1.2 = "flicker")
       /\ (BeamSync.beamSpeedVar b = None
           \/ BeamSync.beamSpeedVar b = Some (BeamSync.currentSpeed b)).
Proof.
  apply (beam_speed_follows TANK_CONFIG).
  repeat (constructor; [exact I|]). constructor.
Defined.

(** *** The flicker surge *)

Lemma below_tenth_ratio (e : Z) :
  AudioSync.below_tenth (Num (ratio e 1000)) = true <-> e < 100.
Proof.
  unfold AudioSync.below_tenth. rewrite JSFacts.ltb_lt.
  unfold ratio, Qdiv, Qlt. simpl. lia.
Qed.

(** The audio callback asks for the surge whenever it is told of a flicker
    with progress below one tenth.  So the notification sent on entering a
    flicker triggers it, and a heartbeat during the flicker triggers it again
    exactly when its clock reading is less than 100 ms after the entry: a
    flicker entered shortly before a heartbeat sounds twice. *)
Theorem surge_after_entry cfg d w now now' t0 :
  coherent d ->
  isFlickering d = true ->
  flickerStartTime d = Some t0 ->
  exists d' w',
    update cfg now now' (d, w) = (Normal tt, (d', w'))
    /\ notifications (trace w')
       = notifications (trace w)
         ++ map (fun cb => (l_id cb, stage d', progress d')) (listeners d)
    /\ (AudioSync.surge (stage d') (progress d') = true <-> now' - t0 < 100)
    /\ AudioSync.surge "flicker" (Num 0) = true.
Proof.
  intros [Ht _] Hf Hs. destruct d as [stg prg li tm ls ft fl fs].
  cbn [isFlickering stage flickerStartTime listeners] in *. subst fl fs.
  destruct (Ht eq_refl) as [-> _]. step.
  change 1000 with (Z.pos 1000).
  destruct (Z_lt_le_dec (now' - t0) (Z.pos 1000)) as [Hlt|Hge].
  - destruct (min_one_lt _ _ Hlt) as [Emin Ege]. rewrite Ege, notify_eq.
    eexists _, _. split; [reflexivity|]. cbn -[JS.min ratio].
    rewrite Emin. split; [|split; [|reflexivity]].
    + rewrite notifications_app, notifications_delivery. reflexivity.
    + unfold AudioSync.surge. rewrite bool_decide_eq_true_2 by reflexivity.
      cbn [andb]. change (Z.pos 1000) with 1000. apply below_tenth_ratio.
  - destruct (min_one_ge _ _ Hge) as [_ Ege]. rewrite Ege. step.
    rewrite notify_eq.
    eexists _, _. split; [reflexivity|]. cbn.
    split; [|split; [|reflexivity]].
    + rewrite notifications_app, notifications_delivery. reflexivity.
    + split; [discriminate|]. change (Z.pos 1000) with 1000 in Hge. lia.
Qed.

Lemma surge_after_entry_witness :
  exists d' w',
    update TANK_CONFIG 100 100 (flickering_since 0 50, running_world)
    = (Normal tt, (d', w'))
    /\ AudioSync.surge (stage d') (progress d') = true.
Proof.
  assert (Hc : coherent (flickering_since 0 50)).
  { split; [intros _; split; [reflexivity|eexists; reflexivity]|discriminate]. }
  destruct (surge_after_entry TANK_CONFIG (flickering_since 0 50) running_world
              100 100 50 Hc eq_refl eq_refl) as (d' & w' & E & _ & Hs & _).
  exists d', w'. split; [exact E|]. apply Hs. reflexivity.
Defined.

(** One flicker, two surges. *)
Example surge_twice :
  AudioSync.surges
    (notifications
       (trace (run TANK_CONFIG
                 [Start 0; Subscribe (VFunction (quiet 7)); ForceFlicker 50;
                  Update 100 100; Update 200 200]
                 (initial, fresh_world)).2.2))
  = 2%nat.
Proof. vm_compute. reflexivity. Qed.

End SubscribersFacts.

(** ** The audio class and the volume button *)

Module AudioClassFacts.
Import AudioClass.

Lemma target_call c p : target (call c p) = Some (aim c).
Proof. unfold target, call. cbn [scheduled]. rewrite last_snoc. reflexivity. Qed.

Lemma levels (l : Z) : 0 <= l <= 3 -> l = 0 \/ l = 1 \/ l = 2 \/ l = 3.
Proof. lia. Qed.

Ltac open_audio a :=
  destruct a as [lvl ctx [mg h hg h2 h2g h3 h3g bo bg] rdy st fl snd];
  unfold wired, paired, silent, humming, hum_off in *;
  cbn [volumeLevel context nodes ready currentStage isFlickering sounded
       masterGain hum humGain harmonic2 harmonic2Gain harmonic3 harmonic3Gain
       beamOsc beamGain] in *.

Ltac shapes :=
  repeat match goal with
  | H : _ /\ _ |- _ => destruct H
  | H : ?x = ?x -> _ |- _ => specialize (H eq_refl)
  | H : is_Some _ |- _ => destruct H as [? ->]
  | H : ?x = None |- _ => is_var x; subst x
  | H : ?x = true |- _ => is_var x; subst x
  | H : ?x = false |- _ => is_var x; subst x
  end.

Ltac settle :=
  intros;
  repeat match goal with
  | |- _ /\ _ => split
  | |- is_Some (Some _) => eexists; reflexivity
  | |- _ -> _ => intros
  end;
  try reflexivity; try assumption; try lia; try discriminate;
  try congruence; try tauto;
  try match goal with
  | |- _ \/ _ => first [left; solve [settle] | right; solve [settle]]
  end.

Lemma setVolumeLevel_wired a l :
  wired a -> ready a = true -> 0 <= l <= 3 ->
  exists a',
    setVolumeLevel l a = Some a'
    /\ wired a' /\ volumeLevel a' = l /\ ready a' = true
    /\ sounded a' = sounded a
    /\ (l <> 0 -> humming (nodes a'))
    /\ beamOsc (nodes a') = (if l =? 0 then None else beamOsc (nodes a))
    /\ beamGain (nodes a') = (if l =? 0 then None else beamGain (nodes a)).
Proof.
  intros W R L. open_audio a. subst rdy.
  destruct W as (_ & ([Hh | Hh] & Hb) & _ & -> & ->);
    destruct (levels l L) as [-> | [-> | [-> | ->]]];
    shapes; destruct Hb as [Hb | Hb]; shapes;
    (eexists; split; [reflexivity|]); cbn; settle.
Qed.

Lemma nonzero_true q : ~ (q == 0)%Q -> nonzero q = true.
Proof.
  intros H. unfold nonzero. destruct (Qeq_bool q 0) eqn:E; [|reflexivity].
  apply Qeq_bool_eq in E. contradiction.
Qed.

Lemma stage_config_sane stage :
  stage ∉ JSObject.prototype_keys ->
  stage_config stage = (Some 60%Q, Some 1%Q)
  \/ stage_config stage = (Some 57%Q, Some 0.75%Q).
Proof.
  intros H. unfold stage_config, JSObject.get, stageMap.
  cbn [JSObject.own].
  destruct (decide ("preservation" = stage)); [left; reflexivity|].
  destruct (decide ("flicker" = stage)); [right; reflexivity|].
  rewrite bool_decide_false by exact H. left. reflexivity.
Qed.

Lemma syncToDecayStage_wired a stage progress :
  wired a -> stage ∉ JSObject.prototype_keys ->
  exists a',
    syncToDecayStage stage progress a = Some a'
    /\ wired a' /\ volumeLevel a' = volumeLevel a /\ ready a' = ready a
    /\ sounded a' = sounded a
    /\ (muted a = true -> nodes a' = nodes a).
Proof.
  intros W Hs. unfold syncToDecayStage.
  destruct (stage_config_sane stage Hs) as [Hc | Hc]; rewrite Hc;
    clear Hc; open_audio a.
  all: revert W; intros W.
  all: destruct rdy;
    [ destruct W as (L & ([Hh | Hh] & Hb) & H0 & -> & ->);
      destruct (levels lvl L) as [-> | [-> | [-> | ->]]];
      shapes; destruct Hb as [Hb | Hb]; shapes;
      (eexists; split; [reflexivity|]); cbn; settle
    | shapes; eexists; (split; [reflexivity|]); cbn; settle ].
Qed.

Lemma one_shot_wired k es a :
  wired a ->
  exists a',
    one_shot k es a = Some a'
    /\ wired a' /\ volumeLevel a' = volumeLevel a /\ ready a' = ready a
    /\ nodes a' = nodes a
    /\ (muted a = true -> sounded a' = sounded a).
Proof.
  intros W. unfold one_shot. open_audio a.
  destruct rdy.
  - destruct W as (L & Hp & H0 & -> & ->);
      destruct (levels lvl L) as [-> | [-> | [-> | ->]]]; shapes;
      (eexists; split; [reflexivity|]); cbn; settle.
  - shapes. eexists; split; [reflexivity|]. cbn. settle.
Qed.

Lemma sweep_frequency_sane beamY innerHeight :
  ~ (innerHeight == 0)%Q ->
  sweep_frequency beamY innerHeight
  = Some (67.83 + (beamY / innerHeight - 0.5) * 4)%Q.
Proof.
  intros H. unfold sweep_frequency.
  destruct (Qeq_bool innerHeight 0) eqn:E; [|reflexivity].
  apply Qeq_bool_eq in E. contradiction.
Qed.

Lemma triggerBeamSweep_wired beamY innerHeight a :
  wired a -> ~ (innerHeight == 0)%Q ->
  ~ (67.83 + (beamY / innerHeight - 0.5) * 4 == 0)%Q ->
  exists a',
    triggerBeamSweep beamY innerHeight a = Some a'
    /\ wired a' /\ volumeLevel a' = volumeLevel a /\ ready a' = ready a
    /\ sounded a' = sounded a
    /\ (muted a = true -> nodes a' = nodes a).
Proof.
  intros W Hh Hf. apply nonzero_true in Hf.
  unfold triggerBeamSweep, ramp_frequency.
  rewrite (sweep_frequency_sane _ _ Hh).
  set (f := (67.83 + (beamY / innerHeight - 0.5) * 4)%Q) in *. clearbody f.
  open_audio a.
  destruct rdy.
  - destruct W as (L & (Hp & Hb) & H0 & -> & ->);
      destruct (levels lvl L) as [-> | [-> | [-> | ->]]]; shapes;
      destruct Hb as [Hb | Hb]; shapes;
      cbn -[nonzero]; rewrite ?Hf;
      (eexists; split; [reflexivity|]); cbn; settle.
  - shapes. eexists; split; [reflexivity|]. cbn. settle.
Qed.

Lemma contact_nonzero currentFreq :
  ~ (currentFreq == 0)%Q ->
  nonzero (currentFreq * 0.2) && nonzero currentFreq = true.
Proof.
  intros H. rewrite (nonzero_true _ H), andb_true_r.
  apply nonzero_true. intros E. apply H. lra.
Qed.

Lemma triggerUIContact_wired currentFreq a :
  wired a -> ~ (currentFreq == 0)%Q ->
  exists a',
    triggerUIContact currentFreq a = Some a'
    /\ wired a' /\ volumeLevel a' = volumeLevel a /\ ready a' = ready a
    /\ sounded a' = sounded a
    /\ (muted a = true -> nodes a' = nodes a).
Proof.
  intros W Hf. apply contact_nonzero in Hf.
  unfold triggerUIContact. open_audio a.
  destruct rdy.
  - destruct W as (L & (Hp & Hb) & H0 & -> & ->);
      destruct (levels lvl L) as [-> | [-> | [-> | ->]]]; shapes;
      destruct Hb as [Hb | Hb]; shapes;
      cbn -[nonzero]; rewrite ?Hf;
      (eexists; split; [reflexivity|]); cbn; settle.
  - shapes. eexists; split; [reflexivity|]. cbn. settle.
Qed.

Lemma init_wired o a :
  wired a -> ready a = false -> o <> NoGain ->
  (o = Created
   /\ (init o a).1 = true /\ wired (init o a).2
   /\ ready (init o a).2 = true /\ volumeLevel (init o a).2 = 1
   /\ sounded (init o a).2 = [] /\ silent (nodes (init o a).2))
  \/ (o = NoContext /\ init o a = (false, a)).
Proof.
  intros W R Ho. unfold init. open_audio a. subst rdy. shapes.
  destruct o; [left | right | contradiction]; cbn; settle.
Qed.

Lemma autoInit_wired o a cls :
  wired a -> o <> NoGain ->
  exists a',
    autoInit o (a, cls) = Some (a', cls)
    /\ wired a' /\ volumeLevel a' = volumeLevel a
    /\ (ready a = true -> a' = a).
Proof.
  intros W Ho. unfold autoInit. cbn [fst snd].
  destruct (ready a) eqn:R.
  - exists a. settle.
  - destruct (init_wired o a W R Ho)
      as [(-> & H1 & H2 & H3 & H4 & H5 & H6) | (-> & H1)].
    + destruct (init Created a) as [ok a1]. cbn [fst snd] in *. subst ok.
      destruct (setVolumeLevel_wired a1 1 H2 H3 ltac:(lia))
        as (a' & E & W' & L' & _).
      rewrite E. exists a'. cbn. destruct W as (_ & _ & _ & W).
      rewrite R in W. settle.
    + rewrite H1. exists a. settle.
Qed.

Lemma shows_toggle level contact classes :
  0 <= level <= 3 -> shows level classes ->
  shows level (if contact : bool then classList_add "beam-contact" classes
               else classList_remove "beam-contact" classes).
Proof.
  intros L H.
  destruct (levels level L) as [-> | [-> | [-> | ->]]];
    destruct H as [-> | ->]; destruct contact;
    first [left; vm_compute; reflexivity | right; vm_compute; reflexivity].
Qed.

Lemma onclick_wired o a classes :
  wired a -> o <> NoGain -> shows (volumeLevel a) classes ->
  exists a' classes',
    onclick o (a, classes) = Some (a', classes')
    /\ wired a'
    /\ shows (volumeLevel a') classes'
    /\ (ready a = true ->
        volumeLevel a' = (volumeLevel a + 1) mod 4 /\ ready a' = true
        /\ classes' = [volume_class (volumeLevel a')]).
Proof.
  intros W Ho Hsh. unfold onclick. cbn [fst snd].
  destruct (ready a) eqn:R; cbn [negb].
  - pose proof W as (L & _ & _ & W4). rewrite R in W4. destruct W4 as [Hc Hm].
    set (next := if 3 <? volumeLevel a + 1 then 0 else volumeLevel a + 1).
    assert (Hn : 0 <= next <= 3 /\ next = (volumeLevel a + 1) mod 4).
    { subst next.
      destruct (levels _ L) as [E | [E | [E | E]]]; rewrite E;
        (split; [vm_compute; split; discriminate | reflexivity]). }
    destruct Hn as [Hn Hmod].
    destruct (setVolumeLevel_wired a next W R Hn)
      as (a' & E & W' & L' & R' & S' & _).
    rewrite E. cbn.
    pose proof W' as (_ & _ & _ & W4'). rewrite R' in W4'.
    destruct W4' as [Hc' Hm'].
    destruct (0 <? next) eqn:E0.
    + rewrite Hc', Hm'. cbn.
      exists (sound [beep next] a'), [volume_class next].
      split; [reflexivity|]. split; [|split].
      * unfold wired in *. cbn. rewrite R'. tauto.
      * left. cbn [volumeLevel sound]. rewrite L'. reflexivity.
      * intros _. cbn [volumeLevel sound ready]. rewrite L'.
        split; [exact Hmod|]. split; [exact R'|reflexivity].
    + exists a', [volume_class next].
      split; [reflexivity|]. split; [exact W'|]. rewrite L'.
      split; [left; reflexivity|]. intros _.
      split; [exact Hmod|]. split; [exact R'|reflexivity].
  - destruct (init_wired o a W R Ho)
      as [(-> & H1 & H2 & H3 & H4 & H5 & H6) | (-> & H1)].
    + destruct (init Created a) as [ok a1]. cbn [fst snd] in *. subst ok.
      destruct (setVolumeLevel_wired a1 1 H2 H3 ltac:(lia))
        as (a' & E & W' & L' & _).
      rewrite E. exists a', ["volume-1"]. cbn.
      split; [reflexivity|]. split; [exact W'|]. rewrite L'.
      split; [left; reflexivity|]. discriminate.
    + rewrite H1. cbn. exists a, classes.
      split; [reflexivity|]. split; [exact W|]. split; [exact Hsh|].
      discriminate.
Qed.

Lemma handle_wired e a classes :
  sane e -> wired a -> shows (volumeLevel a) classes ->
  exists a' classes',
    handle e (a, classes) = Some (a', classes')
    /\ wired a'
    /\ shows (volumeLevel a') classes'.
Proof.
  intros He W Hsh. destruct e; cbn [handle sane] in *.
  - destruct (autoInit_wired o a classes W He) as (a' & E & W' & L' & _).
    exists a', classes. rewrite E, L'. settle.
  - destruct (onclick_wired o a classes W He Hsh)
      as (a' & classes' & E & W' & S' & _).
    exists a', classes'. settle.
  - unfold on_audio. cbn [fst snd].
    destruct (syncToDecayStage_wired a stage progress W He)
      as (a1 & E1 & W1 & L1 & _).
    rewrite E1. cbn.
    destruct (AudioSync.surge stage progress).
    + unfold triggerFlickerSurge.
      match goal with
      | |- context [one_shot ?k ?es a1] =>
          destruct (one_shot_wired k es a1 W1) as (a2 & E2 & W2 & L2 & _)
      end.
      rewrite E2. cbn.
      exists a2, classes. rewrite L2, L1. settle.
    + cbn. exists a1, classes. rewrite L1. settle.
  - unfold on_audio. cbn [fst snd].
    destruct He as [He He'].
    destruct (triggerBeamSweep_wired beamY innerHeight a W He He')
      as (a1 & E1 & W1 & L1 & _).
    rewrite E1. cbn. exists a1, classes. rewrite L1. settle.
  - cbn [fst snd]. eexists a, _. split; [reflexivity|].
    split; [exact W|]. apply shows_toggle; [apply W|exact Hsh].
  - unfold on_audio. cbn [fst snd].
    destruct (triggerUIContact_wired currentFreq a W He)
      as (a1 & E1 & W1 & L1 & _).
    rewrite E1. cbn. exists a1, classes. rewrite L1. settle.
  - unfold on_audio, triggerBeamFizz. cbn [fst snd].
    match goal with
    | |- context [one_shot ?k ?es a] =>
        destruct (one_shot_wired k es a W) as (a1 & E1 & W1 & L1 & _)
    end.
    rewrite E1. cbn. exists a1, classes. rewrite L1. settle.
  - unfold on_audio, triggerMembraneClick. cbn [fst snd].
    match goal with
    | |- context [one_shot ?k ?es a] =>
        destruct (one_shot_wired k es a W) as (a1 & E1 & W1 & L1 & _)
    end.
    rewrite E1. cbn. exists a1, classes. rewrite L1. settle.
  - unfold on_audio, triggerPopupOpen. cbn [fst snd].
    match goal with
    | |- context [one_shot ?k ?es a] =>
        destruct (one_shot_wired k es a W) as (a1 & E1 & W1 & L1 & _)
    end.
    rewrite E1. cbn. exists a1, classes. rewrite L1. settle.
  - unfold on_audio, triggerPopupClose. cbn [fst snd].
    match goal with
    | |- context [one_shot ?k ?es a] =>
        destruct (one_shot_wired k es a W) as (a1 & E1 & W1 & L1 & _)
    end.
    rewrite E1. cbn. exists a1, classes. rewrite L1. settle.
  - unfold on_audio, triggerWaterDrop. cbn [fst snd].
    match goal with
    | |- context [one_shot ?k ?es a] =>
        destruct (one_shot_wired k es a W) as (a1 & E1 & W1 & L1 & _)
    end.
    rewrite E1. cbn. exists a1, classes. rewrite L1. settle.
Qed.

Lemma play_wired (es : list event) : forall a classes,
  Forall sane es -> wired a -> shows (volumeLevel a) classes ->
  exists a' classes',
    play es (a, classes) = Some (a', classes')
    /\ wired a'
    /\ shows (volumeLevel a') classes'.
Proof.
  induction es as [|e es IH]; intros a classes Hs W Hsh.
  - exists a, classes. settle.
  - inversion Hs as [|? ? He Hes]; subst.
    destruct (handle_wired e a classes He W Hsh) as (a1 & c1 & E1 & W1 & S1).
    destruct (IH a1 c1 Hes W1 S1) as (a2 & c2 & E2 & W2 & S2).
    exists a2, c2. cbn [play]. rewrite E1. cbn. rewrite E2. settle.
Qed.

Lemma wired_constructor : wired constructor.
Proof. unfold wired, paired, silent, hum_off. cbn. settle. Qed.

(** The page keeps the audio object in shape.  Whatever happens on the
    page (first interactions and clicks on the volume button, with attempts
    to make the context that succeed or fail, notifications of the lifecycle
    controller, runs of the beam loop, popups and membrane clicks), no method
    is left by an error; the level stays within 0 to 3; the class of the
    button is that of the level, followed by the contact class while the
    beam loop has set it; at level 0, and as long as no context could be
    made, there is neither hum nor beam drone; and before a context was made
    nothing has sounded and the level is the one of the constructor. *)
Theorem page_keeps_level (es : list event) :
  Forall sane es ->
  exists a classes,
    play es loaded = Some (a, classes)
    /\ 0 <= volumeLevel a <= 3
    /\ shows (volumeLevel a) classes
    /\ (volumeLevel a = 0 -> silent (nodes a))
    /\ (ready a = false ->
        silent (nodes a) /\ sounded a = [] /\ volumeLevel a = 1).
Proof.
  intros Hs.
  destruct (play_wired es constructor ["volume-1"] Hs wired_constructor)
    as (a & classes & E & W & Hsh).
  { left. reflexivity. }
  exists a, classes. split; [exact E|].
  destruct W as (L & _ & H0 & Hr).
  split; [lia|]. split; [exact Hsh|]. split; [exact H0|].
  intros R. rewrite R in Hr. tauto.
Qed.

Lemma page_keeps_level_witness :
  exists a,
    play [FirstInteraction NoContext; VolumeClick Created; VolumeClick Created;
          Decay "flicker" (TankDecay.Num 0); BeamSweep 100 800;
          VolumeClick Created; VolumeClick Created; ToggleClass true]
      loaded = Some (a, ["volume-0"; "beam-contact"])
    /\ silent (nodes a).
Proof.
  destruct (page_keeps_level
              [FirstInteraction NoContext; VolumeClick Created;
               VolumeClick Created;
               Decay "flicker" (TankDecay.Num 0); BeamSweep 100 800;
               VolumeClick Created; VolumeClick Created; ToggleClass true])
    as (a & cls & E & L & C & S & _).
  { repeat match goal with
           | |- Forall _ _ => constructor
           | |- sane _ => cbn [sane]
           | |- _ /\ _ => split
           | |- _ ∉ _ => refine (bool_decide_unpack _ _); vm_compute; exact I
           | |- ~ (_ == _)%Q =>
               let H := fresh in intros H; vm_compute in H; discriminate
           | |- _ <> _ => discriminate
           | |- True => exact I
           end. }
  exists a. vm_compute in E. injection E as <- <-. split; [reflexivity|].
  apply S. reflexivity.
Defined.

Lemma handle_muted e a className :
  muted a = true -> behind_guard e ->
  exists a',
    handle e (a, className) = Some (a', className)
    /\ nodes a' = nodes a
    /\ sounded a' = sounded a
    /\ volumeLevel a' = volumeLevel a
    /\ ready a' = ready a
    /\ (forall stage progress,
          e = Decay stage progress ->
          currentStage a' = stage
          /\ isFlickering a' = bool_decide (stage = "flicker")).
Proof.
  intros Hm He.
  destruct e; cbn [behind_guard] in He; try contradiction;
    unfold handle, on_audio; cbn [fst snd].
  - unfold syncToDecayStage.
    assert (Hm' : muted (set_stage stage a) = true) by exact Hm.
    rewrite Hm'. cbn [mbind option_bind].
    exists (set_stage stage a).
    assert (E : triggerFlickerSurge (set_stage stage a)
                = Some (set_stage stage a)).
    { unfold triggerFlickerSurge, one_shot. rewrite Hm'. reflexivity. }
    rewrite E. destruct (AudioSync.surge stage progress); cbn;
      (split; [reflexivity|]); (split; [reflexivity|]);
      (split; [reflexivity|]); (split; [reflexivity|]);
      (split; [reflexivity|]);
      intros ? ? [= <- <-]; split; reflexivity.
  - unfold triggerBeamSweep. rewrite Hm. cbn. exists a.
    do 5 (split; [reflexivity|]). intros; discriminate.
  - unfold triggerUIContact. rewrite Hm. cbn. exists a.
    do 5 (split; [reflexivity|]). intros; discriminate.
  - unfold triggerBeamFizz, one_shot. rewrite Hm. cbn. exists a.
    do 5 (split; [reflexivity|]). intros; discriminate.
  - unfold triggerMembraneClick, one_shot. rewrite Hm. cbn. exists a.
    do 5 (split; [reflexivity|]). intros; discriminate.
  - unfold triggerPopupOpen, one_shot. rewrite Hm. cbn. exists a.
    do 5 (split; [reflexivity|]). intros; discriminate.
  - unfold triggerPopupClose, one_shot. rewrite Hm. cbn. exists a.
    do 5 (split; [reflexivity|]). intros; discriminate.
  - unfold triggerWaterDrop, one_shot. rewrite Hm. cbn. exists a.
    do 5 (split; [reflexivity|]). intros; discriminate.
Qed.

(** Level 0 is off, and so is an object without context.  On an audio
    object that is muted, whatever follows short of an interaction that sets
    the level (notifications of the controller, runs of the beam loop with
    their contacts, popups, membrane clicks, copies of the password) goes
    through without an error, makes and schedules nothing on hum and beam
    drone, sets off no sound, and leaves level and button as they are. *)
Theorem muted_is_silent (es : list event) : forall a className,
  muted a = true -> Forall behind_guard es ->
  exists a',
    play es (a, className) = Some (a', className)
    /\ nodes a' = nodes a
    /\ sounded a' = sounded a
    /\ volumeLevel a' = volumeLevel a
    /\ ready a' = ready a.
Proof.
  induction es as [|e es IH]; intros a cls Hm Hes.
  - exists a. settle.
  - inversion Hes as [|? ? He Hes']; subst.
    destruct (handle_muted e a cls Hm He) as (a1 & E1 & N1 & S1 & L1 & R1 & _).
    assert (Hm1 : muted a1 = true).
    { unfold muted in *. rewrite L1, R1. exact Hm. }
    destruct (IH a1 cls Hm1 Hes') as (a2 & E2 & N2 & S2 & L2 & R2).
    exists a2. cbn [play]. rewrite E1. cbn. rewrite E2.
    repeat split; congruence.
Qed.

Lemma muted_is_silent_witness :
  exists a a',
    play [FirstInteraction Created; VolumeClick Created; VolumeClick Created;
          VolumeClick Created] loaded = Some (a, ["volume-0"])
    /\ play [Decay "flicker" (TankDecay.Num 0); BeamSweep 100 800;
             UIContact 67; BeamFizz; PopupOpen] (a, ["volume-0"])
       = Some (a', ["volume-0"])
    /\ silent (nodes a') /\ length (sounded a') = 2%nat.
Proof.
  eexists.
  destruct (muted_is_silent
              [Decay "flicker" (TankDecay.Num 0); BeamSweep 100 800;
               UIContact 67; BeamFizz; PopupOpen]
              {| volumeLevel := 0; context := true;
                 nodes := {| masterGain := true;
                             hum := None; humGain := None;
                             harmonic2 := None; harmonic2Gain := None;
                             harmonic3 := None; harmonic3Gain := None;
                             beamOsc := None; beamGain := None |};
                 ready := true; currentStage := "preservation";
                 isFlickering := false;
                 sounded := [beep 2; beep 3] |}
              ["volume-0"] eq_refl)
    as (a' & E & N & S & _).
  { repeat constructor. }
  exists a'. split; [vm_compute; reflexivity|]. split; [exact E|].
  rewrite N, S. vm_compute. repeat split; reflexivity.
Defined.

Lemma target_snoc v l c :
  target {| value := v; scheduled := l ++ [c] |} = Some (aim c).
Proof. unfold target. cbn [scheduled]. rewrite last_snoc. reflexivity. Qed.

(** The hum follows level and stage, and the floor of 0.001 under its
    gains is never reached.  On a working audio object, setting an audible
    level leaves the three gains of the hum (whether just made or ramped)
    headed for 0.04 times the multiplier of the level and for 0.3 and 0.15
    of that, whatever the stage is: a flicker is not taken into account.
    The next notification of the controller heads them for the same values
    times 1 or, in a flicker, 0.75, and the three frequencies for 60, 120
    and 180 Hz or, in a flicker, 57, 114 and 171 Hz. *)
Theorem hum_follows a l stage progress :
  wired a -> ready a = true -> 1 <= l <= 3 ->
  BeamSync.lifecycle_stage stage ->
  exists a1 a2 m,
    multiplier l = Some m
    /\ setVolumeLevel l a = Some a1
    /\ hum_levels (nodes a1)
       = Some ((baseVolume * m)%Q, (baseVolume * m * 0.3)%Q,
               (baseVolume * m * 0.15)%Q)
    /\ syncToDecayStage stage progress a1 = Some a2
    /\ let dim := if decide (stage = "flicker") then 0.75%Q else 1%Q in
       let f := if decide (stage = "flicker") then 57%Q else 60%Q in
       hum_levels (nodes a2)
       = Some ((baseVolume * m * dim)%Q, (baseVolume * m * dim * 0.3)%Q,
               (baseVolume * m * dim * 0.15)%Q)
       /\ hum_frequencies (nodes a2) = Some (f, (f * 2)%Q, (f * 3)%Q).
Proof.
  intros W R L Hs. open_audio a. subst rdy.
  assert (Hl : l = 1 \/ l = 2 \/ l = 3) by lia.
  destruct W as (_ & ([Hh | Hh] & Hb) & _ & -> & ->);
    destruct Hl as [-> | [-> | ->]];
    destruct Hs as [-> | ->];
    shapes; destruct Hb as [Hb | Hb]; shapes;
    (eexists; eexists; eexists; split; [reflexivity|]);
    (split; [reflexivity|]);
    (split; [unfold hum_levels; cbn;
             rewrite ?target_call, ?target_snoc; reflexivity|]);
    (split; [reflexivity|]);
    cbn; unfold hum_levels, hum_frequencies; cbn;
    rewrite ?target_call, ?target_snoc;
    split; reflexivity.
Qed.

(** The audio object once a context has been made, at the level of the
    constructor. *)
Lemma wired_working : wired (init Created constructor).2.
Proof. unfold wired, paired, silent, hum_off. cbn. settle. Qed.

Lemma hum_follows_witness :
  exists a1 a2,
    setVolumeLevel 2 (init Created constructor).2 = Some a1
    /\ syncToDecayStage "flicker" (TankDecay.Num 0) a1 = Some a2
    /\ hum_levels (nodes a2)
       = Some ((baseVolume * 0.6 * 0.75)%Q, (baseVolume * 0.6 * 0.75 * 0.3)%Q,
               (baseVolume * 0.6 * 0.75 * 0.15)%Q).
Proof.
  destruct (hum_follows (init Created constructor).2 2 "flicker"
              (TankDecay.Num 0) wired_working eq_refl ltac:(lia)
              (or_intror eq_refl))
    as (a1 & a2 & m & Hm & E1 & _ & E2 & H1 & _).
  exists a1, a2. injection Hm as <-. repeat split; assumption.
Defined.

(** The beam drone stays within two hertz of its base frequency while
    the beam is inside the window, and a contact does not pile up gain.  On
    a working audio object at an audible level, a sweep with the beam
    between the top and the bottom of a window of positive height leaves the
    drone headed for 67.83 + 4 (beamY / innerHeight - 1/2) Hz, between 65.83
    and 69.83 Hz, with the gain 0.015 when the drone is just made; and a
    contact after it, whatever frequency it reads, leaves the frequency
    headed back for what it read and the gain headed back for 0.015, the
    calls made before being kept; neither sets off a sound of its own.  (A
    reading of 0 would make the ramp back an error.) *)
Theorem beam_drone a beamY innerHeight currentFreq :
  wired a -> ready a = true -> volumeLevel a <> 0 ->
  (0 < innerHeight)%Q -> (0 <= beamY <= innerHeight)%Q ->
  ~ (currentFreq == 0)%Q ->
  exists a1 a2 osc g osc' g' f,
    triggerBeamSweep beamY innerHeight a = Some a1
    /\ beamOsc (nodes a1) = Some osc /\ beamGain (nodes a1) = Some g
    /\ target (frequency osc) = Some f
    /\ f = (67.83 + (beamY / innerHeight - 0.5) * 4)%Q
    /\ (65.83 <= f <= 69.83)%Q
    /\ (beamOsc (nodes a) = None -> target g = Some baseBeamGain)
    /\ triggerUIContact currentFreq a1 = Some a2
    /\ beamOsc (nodes a2) = Some osc' /\ beamGain (nodes a2) = Some g'
    /\ target (frequency osc') = Some currentFreq
    /\ target g' = Some baseBeamGain
    /\ (exists cs, scheduled g' = scheduled g ++ cs)
    /\ sounded a2 = sounded a.
Proof.
  intros W R L Hh Hy Hc. apply contact_nonzero in Hc.
  assert (Hn : ~ (innerHeight == 0)%Q).
  { intros E. rewrite E in Hh. apply (Qlt_irrefl 0). exact Hh. }
  assert (Hf : (65.83 <= 67.83 + (beamY / innerHeight - 0.5) * 4 <= 69.83)%Q).
  { assert (H0 : (0 <= beamY / innerHeight)%Q).
    { apply Qle_shift_div_l; [exact Hh|]. rewrite Qmult_0_l. apply Hy. }
    assert (H1 : (beamY / innerHeight <= 1)%Q).
    { apply Qle_shift_div_r; [exact Hh|]. rewrite Qmult_1_l. apply Hy. }
    set (x := (beamY / innerHeight)%Q) in *. clearbody x. split; lra. }
  unfold triggerBeamSweep, triggerUIContact, ramp_frequency.
  rewrite (sweep_frequency_sane _ _ Hn).
  set (f := (67.83 + (beamY / innerHeight - 0.5) * 4)%Q) in *. clearbody f.
  assert (Hz : nonzero f = true).
  { apply nonzero_true. intros E. destruct Hf as [Hf _]. lra. }
  open_audio a. subst rdy.
  assert (Hl : lvl = 1 \/ lvl = 2 \/ lvl = 3) by lia.
  destruct W as (_ & (_ & Hb) & _ & -> & ->).
  destruct Hl as [-> | [-> | ->]]; destruct Hb as [Hb | Hb]; shapes.
  all: cbn -[nonzero]; rewrite ?Hz; cbn -[nonzero]; rewrite ?Hc.
  all: do 7 eexists.
  all: split; [reflexivity|].
  all: split; [reflexivity|]; split; [reflexivity|].
  all: split; [unfold target, call; cbn; rewrite ?last_snoc; reflexivity|].
  all: split; [reflexivity|].
  all: split; [split; assumption|].
  all: split; [first [intros _; reflexivity | intros; discriminate]|].
  all: split; [reflexivity|].
  all: split; [reflexivity|]; split; [reflexivity|].
  all: split; [unfold target, call; cbn [frequency scheduled];
               rewrite last_app; reflexivity|].
  all: split; [unfold target, call; cbn [scheduled];
               rewrite last_app; reflexivity|].
  all: split; [eexists; reflexivity | reflexivity].
Qed.

Lemma beam_drone_witness :
  exists a1 osc,
    triggerBeamSweep 400 800 (init Created constructor).2 = Some a1
    /\ beamOsc (nodes a1) = Some osc
    /\ target (frequency osc) = Some (67.83 + (400 / 800 - 0.5) * 4)%Q.
Proof.
  destruct (beam_drone (init Created constructor).2 400 800 67
              wired_working eq_refl)
    as (a1 & a2 & osc & g & osc' & g' & f & E1 & Eo & _ & Et & Ef & _).
  - discriminate.
  - reflexivity.
  - split; discriminate.
  - intros H. vm_compute in H. discriminate.
  - exists a1, osc. subst f. repeat split; assumption.
Defined.

End AudioClassFacts.
